(** * A fixed-pool first-fit allocator with an intrusive free list

    Shallow embedding of [src/main.cpp]: [BlockHeader], the [Allocator]
    class with its constructor, [removeFromFreeList], [addToFreeList],
    [allocate], [deallocate] and the traversal of [print_free_list].

    Memory is modelled at the granularity the program uses it: a finite map
    from the address of a header to the header stored there.  A header that
    was absorbed by a merge stays in the map, exactly as its bytes stay in
    the pool.  [size_t] values are integers in [0, wmod) and every [size_t]
    addition and subtraction of the source is written with its wrap-around;
    [char*] arithmetic is plain integer arithmetic on addresses.

    A read of memory where no header was written, and a write of a header
    that does not lie inside the pool, are undefined behaviour: the model
    stops with [Fault].  The loops over the free list run on fuel, one step
    more than the number of headers in memory, and stop with [Diverge] when
    it runs out. *)

From stdpp Require Import gmap list fin_maps.
From Stdlib Require Import ZArith Lia.

Open Scope Z_scope.

(** ** Data model *)

(** A pointer to a header; [None] is [nullptr]. *)
Abbreviation ptr := (option Z).

Record BlockHeader := mkBlockHeader {
  size : Z;        (* size_t size: bytes of the block, header included *)
  is_free : bool;
  next : ptr;      (* next block of the free list *)
  prev : ptr       (* previous block of the free list *)
}.

Definition with_size (v : Z) (h : BlockHeader) : BlockHeader :=
  mkBlockHeader v (is_free h) (next h) (prev h).
Definition with_is_free (v : bool) (h : BlockHeader) : BlockHeader :=
  mkBlockHeader (size h) v (next h) (prev h).
Definition with_next (v : ptr) (h : BlockHeader) : BlockHeader :=
  mkBlockHeader (size h) (is_free h) v (prev h).
Definition with_prev (v : ptr) (h : BlockHeader) : BlockHeader :=
  mkBlockHeader (size h) (is_free h) (next h) v.

(** The fields of a header no statement has written yet.  The constructor
    and the split, the two places that make a header, write all four fields
    before any of them is read. *)
Definition indeterminate : BlockHeader := mkBlockHeader 0 false None None.

Record Allocator := mkAllocator {
  m_memory_pool : ptr;
  m_pool_size : Z;
  m_free_list_head : ptr;
  cells : gmap Z BlockHeader   (* the headers written into the pool so far *)
}.

Definition with_head (p : ptr) (s : Allocator) : Allocator :=
  mkAllocator (m_memory_pool s) (m_pool_size s) p (cells s).
Definition with_cells (m : gmap Z BlockHeader) (s : Allocator) : Allocator :=
  mkAllocator (m_memory_pool s) (m_pool_size s) (m_free_list_head s) m.

(** ** Outcomes and the state monad of the member functions *)

Inductive outcome (A : Type) : Type :=
| Done (a : A)
| Fault      (* a header access outside the pool or of unwritten memory *)
| Diverge.   (* a loop that walks a cyclic list *)
Arguments Done {A} a.
Arguments Fault {A}.
Arguments Diverge {A}.

Definition M (A : Type) : Type := Allocator → outcome (A * Allocator).

Definition ret {A} (a : A) : M A := λ s, Done (a, s).
Definition bind {A B} (m : M A) (k : A → M B) : M B :=
  λ s, match m s with
       | Done (a, s') => k a s'
       | Fault => Fault
       | Diverge => Diverge
       end.
Definition diverge {A} : M A := λ _, Diverge.

Notation "'let*' x := m 'in' k" := (bind m (λ x, k))
  (at level 10, x name, m at level 100, k at level 200, only parsing).
Notation "m ;;; k" := (bind m (λ _, k))
  (at level 100, k at level 200, only parsing).

Section AllocatorModel.

(** [header_size] is [sizeof(BlockHeader)] and [wmod] is the number of
    values of [size_t]; 32 and 2^64 on an LP64 target. *)
Variable header_size : Z.
Variable wmod : Z.

Definition wrap (z : Z) : Z := z mod wmod.

(** A header at address [a] lies inside the pool. *)
Definition in_pool (s : Allocator) (a : Z) : bool :=
  match m_memory_pool s with
  | Some base => (base <=? a) && (a + header_size <=? base + m_pool_size s)
  | None => false
  end.

(** Reading a field of the header at [a]. *)
Definition load (a : Z) : M BlockHeader :=
  λ s, match cells s !! a with
       | Some h => Done (h, s)
       | None => Fault
       end.

(** Writing one field of the header at [a]: the other fields keep what
    the memory held. *)
Definition upd (a : Z) (f : BlockHeader → BlockHeader)
    (m : gmap Z BlockHeader) : gmap Z BlockHeader :=
  <[a := f (default indeterminate (m !! a))]> m.

Definition store (a : Z) (f : BlockHeader → BlockHeader) : M unit :=
  λ s, if in_pool s a
       then Done (tt, with_cells (upd a f (cells s)) s)
       else Fault.

Definition get_size (a : Z) : M Z := let* h := load a in ret (size h).
Definition get_is_free (a : Z) : M bool := let* h := load a in ret (is_free h).
Definition get_next (a : Z) : M ptr := let* h := load a in ret (next h).
Definition get_prev (a : Z) : M ptr := let* h := load a in ret (prev h).
Definition set_size (a : Z) (v : Z) : M unit := store a (with_size v).
Definition set_is_free (a : Z) (v : bool) : M unit := store a (with_is_free v).
Definition set_next (a : Z) (v : ptr) : M unit := store a (with_next v).
Definition set_prev (a : Z) (v : ptr) : M unit := store a (with_prev v).

Definition get_head : M ptr := λ s, Done (m_free_list_head s, s).
Definition set_head (p : ptr) : M unit := λ s, Done (tt, with_head p s).

(** The end of the pool, [(char* )m_memory_pool + m_pool_size]. *)
Definition pool_end : M Z :=
  λ s, match m_memory_pool s with
       | Some base => Done (base + m_pool_size s, s)
       | None => Fault
       end.

(** A loop over the free list visits each header at most once unless the
    list is cyclic, so one step more than the number of headers is all the
    fuel a terminating loop needs. *)
Definition loop_fuel : M nat := λ s, Done (S (base.size (cells s)), s).

(** ** The constructor

    [base] is the address [new char[pool_size]] returns. *)
Definition construct (base pool_size : Z) : Allocator :=
  if pool_size <? header_size
  then mkAllocator None pool_size None ∅
  else mkAllocator (Some base) pool_size (Some base)
         {[ base := mkBlockHeader pool_size true None None ]}.

(** ** Free-list helpers *)

Definition removeFromFreeList (block : Z) : M unit :=
  let* pv := get_prev block in
  (match pv with
   | Some p => let* nx := get_next block in set_next p nx
   | None => let* nx := get_next block in set_head nx
   end) ;;;
  let* nx := get_next block in
  match nx with
  | Some n => let* pv' := get_prev block in set_prev n pv'
  | None => ret tt
  end.

Definition addToFreeList (block : Z) : M unit :=
  set_is_free block true ;;;
  let* hd := get_head in
  set_next block hd ;;;
  set_prev block None ;;;
  let* hd' := get_head in
  (match hd' with
   | Some h => set_prev h (Some block)
   | None => ret tt
   end) ;;;
  set_head (Some block).

(** ** allocate *)

(** The body of [if (current->size > total_size_needed + sizeof(BlockHeader))]. *)
Definition split_block (current : Z) (total_size_needed : Z) : M unit :=
  let new_free_block := current + total_size_needed in
  let* sz := get_size current in
  set_size new_free_block (wrap (sz - total_size_needed)) ;;;
  set_is_free new_free_block true ;;;
  set_size current total_size_needed ;;;
  let* nx := get_next current in
  set_next new_free_block nx ;;;
  let* pv := get_prev current in
  set_prev new_free_block pv ;;;
  let* pv' := get_prev current in
  (match pv' with
   | Some p => set_next p (Some new_free_block)
   | None => set_head (Some new_free_block)
   end) ;;;
  let* nx' := get_next current in
  match nx' with
  | Some n => set_prev n (Some new_free_block)
  | None => ret tt
  end.

(** The [while (current)] loop of [allocate]. *)
Fixpoint allocate_loop (fuel : nat) (total_size_needed : Z) (current : ptr) : M ptr :=
  match fuel with
  | O => diverge
  | S fuel' =>
      match current with
      | None => ret None
      | Some c =>
          let* sz := get_size c in
          if total_size_needed <=? sz then
            let* sz' := get_size c in
            (if wrap (total_size_needed + header_size) <? sz'
             then split_block c total_size_needed
             else removeFromFreeList c) ;;;
            set_is_free c false ;;;
            ret (Some (c + header_size))
          else
            let* nx := get_next c in
            allocate_loop fuel' total_size_needed nx
      end
  end.

Definition allocate (requested : Z) : M ptr :=
  if requested =? 0 then ret None
  else
    let total_size_needed := wrap (requested + header_size) in
    let* current := get_head in
    let* fuel := loop_fuel in
    allocate_loop fuel total_size_needed current.

(** A caller that makes one call of [allocate] per request, as the loop of
    the stress test in [main] does. *)
Fixpoint allocate_each (requests : list Z) : M (list ptr) :=
  match requests with
  | [] => ret []
  | n :: rest =>
      let* p := allocate n in
      let* ps := allocate_each rest in
      ret (p :: ps)
  end.

(** ** deallocate *)

(** The left-coalescing [while (current_free)] loop; [true] when it
    returned from [deallocate] after a merge. *)
Fixpoint coalesce_left (fuel : nat) (block_to_free : Z) (current_free : ptr) : M bool :=
  match fuel with
  | O => diverge
  | S fuel' =>
      match current_free with
      | None => ret false
      | Some c =>
          let* csz := get_size c in
          if c + csz =? block_to_free then
            let* csz' := get_size c in
            let* bsz := get_size block_to_free in
            set_size c (wrap (csz' + bsz)) ;;;
            ret true
          else
            let* nx := get_next c in
            coalesce_left fuel' block_to_free nx
      end
  end.

(** Step 1 of [deallocate]: merge with the block physically to the right.
    The [is_free] field of that block is read only when its address is
    below the end of the pool ([&&] evaluates left to right). *)
Definition coalesce_right (block_to_free : Z) : M unit :=
  let* bsz := get_size block_to_free in
  let next_physical_block := block_to_free + bsz in
  let* pend := pool_end in
  let* right_free := (if next_physical_block <? pend
                      then get_is_free next_physical_block
                      else ret false) in
  if right_free : bool then
    let* bsz' := get_size block_to_free in
    let* nsz := get_size next_physical_block in
    set_size block_to_free (wrap (bsz' + nsz)) ;;;
    removeFromFreeList next_physical_block
  else ret tt.

Definition deallocate (p : ptr) : M unit :=
  match p with
  | None => ret tt
  | Some user =>
      let block_to_free := user - header_size in
      coalesce_right block_to_free ;;;
      let* current_free := get_head in
      let* fuel := loop_fuel in
      let* merged := coalesce_left fuel block_to_free current_free in
      if merged : bool then ret tt else addToFreeList block_to_free
  end.

(** ** print_free_list: the (address, size) pairs in list order *)

Fixpoint walk_free_list (fuel : nat) (current : ptr) : M (list (Z * Z)) :=
  match fuel with
  | O => diverge
  | S fuel' =>
      match current with
      | None => ret []
      | Some c =>
          let* sz := get_size c in
          let* nx := get_next c in
          let* rest := walk_free_list fuel' nx in
          ret ((c, sz) :: rest)
      end
  end.

Definition print_free_list : M (list (Z * Z)) :=
  let* current := get_head in
  let* fuel := loop_fuel in
  walk_free_list fuel current.

(** ** The blocks of the pool, found the way [deallocate] finds the right
    neighbour: each block starts where the previous one ends.  The walk
    succeeds exactly when the headers tile the pool with blocks of at least
    one header; every block takes at least one byte, so [m_pool_size]
    steps are enough. *)
Record blk := Blk { baddr : Z; bsize : Z; bfree : bool }.

Fixpoint walk_blocks (fuel : nat) (m : gmap Z BlockHeader) (a e : Z) :
    option (list blk) :=
  if a =? e then Some []
  else
    match fuel with
    | O => None
    | S fuel' =>
        match m !! a with
        | None => None
        | Some h =>
            if (header_size <=? size h) && (a + size h <=? e)
            then cons (Blk a (size h) (is_free h)) <$>
                 walk_blocks fuel' m (a + size h) e
            else None
        end
    end.

Definition pool_blocks (s : Allocator) : option (list blk) :=
  match m_memory_pool s with
  | Some base =>
      walk_blocks (Z.to_nat (m_pool_size s)) (cells s) base (base + m_pool_size s)
  | None => None
  end.


(** ** The notions the invariant and the specifications are stated with *)

(** [upd_opt p f m] is the write through a pointer that the source guards
    with [if (p)]. *)
Definition upd_opt (p : ptr) (f : BlockHeader → BlockHeader)
    (m : gmap Z BlockHeader) : gmap Z BlockHeader :=
  match p with Some a => upd a f m | None => m end.

(** A pointer is null or points at a header inside the pool. *)
Definition in_pool_opt (s : Allocator) (p : ptr) : Prop :=
  match p with Some a => in_pool s a = true | None => True end.

(** The memory [removeFromFreeList] leaves for a block whose header is [hb]. *)
Definition unlink (hb : BlockHeader) (m : gmap Z BlockHeader) : gmap Z BlockHeader :=
  upd_opt (next hb) (with_prev (prev hb)) (upd_opt (prev hb) (with_next (next hb)) m).

(** [contig a bl e]: the blocks [bl], in address order, tile [a, e): each
    starts where the previous one ends and holds at least a header. *)
Fixpoint contig (a : Z) (bl : list blk) (e : Z) : Prop :=
  match bl with
  | [] => a = e
  | x :: r => baddr x = a ∧ header_size ≤ bsize x ∧ contig (a + bsize x) r e
  end.

(** The header in memory at a block's address records its size and state. *)
Definition agrees (m : gmap Z BlockHeader) (x : blk) : Prop :=
  ∃ h, m !! baddr x = Some h ∧ size h = bsize x ∧ is_free h = bfree x.

(** The two free-list links of the header at [a]. *)
Definition links (m : gmap Z BlockHeader) (a : Z) : option (ptr * ptr) :=
  (λ h, (next h, prev h)) <$> m !! a.

(** [dll L fl hd]: following [next] from [hd] visits exactly [fl], and each
    [prev] points back at the element before. *)
Definition dll (L : Z → option (ptr * ptr)) (fl : list Z) (hd : ptr) : Prop :=
  hd = head fl ∧ ∀ l1 a l2, fl = l1 ++ a :: l2 → L a = Some (head l2, last l1).

(** The first block of [bl] is free. *)
Definition first_free (bl : list blk) : bool :=
  match bl with y :: _ => bfree y | [] => false end.
Arguments first_free !bl /.

(** No two physically adjacent blocks are both free. *)
Fixpoint no_adjacent_free (bl : list blk) : bool :=
  match bl with
  | x :: r => negb (bfree x && first_free r) && no_adjacent_free r
  | [] => true
  end.

(** The addresses of the free blocks, in address order. *)
Fixpoint free_addrs (bl : list blk) : list Z :=
  match bl with
  | [] => []
  | x :: r => if bfree x then baddr x :: free_addrs r else free_addrs r
  end.

(** The last block of [bl] is free. *)
Definition last_free (bl : list blk) : bool :=
  match last bl with Some y => bfree y | None => false end.

(** The memory [split_block] leaves: the statements of the source in order,
    innermost first. *)
Definition split_cells (c total : Z) (hc : BlockHeader)
    (m : gmap Z BlockHeader) : gmap Z BlockHeader :=
  upd_opt (next hc) (with_prev (Some (c + total)))
    (upd_opt (prev hc) (with_next (Some (c + total)))
       (upd (c + total) (with_prev (prev hc))
          (upd (c + total) (with_next (next hc))
             (upd c (with_size total)
                (upd (c + total) (with_is_free true)
                   (upd (c + total) (with_size (wrap (size hc - total))) m)))))).

(** The memory [addToFreeList] leaves when the head of the list was [hd]. *)
Definition pushed_cells (b : Z) (hd : ptr)
    (m : gmap Z BlockHeader) : gmap Z BlockHeader :=
  upd_opt hd (with_prev (Some b))
    (upd b (with_prev None) (upd b (with_next hd) (upd b (with_is_free true) m))).

(** The (address, size) pairs [print_free_list] prints for the list [fl]. *)
Definition snapshot (m : gmap Z BlockHeader) (fl : list Z) : list (Z * Z) :=
  (λ a, (a, size (default indeterminate (m !! a)))) <$> fl.

(** The addresses of the allocated blocks, in address order. *)
Fixpoint used_addrs (bl : list blk) : list Z :=
  match bl with
  | [] => []
  | x :: r => if bfree x then used_addrs r else baddr x :: used_addrs r
  end.

(** The first entry of a free-list snapshot that can hold [total] bytes. *)
Definition first_fit (total : Z) (l : list (Z * Z)) : option (Z * Z) :=
  List.find (λ x, total <=? x.2) l.

(** The bytes on the free list, as [print_free_list] shows them, and the
    bytes of the free blocks of the pool. *)
Definition free_bytes (l : list (Z * Z)) : Z := foldr (λ x acc, x.2 + acc) 0 l.
Definition free_total (bl : list blk) : Z :=
  foldr (λ x acc, if bfree x then bsize x + acc else acc) 0 bl.

(** The pairs [print_free_list] shows when the free list is in address order. *)
Definition free_pairs (bl : list blk) : list (Z * Z) :=
  foldr (λ x acc, if bfree x then (baddr x, bsize x) :: acc else acc) [] bl.

(** *** The invariant of the allocator

    [bl] are the blocks of the pool in address order and [fl] the addresses
    on the free list in list order; [b0] is the address of the pool.  The
    pool exists and is smaller than [SIZE_MAX - sizeof(BlockHeader)]; the
    blocks tile it and memory holds their headers; the free list is a
    doubly linked list of exactly the free blocks; no two adjacent blocks
    are free; no header was written outside the pool. *)
Record wf (b0 : Z) (s : Allocator) (bl : list blk) (fl : list Z) : Prop := {
  wf_pool : m_memory_pool s = Some b0;
  wf_psize : m_pool_size s + header_size < wmod;
  wf_contig : contig b0 bl (b0 + m_pool_size s);
  wf_agrees : Forall (agrees (cells s)) bl;
  wf_dll : dll (links (cells s)) fl (m_free_list_head s);
  wf_free : fl ≡ₚ free_addrs bl;
  wf_naf : no_adjacent_free bl = true;
  wf_cells : ∀ a, is_Some (cells s !! a) → in_pool s a = true
}.

(** *** What a call of allocate does to a well-formed allocator

    [total] is the request plus one header.  The call either finds every
    free block too small and changes nothing, or takes the first block of
    the free list that is large enough, splitting it when more than one
    header is left over. *)
Inductive alloc_post (b0 total : Z) (s : Allocator) (bl : list blk) (fl : list Z) :
    ptr → Allocator → Prop :=
| alloc_none :
    (∀ x, x ∈ fl → ∃ h, cells s !! x = Some h ∧ size h < total) →
    alloc_post b0 total s bl fl None s
| alloc_split l1 c csz l2 B1 B2 hc s' :
    fl = l1 ++ c :: l2 → bl = B1 ++ Blk c csz true :: B2 →
    (∀ x, x ∈ l1 → ∃ h, cells s !! x = Some h ∧ size h < total) →
    cells s !! c = Some hc →
    total ≤ csz → total + header_size < csz →
    s' = mkAllocator (m_memory_pool s) (m_pool_size s)
           (match prev hc with
            | Some _ => m_free_list_head s
            | None => Some (c + total)
            end)
           (upd c (with_is_free false) (split_cells c total hc (cells s))) →
    wf b0 s' (B1 ++ Blk c total false :: Blk (c + total) (csz - total) true :: B2)
      (l1 ++ (c + total) :: l2) →
    alloc_post b0 total s bl fl (Some (c + header_size)) s'
| alloc_whole l1 c csz l2 B1 B2 hc s' :
    fl = l1 ++ c :: l2 → bl = B1 ++ Blk c csz true :: B2 →
    (∀ x, x ∈ l1 → ∃ h, cells s !! x = Some h ∧ size h < total) →
    cells s !! c = Some hc →
    total ≤ csz → csz ≤ total + header_size →
    s' = mkAllocator (m_memory_pool s) (m_pool_size s)
           (match prev hc with Some _ => m_free_list_head s | None => next hc end)
           (upd c (with_is_free false) (unlink hc (cells s))) →
    wf b0 s' (B1 ++ Blk c csz false :: B2) (l1 ++ l2) →
    alloc_post b0 total s bl fl (Some (c + header_size)) s'.

(** *** What a call of deallocate does to a well-formed allocator

    The freed block [b] absorbs a free right neighbour, and is absorbed by
    a free left neighbour; when no left neighbour is free it becomes the
    head of the free list. *)
Inductive dealloc_post (bl : list blk) (fl : list Z) (b : Z) :
    list blk → list Z → Prop :=
| dealloc_alone B1 sz B2 :
    bl = B1 ++ Blk b sz false :: B2 →
    last_free B1 = false → first_free B2 = false →
    dealloc_post bl fl b (B1 ++ Blk b sz true :: B2) (b :: fl)
| dealloc_right B1 sz rsz B2 k1 k2 :
    bl = B1 ++ Blk b sz false :: Blk (b + sz) rsz true :: B2 →
    fl = k1 ++ (b + sz) :: k2 →
    last_free B1 = false → first_free B2 = false →
    dealloc_post bl fl b (B1 ++ Blk b (sz + rsz) true :: B2) (b :: k1 ++ k2)
| dealloc_left B1 l lsz sz B2 :
    bl = B1 ++ Blk l lsz true :: Blk b sz false :: B2 →
    first_free B2 = false →
    dealloc_post bl fl b (B1 ++ Blk l (lsz + sz) true :: B2) fl
| dealloc_both B1 l lsz sz rsz B2 k1 k2 :
    bl = B1 ++ Blk l lsz true :: Blk b sz false :: Blk (b + sz) rsz true :: B2 →
    fl = k1 ++ (b + sz) :: k2 →
    first_free B2 = false →
    dealloc_post bl fl b (B1 ++ Blk l (lsz + (sz + rsz)) true :: B2) (k1 ++ k2).

(** *** Reachable states

    [reachable b0 s P]: the allocator [s] results from constructing a pool at
    address [b0] and calling [allocate] and [deallocate]; [P] are the
    pointers [allocate] returned that were not given back since.  Requests
    are those whose total, request plus header, is a [size_t] value. *)
Inductive reachable (b0 : Z) : Allocator → gset Z → Prop :=
| reach_construct pool_size :
    header_size ≤ pool_size → pool_size + header_size < wmod →
    reachable b0 (construct b0 pool_size) ∅
| reach_allocate s P n r s' :
    reachable b0 s P → 0 ≤ n → n + header_size < wmod →
    allocate n s = Done (r, s') →
    reachable b0 s' (match r with Some u => {[u]} ∪ P | None => P end)
| reach_deallocate s P u s' :
    reachable b0 s P → u ∈ P →
    deallocate (Some u) s = Done (tt, s') →
    reachable b0 s' (P ∖ {[u]})
| reach_deallocate_null s P s' :
    reachable b0 s P →
    deallocate None s = Done (tt, s') →
    reachable b0 s' P.

(** The allocated blocks, in address order, and the bytes of a list of
    blocks. *)
Fixpoint used_blocks (bl : list blk) : list blk :=
  match bl with
  | [] => []
  | x :: r => if bfree x then used_blocks r else x :: used_blocks r
  end.

Definition blocks_bytes (bl : list blk) : Z := foldr (λ x acc, bsize x + acc) 0 bl.

(** What a header says about its block, the links left out. *)
Definition extent (h : BlockHeader) : Z * bool := (size h, is_free h).

(** A member function that leaves the address and the size of the pool
    alone, and one that leaves the whole allocator alone. *)
Definition keeps_pool {A} (m : M A) : Prop :=
  ∀ s a s', m s = Done (a, s') →
    m_memory_pool s' = m_memory_pool s ∧ m_pool_size s' = m_pool_size s.
Definition read_only {A} (m : M A) : Prop :=
  ∀ s a s', m s = Done (a, s') → s' = s.

Hypothesis header_pos : 0 < header_size.

(** ** Running the monad: one lemma per primitive *)

Lemma bind_Done {A B} (m : M A) (k : A → M B) s a s1 o :
  m s = Done (a, s1) → k a s1 = o → bind m k s = o.
Proof. intros Hm Hk. unfold bind. by rewrite Hm. Qed.

Lemma bind_rw {A B} (m : M A) (k : A → M B) s a s1 :
  m s = Done (a, s1) → bind m k s = k a s1.
Proof. intros Hm. unfold bind. by rewrite Hm. Qed.

Lemma lookup_upd a f (m : gmap Z BlockHeader) b :
  upd a f m !! b =
  if decide (a = b) then Some (f (default indeterminate (m !! a))) else m !! b.
Proof. unfold upd. by rewrite lookup_insert. Qed.

Lemma lookup_upd_ne a f (m : gmap Z BlockHeader) b :
  a ≠ b → upd a f m !! b = m !! b.
Proof. intros H. by rewrite lookup_upd, decide_False. Qed.

Lemma load_Done a s h : cells s !! a = Some h → load a s = Done (h, s).
Proof. intros H. unfold load. by rewrite H. Qed.

Lemma get_size_Done a s h : cells s !! a = Some h → get_size a s = Done (size h, s).
Proof. intros H. unfold get_size, bind. by rewrite (load_Done _ _ _ H). Qed.

Lemma get_is_free_Done a s h :
  cells s !! a = Some h → get_is_free a s = Done (is_free h, s).
Proof. intros H. unfold get_is_free, bind. by rewrite (load_Done _ _ _ H). Qed.

Lemma get_next_Done a s h : cells s !! a = Some h → get_next a s = Done (next h, s).
Proof. intros H. unfold get_next, bind. by rewrite (load_Done _ _ _ H). Qed.

Lemma get_prev_Done a s h : cells s !! a = Some h → get_prev a s = Done (prev h, s).
Proof. intros H. unfold get_prev, bind. by rewrite (load_Done _ _ _ H). Qed.

Lemma store_Done a f s :
  in_pool s a = true → store a f s = Done (tt, with_cells (upd a f (cells s)) s).
Proof. intros H. unfold store. by rewrite H. Qed.

Lemma set_size_Done a v s :
  in_pool s a = true →
  set_size a v s = Done (tt, with_cells (upd a (with_size v) (cells s)) s).
Proof. apply store_Done. Qed.

Lemma set_is_free_Done a v s :
  in_pool s a = true →
  set_is_free a v s = Done (tt, with_cells (upd a (with_is_free v) (cells s)) s).
Proof. apply store_Done. Qed.

Lemma set_next_Done a v s :
  in_pool s a = true →
  set_next a v s = Done (tt, with_cells (upd a (with_next v) (cells s)) s).
Proof. apply store_Done. Qed.

Lemma set_prev_Done a v s :
  in_pool s a = true →
  set_prev a v s = Done (tt, with_cells (upd a (with_prev v) (cells s)) s).
Proof. apply store_Done. Qed.

(** One statement of the source: run the primitive at the head of a bind. *)
Ltac mprim :=
  first
    [ apply get_size_Done | apply get_is_free_Done
    | apply get_next_Done | apply get_prev_Done
    | apply set_size_Done | apply set_is_free_Done
    | apply set_next_Done | apply set_prev_Done
    | reflexivity ].

Ltac mstep := eapply bind_Done; [ mprim; simpl; try done | simpl ].

Lemma removeFromFreeList_Done block s hb :
  cells s !! block = Some hb →
  prev hb ≠ Some block →
  in_pool_opt s (prev hb) → in_pool_opt s (next hb) →
  removeFromFreeList block s =
  Done (tt, mkAllocator (m_memory_pool s) (m_pool_size s)
              (match prev hb with Some _ => m_free_list_head s | None => next hb end)
              (unlink hb (cells s))).
Proof.
  intros Hb Hne Hp Hn. unfold removeFromFreeList, unlink.
  mstep. destruct (prev hb) as [p|] eqn:Epv; simpl in *.
  - eapply bind_Done; [mstep; by apply set_next_Done|].
    assert (upd p (with_next (next hb)) (cells s) !! block = Some hb) as Hb'.
    { rewrite lookup_upd_ne by congruence. done. }
    mstep. destruct (next hb) as [n|] eqn:Enx; simpl in *; [|done].
    mstep. rewrite Epv. by apply set_prev_Done.
  - eapply bind_Done; [mstep; reflexivity|].
    mstep. destruct (next hb) as [n|] eqn:Enx; simpl in *; [|done].
    mstep. rewrite Epv. by apply set_prev_Done.
Qed.

(** ** The blocks of the pool and the free list, as the invariant sees them *)

(** *** Tiling *)

Lemma contig_app a l1 l2 e :
  contig a (l1 ++ l2) e ↔ ∃ m, contig a l1 m ∧ contig m l2 e.
Proof.
  revert a. induction l1 as [|x l1 IH]; intros a; simpl.
  - split; [intros H; by exists a|intros (m & -> & H); done].
  - rewrite IH. split.
    + intros (? & ? & m & ? & ?). exists m. done.
    + intros (m & (? & ? & ?) & ?). repeat split; try done. by exists m.
Qed.

Lemma contig_le a l e : contig a l e → a ≤ e.
Proof.
  revert a. induction l as [|x l IH]; intros a; simpl; [lia|].
  intros (? & ? & H%IH). lia.
Qed.

Lemma contig_same a l : contig a l a → l = [].
Proof.
  destruct l as [|x l]; [done|]. simpl. intros (? & ? & H%contig_le). lia.
Qed.

Lemma contig_mid a l1 x l2 e :
  contig a (l1 ++ x :: l2) e ↔
  contig a l1 (baddr x) ∧ header_size ≤ bsize x ∧ contig (baddr x + bsize x) l2 e.
Proof.
  rewrite contig_app. simpl. split.
  - intros (m & ? & <- & ? & ?). done.
  - intros (? & ? & ?). by exists (baddr x).
Qed.

Lemma contig_elem a l e x :
  contig a l e → x ∈ l → a ≤ baddr x ∧ baddr x + bsize x ≤ e ∧ header_size ≤ bsize x.
Proof.
  intros Hc (l1 & l2 & ->)%list_elem_of_split.
  apply contig_mid in Hc as (H1%contig_le & ? & H2%contig_le). lia.
Qed.

(** Blocks of a tiling are identified by their address. *)
Lemma contig_addr_inj a l e x y :
  contig a l e → x ∈ l → y ∈ l → baddr x = baddr y → x = y.
Proof.
  intros Hc Hx Hy Heq.
  apply list_elem_of_split in Hx as (l1 & l2 & ->).
  apply contig_mid in Hc as (H1 & Hs & H2).
  apply elem_of_app in Hy as [Hy|Hy].
  - apply (contig_elem _ _ _ _ H1) in Hy. lia.
  - apply elem_of_cons in Hy as [->|Hy]; [done|].
    apply (contig_elem _ _ _ _ H2) in Hy. lia.
Qed.

(** The only block that ends where [x] starts is the one just before it. *)
Lemma contig_left_neighbour a l1 x l2 e y :
  contig a (l1 ++ x :: l2) e → y ∈ l1 ++ x :: l2 →
  baddr y + bsize y = baddr x → ∃ l1', l1 = l1' ++ [y].
Proof.
  intros Hc Hy Heq. pose proof Hc as Hc0.
  apply contig_mid in Hc as (H1 & Hs & H2).
  apply elem_of_app in Hy as [Hy|Hy].
  - apply list_elem_of_split in Hy as (k1 & k2 & ->).
    apply contig_mid in H1 as (_ & _ & H1). rewrite Heq in H1.
    apply contig_same in H1 as ->. by exists k1.
  - apply elem_of_cons in Hy as [->|Hy]; [lia|].
    apply (contig_elem _ _ _ _ H2) in Hy. lia.
Qed.

Lemma free_addrs_app l1 l2 : free_addrs (l1 ++ l2) = free_addrs l1 ++ free_addrs l2.
Proof.
  induction l1 as [|x l1 IH]; simpl; [done|]. rewrite IH. by destruct (bfree x).
Qed.

Lemma elem_of_free_addrs a bl : a ∈ free_addrs bl ↔ ∃ sz, Blk a sz true ∈ bl.
Proof.
  induction bl as [|[b sz f] bl IH]; simpl.
  - split; [by intros ?%elem_of_nil|]. by intros (? & ?%elem_of_nil).
  - destruct f.
    + rewrite elem_of_cons, IH. split.
      * intros [->|(sz' & ?)]; [exists sz; left|exists sz'; by right].
      * intros (sz' & [[= -> ->]|?]%elem_of_cons); [by left|right; by exists sz'].
    + rewrite IH. split.
      * intros (sz' & ?). exists sz'. by right.
      * intros (sz' & [[=]|?]%elem_of_cons). by exists sz'.
Qed.

Lemma free_addrs_bounds a bl e x :
  contig a bl e → x ∈ free_addrs bl → a ≤ x ∧ x < e.
Proof.
  intros Hc (sz & Hin)%elem_of_free_addrs.
  apply (contig_elem _ _ _ _ Hc) in Hin. simpl in Hin. lia.
Qed.

Lemma NoDup_free_addrs a bl e : contig a bl e → NoDup (free_addrs bl).
Proof.
  revert a. induction bl as [|x bl IH]; intros a; simpl; [constructor|].
  intros (<- & Hs & Hc). destruct (bfree x); [|by eapply IH].
  apply NoDup_cons. split; [|by eapply IH].
  intros Hin%(free_addrs_bounds _ _ _ _ Hc). lia.
Qed.

(** *** List surgery on the free list *)

Lemma app_eq_app_cons {A} (l1 l2 m1 m2 : list A) a :
  l1 ++ l2 = m1 ++ a :: m2 →
  (∃ k, l1 = m1 ++ a :: k ∧ m2 = k ++ l2) ∨ (∃ k, m1 = l1 ++ k ∧ l2 = k ++ a :: m2).
Proof.
  revert m1. induction l1 as [|x l1 IH]; intros m1 H; simpl in *.
  - right. by exists m1.
  - destruct m1 as [|y m1]; simpl in *.
    + injection H as -> <-. left. by exists l1.
    + injection H as -> H. apply IH in H as [(k & -> & ->)|(k & -> & ->)].
      * left. by exists k.
      * right. by exists k.
Qed.

Lemma NoDup_mid_inj {A} (l1 l2 m1 m2 : list A) a :
  NoDup (l1 ++ a :: l2) → l1 ++ a :: l2 = m1 ++ a :: m2 → l1 = m1 ∧ l2 = m2.
Proof.
  intros Hnd Heq. pose proof Heq as Heq0.
  apply NoDup_app in Hnd as (_ & Hd & [Ha _]%NoDup_cons).
  apply app_eq_app_cons in Heq as [(k & -> & Hk)|(k & -> & Hk)].
  - exfalso. apply (Hd a); [|left]. apply elem_of_app. right. left.
  - destruct k as [|y k]; simpl in *.
    + injection Hk as ->. by rewrite app_nil_r.
    + injection Hk as <- ->. exfalso. apply Ha. apply elem_of_app. right. left.
Qed.

Lemma dll_head L fl hd : dll L fl hd → hd = head fl.
Proof. by intros [? _]. Qed.

Lemma dll_links L l1 a l2 hd :
  dll L (l1 ++ a :: l2) hd → L a = Some (head l2, last l1).
Proof. intros [_ H]. by apply H. Qed.

(** Unlinking the element [c]. *)
Lemma dll_remove L L' l1 c l2 hd :
  dll L (l1 ++ c :: l2) hd → NoDup (l1 ++ c :: l2) →
  (∀ x nx pv, x ∈ l1 ++ l2 → L x = Some (nx, pv) →
     L' x = Some (if decide (last l1 = Some x) then head l2 else nx,
                  if decide (head l2 = Some x) then last l1 else pv)) →
  dll L' (l1 ++ l2) (head (l1 ++ l2)).
Proof.
  intros [_ HL] Hnd HL'. split; [done|]. intros m1 a m2 Heq.
  apply NoDup_app in Hnd as (Hn1 & Hd & [Hc Hn2]%NoDup_cons).
  apply app_eq_app_cons in Heq as [(k & -> & ->)|(k & -> & ->)].
  - rewrite (HL' a (head (k ++ c :: l2)) (last m1)).
    + f_equal. f_equal.
      * destruct k as [|y k]; simpl.
        { rewrite last_snoc. by rewrite decide_True. }
        rewrite decide_False; [done|]. rewrite last_app_cons, last_cons_cons.
        intros Hl%last_Some_elem_of.
        by apply NoDup_app in Hn1 as (_ & _ & [Ha _]%NoDup_cons).
      * rewrite decide_False; [done|]. intros Hh%head_Some_elem_of.
        apply (Hd a); [|by right]. apply elem_of_app. right. left.
    + apply elem_of_app. left. apply elem_of_app. right. left.
    + apply HL. by rewrite <- app_assoc.
  - rewrite (HL' a (head m2) (last (l1 ++ c :: k))).
    + f_equal. f_equal.
      * rewrite decide_False; [done|]. intros Hl%last_Some_elem_of.
        apply (Hd a); [done|]. right. apply elem_of_app. right. left.
      * destruct k as [|y k]; simpl.
        { rewrite decide_True by done. by rewrite app_nil_r. }
        rewrite decide_False.
        -- by rewrite !last_app_cons, last_cons_cons.
        -- intros [= ->]. apply NoDup_cons in Hn2 as [Ha _].
           apply Ha. apply elem_of_app. right. left.
    + apply elem_of_app. right. apply elem_of_app. right. left.
    + apply HL. rewrite <- app_assoc. done.
Qed.

(** Putting the fresh element [n] where [c] was. *)
Lemma dll_replace L L' l1 c n l2 hd :
  dll L (l1 ++ c :: l2) hd → NoDup (l1 ++ c :: l2) →
  L' n = Some (head l2, last l1) →
  (∀ x nx pv, x ∈ l1 ++ l2 → L x = Some (nx, pv) →
     L' x = Some (if decide (last l1 = Some x) then Some n else nx,
                  if decide (head l2 = Some x) then Some n else pv)) →
  dll L' (l1 ++ n :: l2) (head (l1 ++ n :: l2)).
Proof.
  intros [_ HL] Hnd Hn HL'. split; [done|]. intros m1 a m2 Heq.
  apply NoDup_app in Hnd as (Hn1 & Hd & [Hc Hn2]%NoDup_cons).
  apply app_eq_app_cons in Heq as [(k & -> & ->)|(k & -> & Hk)].
  - rewrite (HL' a (head (k ++ c :: l2)) (last m1)).
    + f_equal. f_equal.
      * destruct k as [|y k]; simpl.
        { rewrite last_snoc. by rewrite decide_True. }
        rewrite decide_False; [done|]. rewrite last_app_cons, last_cons_cons.
        intros Hl%last_Some_elem_of.
        by apply NoDup_app in Hn1 as (_ & _ & [Ha _]%NoDup_cons).
      * rewrite decide_False; [done|]. intros Hh%head_Some_elem_of.
        apply (Hd a); [|by right]. apply elem_of_app. right. left.
    + apply elem_of_app. left. apply elem_of_app. right. left.
    + apply HL. by rewrite <- app_assoc.
  - destruct k as [|y k]; simpl in Hk.
    { injection Hk as -> ->. by rewrite app_nil_r. }
    injection Hk as <- ->.
    rewrite (HL' a (head m2) (last (l1 ++ c :: k))).
    + f_equal. f_equal.
      * rewrite decide_False; [done|]. intros Hl%last_Some_elem_of.
        apply (Hd a); [done|]. right. apply elem_of_app. right. left.
      * destruct k as [|z k]; simpl.
        { rewrite decide_True by done. by rewrite last_snoc. }
        rewrite decide_False.
        -- by rewrite !last_app_cons, !last_cons_cons.
        -- intros [= ->]. apply NoDup_cons in Hn2 as [Ha _].
           apply Ha. apply elem_of_app. right. left.
    + apply elem_of_app. right. apply elem_of_app. right. left.
    + apply HL. rewrite <- app_assoc. done.
Qed.

(** Pushing the fresh element [b] at the front. *)
Lemma dll_push L L' b fl hd :
  dll L fl hd → NoDup fl →
  L' b = Some (head fl, None) →
  (∀ x nx pv, x ∈ fl → L x = Some (nx, pv) →
     L' x = Some (nx, if decide (head fl = Some x) then Some b else pv)) →
  dll L' (b :: fl) (Some b).
Proof.
  intros [_ HL] Hnd Hb HL'. split; [done|]. intros m1 a m2 Heq.
  destruct m1 as [|y m1]; simpl in Heq.
  { injection Heq as -> ->. done. }
  injection Heq as <- ->.
  rewrite (HL' a (head m2) (last m1)).
  - f_equal. f_equal. destruct m1 as [|z m1]; simpl.
    + by rewrite decide_True.
    + rewrite decide_False; [done|].
      intros [= ->]. apply NoDup_cons in Hnd as [Ha _].
      apply Ha. apply elem_of_app. right. left.
  - apply elem_of_app. right. left.
  - by apply HL.
Qed.

(** Writes that leave the links of the list elements alone. *)
Lemma dll_frame L L' fl hd :
  dll L fl hd → (∀ x, x ∈ fl → L' x = L x) → dll L' fl hd.
Proof.
  intros [Hh HL] HL'. split; [done|]. intros l1 a l2 ->.
  rewrite HL'; [by apply HL|]. apply elem_of_app. right. left.
Qed.

(** *** Adjacent free blocks *)

Lemma naf_app l1 x l2 :
  no_adjacent_free (l1 ++ x :: l2) =
  no_adjacent_free l1 && negb (last_free l1 && bfree x)
  && negb (bfree x && first_free l2) && no_adjacent_free l2.
Proof.
  induction l1 as [|y l1 IH]; simpl.
  - unfold last_free. simpl. done.
  - rewrite IH. unfold last_free. destruct l1 as [|z l1]; simpl.
    + by destruct (bfree y), (bfree x).
    + by rewrite !andb_assoc.
Qed.

Lemma last_free_snoc l x : last_free (l ++ [x]) = bfree x.
Proof. unfold last_free. by rewrite last_snoc. Qed.

(** *** Memory writes, cell by cell *)

Lemma lookup_upd_same a f (m : gmap Z BlockHeader) :
  upd a f m !! a = Some (f (default indeterminate (m !! a))).
Proof. rewrite lookup_upd. by rewrite decide_True. Qed.

Lemma lookup_upd_Some a f (m : gmap Z BlockHeader) x hx :
  m !! x = Some hx → upd a f m !! x = Some (if decide (a = x) then f hx else hx).
Proof. intros H. rewrite lookup_upd. case_decide; subst; by rewrite H. Qed.

Lemma lookup_upd_opt_Some p f (m : gmap Z BlockHeader) x hx :
  m !! x = Some hx →
  upd_opt p f m !! x = Some (if decide (p = Some x) then f hx else hx).
Proof.
  intros H. destruct p as [a|]; simpl.
  - rewrite (lookup_upd_Some _ _ _ _ _ H).
    destruct (decide (a = x)); [by rewrite decide_True by congruence|].
    by rewrite decide_False by congruence.
  - done.
Qed.

Lemma lookup_unlink hb (m : gmap Z BlockHeader) x hx :
  m !! x = Some hx →
  unlink hb m !! x =
  Some (mkBlockHeader (size hx) (is_free hx)
          (if decide (prev hb = Some x) then next hb else next hx)
          (if decide (next hb = Some x) then prev hb else prev hx)).
Proof.
  intros H. unfold unlink.
  rewrite (lookup_upd_opt_Some _ _ _ _ _ (lookup_upd_opt_Some _ _ _ _ _ H)).
  f_equal. destruct hx. by repeat case_decide.
Qed.

Lemma is_Some_upd a f (m : gmap Z BlockHeader) x :
  is_Some (upd a f m !! x) ↔ x = a ∨ is_Some (m !! x).
Proof.
  rewrite lookup_upd. case_decide; subst.
  - split; [by left|by eexists].
  - split; [by right|]. by intros [?|?].
Qed.

Lemma is_Some_upd_opt p f (m : gmap Z BlockHeader) x :
  is_Some (upd_opt p f m !! x) ↔ p = Some x ∨ is_Some (m !! x).
Proof.
  destruct p as [a|]; simpl.
  - rewrite is_Some_upd. split; intros [?|?]; try by right.
    + left. congruence.
    + left. congruence.
  - split; [by right|]. by intros [?|?].
Qed.

Lemma agrees_upd_other m a g x :
  baddr x ≠ a → agrees m x → agrees (upd a g m) x.
Proof.
  intros Hne (h & ? & ? & ?). exists h. by rewrite lookup_upd_ne.
Qed.

Lemma agrees_upd_keep m a g x :
  (∀ h, size (g h) = size h ∧ is_free (g h) = is_free h) →
  agrees m x → agrees (upd a g m) x.
Proof.
  intros Hg (h & Hh & ? & ?). unfold agrees.
  rewrite (lookup_upd_Some _ _ _ _ _ Hh). eexists. split; [done|].
  case_decide; [|done]. destruct (Hg h). split; congruence.
Qed.

Lemma agrees_upd_opt_keep m p g x :
  (∀ h, size (g h) = size h ∧ is_free (g h) = is_free h) →
  agrees m x → agrees (upd_opt p g m) x.
Proof. destruct p; simpl; [apply agrees_upd_keep|done]. Qed.

Lemma agrees_unlink hb m x : agrees m x → agrees (unlink hb m) x.
Proof. intros H. unfold unlink. by do 2 (apply agrees_upd_opt_keep; [done|]). Qed.

Lemma agrees_set_size m a sz f v :
  agrees m (Blk a sz f) → agrees (upd a (with_size v) m) (Blk a v f).
Proof.
  intros (h & Hh & ? & ?). unfold agrees. simpl in *.
  rewrite (lookup_upd_Some _ _ _ _ _ Hh), decide_True by done. by eexists.
Qed.

Lemma agrees_set_is_free m a sz f v :
  agrees m (Blk a sz f) → agrees (upd a (with_is_free v) m) (Blk a sz v).
Proof.
  intros (h & Hh & ? & ?). unfold agrees. simpl in *.
  rewrite (lookup_upd_Some _ _ _ _ _ Hh), decide_True by done. by eexists.
Qed.

(** *** Consequences of the invariant *)

Section Invariant.
Context {b0 : Z} {s : Allocator} {bl : list blk} {fl : list Z}.
Hypothesis Hwf : wf b0 s bl fl.

Lemma wf_block_cell x :
  x ∈ bl → ∃ h, cells s !! baddr x = Some h ∧ size h = bsize x ∧ is_free h = bfree x.
Proof.
  intros Hx. pose proof (wf_agrees _ _ _ _ Hwf) as Ha.
  rewrite Forall_forall in Ha. by apply Ha.
Qed.

Lemma wf_block_bounds x :
  x ∈ bl → b0 ≤ baddr x ∧ baddr x + bsize x ≤ b0 + m_pool_size s ∧ header_size ≤ bsize x.
Proof. apply contig_elem, Hwf. Qed.

Lemma wf_block_in_pool x : x ∈ bl → in_pool s (baddr x) = true.
Proof.
  intros Hx%wf_block_bounds. unfold in_pool. rewrite (wf_pool _ _ _ _ Hwf).
  apply andb_true_iff. split; [apply Z.leb_le|apply Z.leb_le]; lia.
Qed.

Lemma wf_free_block a :
  a ∈ fl → ∃ sz h, Blk a sz true ∈ bl ∧ cells s !! a = Some h ∧
                   size h = sz ∧ is_free h = true ∧ in_pool s a = true.
Proof.
  intros Ha. rewrite (wf_free _ _ _ _ Hwf) in Ha.
  apply elem_of_free_addrs in Ha as (sz & Hin).
  destruct (wf_block_cell _ Hin) as (h & ? & ? & ?).
  exists sz, h. repeat split; try done. by apply (wf_block_in_pool _ Hin).
Qed.

Lemma wf_nodup : NoDup fl.
Proof.
  rewrite (wf_free _ _ _ _ Hwf). eapply NoDup_free_addrs, Hwf.
Qed.

Lemma wf_free_links l1 c l2 hc :
  fl = l1 ++ c :: l2 → cells s !! c = Some hc →
  next hc = head l2 ∧ prev hc = last l1.
Proof.
  intros -> Hc. pose proof (dll_links _ _ _ _ _ (wf_dll _ _ _ _ Hwf)) as H.
  unfold links in H. rewrite Hc in H. simpl in H. by injection H.
Qed.

Lemma wf_in_pool_opt_head l : (∀ x, x ∈ l → x ∈ fl) → in_pool_opt s (head l).
Proof.
  intros Hl. destruct l as [|y l]; simpl; [done|].
  destruct (wf_free_block y) as (? & ? & ? & ? & ? & ? & ?); [|done].
  apply Hl. left.
Qed.

Lemma wf_in_pool_opt_last l : (∀ x, x ∈ l → x ∈ fl) → in_pool_opt s (last l).
Proof.
  intros Hl. destruct (last l) as [y|] eqn:E; simpl; [|done].
  destruct (wf_free_block y) as (? & ? & ? & ? & ? & ? & ?); [|done].
  by apply Hl, last_Some_elem_of.
Qed.

(** The free list is never longer than the number of headers in memory. *)
Lemma wf_fuel : (length fl ≤ base.size (cells s))%nat.
Proof.
  rewrite <- (size_list_to_set (C := gset Z) fl) by apply wf_nodup.
  rewrite <- size_dom. apply subseteq_size. intros a Ha.
  apply elem_of_list_to_set in Ha. apply elem_of_dom.
  destruct (wf_free_block a Ha) as (? & h & ? & ? & _). by exists h.
Qed.

End Invariant.

(** *** Handing out a whole free block *)

Lemma contig_others a B1 y B2 e x :
  contig a (B1 ++ y :: B2) e → x ∈ B1 ∨ x ∈ B2 → baddr x ≠ baddr y.
Proof.
  intros (H1 & Hs & H2)%contig_mid [Hx|Hx].
  - apply (contig_elem _ _ _ _ H1) in Hx. lia.
  - apply (contig_elem _ _ _ _ H2) in Hx. lia.
Qed.

Lemma links_of_cell m x nx pv :
  links m x = Some (nx, pv) ↔ ∃ hx, m !! x = Some hx ∧ next hx = nx ∧ prev hx = pv.
Proof.
  unfold links. destruct (m !! x) as [hx|]; simpl.
  - split; [intros [= <- <-]; by exists hx|]. by intros (? & [= <-] & <- & <-).
  - split; [done|]. by intros (? & ? & _).
Qed.

Lemma head_app_removed (l1 l2 : list Z) c hd nx :
  hd = head (l1 ++ c :: l2) → nx = head l2 →
  match last l1 with Some _ => hd | None => nx end = head (l1 ++ l2).
Proof.
  intros -> ->. destruct l1 as [|y l1]; simpl; [done|].
  destruct (last_is_Some (y :: l1)) as [_ [z ->]]; done.
Qed.

Lemma take_whole_wf b0 s B1 c csz B2 l1 l2 hc :
  wf b0 s (B1 ++ Blk c csz true :: B2) (l1 ++ c :: l2) →
  cells s !! c = Some hc →
  wf b0 (mkAllocator (m_memory_pool s) (m_pool_size s)
           (match prev hc with Some _ => m_free_list_head s | None => next hc end)
           (upd c (with_is_free false) (unlink hc (cells s))))
     (B1 ++ Blk c csz false :: B2) (l1 ++ l2).
Proof.
  intros Hwf Hc.
  destruct (wf_free_links Hwf l1 c l2 hc eq_refl Hc) as [Hnx Hpv].
  pose proof (wf_nodup Hwf) as Hnd.
  pose proof (wf_contig _ _ _ _ Hwf) as Hct.
  split; simpl.
  - apply Hwf.
  - apply Hwf.
  - apply contig_mid. by apply contig_mid in Hct.
  - pose proof (wf_agrees _ _ _ _ Hwf) as Ha.
    apply Forall_app in Ha as [Ha1 [Hac Ha2]%Forall_cons].
    apply Forall_app. split; [|apply Forall_cons; split].
    + rewrite Forall_forall in *. intros x Hx. apply agrees_upd_other.
      * apply (contig_others _ _ _ _ _ _ Hct). by left.
      * by apply agrees_unlink, Ha1.
    + by eapply agrees_set_is_free, agrees_unlink.
    + rewrite Forall_forall in *. intros x Hx. apply agrees_upd_other.
      * apply (contig_others _ _ _ _ _ _ Hct). by right.
      * by apply agrees_unlink, Ha2.
  - rewrite Hpv.
    rewrite (head_app_removed l1 l2 c _ _ (dll_head _ _ _ (wf_dll _ _ _ _ Hwf)) Hnx).
    eapply dll_remove; [apply Hwf|done|].
    intros x nx pv Hx (hx & Hcx & <- & <-)%links_of_cell.
    apply links_of_cell. eexists. split.
    + rewrite lookup_upd_ne.
      * by apply lookup_unlink.
      * intros <-. apply NoDup_app in Hnd as (_ & Hd & [Hn _]%NoDup_cons).
        apply elem_of_app in Hx as [Hx|Hx]; [|done].
        apply (Hd c Hx). left.
    + simpl. by rewrite Hpv, Hnx.
  - pose proof (wf_free _ _ _ _ Hwf) as Hp.
    rewrite free_addrs_app in *. simpl in *. by apply Permutation_app_inv in Hp.
  - pose proof (wf_naf _ _ _ _ Hwf) as Hn. rewrite naf_app in *. simpl in *.
    by destruct (no_adjacent_free B1), (last_free B1), (first_free B2),
      (no_adjacent_free B2).
  - intros a [->|Ha]%is_Some_upd.
    + apply (wf_block_in_pool Hwf (Blk c csz true)).
      apply elem_of_app. right. left.
    + unfold unlink in Ha.
      apply is_Some_upd_opt in Ha as [Ha|[Ha|Ha]%is_Some_upd_opt].
      * rewrite Hnx in Ha. apply head_Some_elem_of in Ha.
        destruct (wf_free_block Hwf a) as (? & ? & ? & ? & ? & ? & ?); [|done].
        apply elem_of_app. right. by right.
      * rewrite Hpv in Ha. apply last_Some_elem_of in Ha.
        destruct (wf_free_block Hwf a) as (? & ? & ? & ? & ? & ? & ?); [|done].
        apply elem_of_app. by left.
      * by apply (wf_cells _ _ _ _ Hwf).
Qed.

(** *** Splitting a free block *)

Lemma split_block_Done c total s hc :
  cells s !! c = Some hc →
  c + total ≠ c → prev hc ≠ Some c →
  in_pool s c = true → in_pool s (c + total) = true →
  in_pool_opt s (prev hc) → in_pool_opt s (next hc) →
  split_block c total s =
  Done (tt, mkAllocator (m_memory_pool s) (m_pool_size s)
              (match prev hc with
               | Some _ => m_free_list_head s
               | None => Some (c + total)
               end)
              (split_cells c total hc (cells s))).
Proof.
  intros Hc Hne Hpc Hic Hin Hip Hix. unfold split_block, split_cells.
  mstep. mstep. mstep. mstep.
  eapply bind_Done.
  { apply get_next_Done. simpl.
    rewrite lookup_upd_same, !lookup_upd_ne by done. by rewrite Hc. }
  simpl. mstep.
  eapply bind_Done.
  { apply get_prev_Done. simpl.
    rewrite lookup_upd_ne, lookup_upd_same, !lookup_upd_ne by done. by rewrite Hc. }
  simpl. mstep.
  eapply bind_Done.
  { apply get_prev_Done. simpl.
    rewrite !lookup_upd_ne, lookup_upd_same, !lookup_upd_ne by done. by rewrite Hc. }
  simpl.
  destruct (prev hc) as [p|] eqn:Epv; simpl in *.
  - mstep. eapply bind_Done.
    { apply get_next_Done. simpl.
      rewrite lookup_upd_ne by congruence.
      rewrite !lookup_upd_ne, lookup_upd_same, !lookup_upd_ne by done.
      by rewrite Hc. }
    simpl. destruct (next hc) as [n|] eqn:Enx; simpl in *; [|done].
    by apply set_prev_Done.
  - mstep. eapply bind_Done.
    { apply get_next_Done. simpl.
      rewrite !lookup_upd_ne, lookup_upd_same, !lookup_upd_ne by done.
      by rewrite Hc. }
    simpl. destruct (next hc) as [n|] eqn:Enx; simpl in *; [|done].
    by apply set_prev_Done.
Qed.

Lemma contig_inside a B1 y B2 e x z :
  contig a (B1 ++ y :: B2) e → x ∈ B1 ++ y :: B2 →
  baddr y < z < baddr y + bsize y → baddr x ≠ z.
Proof.
  intros (H1 & Hs & H2)%contig_mid Hx Hz.
  apply elem_of_app in Hx as [Hx|[->|Hx]%elem_of_cons].
  - apply (contig_elem _ _ _ _ H1) in Hx. lia.
  - lia.
  - apply (contig_elem _ _ _ _ H2) in Hx. lia.
Qed.

Lemma head_app_replaced (l1 l2 : list Z) c n hd :
  hd = head (l1 ++ c :: l2) →
  match last l1 with Some _ => hd | None => Some n end = head (l1 ++ n :: l2).
Proof.
  intros ->. destruct l1 as [|y l1]; simpl; [done|].
  destruct (last_is_Some (y :: l1)) as [_ [z ->]]; done.
Qed.

Lemma take_split_wf b0 s B1 c csz B2 l1 l2 hc total :
  wf b0 s (B1 ++ Blk c csz true :: B2) (l1 ++ c :: l2) →
  cells s !! c = Some hc →
  header_size ≤ total → total + header_size < csz →
  wf b0 (mkAllocator (m_memory_pool s) (m_pool_size s)
           (match prev hc with
            | Some _ => m_free_list_head s
            | None => Some (c + total)
            end)
           (upd c (with_is_free false) (split_cells c total hc (cells s))))
     (B1 ++ Blk c total false :: Blk (c + total) (csz - total) true :: B2)
     (l1 ++ (c + total) :: l2).
Proof.
  intros Hwf Hc Htot Hbig.
  destruct (wf_free_links Hwf l1 c l2 hc eq_refl Hc) as [Hnx Hpv].
  pose proof (wf_nodup Hwf) as Hnd.
  pose proof (wf_contig _ _ _ _ Hwf) as Hct.
  assert (Blk c csz true ∈ B1 ++ Blk c csz true :: B2) as Hcin.
  { apply elem_of_app. right. left. }
  destruct (wf_block_cell Hwf _ Hcin) as (hc' & Hc' & Hsz & _).
  simpl in Hc', Hsz. rewrite Hc in Hc'. injection Hc' as <-.
  pose proof (wf_block_bounds Hwf _ Hcin) as Hbd. simpl in Hbd.
  pose proof (wf_psize _ _ _ _ Hwf) as Hps.
  assert (wrap (size hc - total) = csz - total) as Hwrap.
  { unfold wrap. rewrite Hsz. apply Z.mod_small. lia. }
  assert (∀ x, x ∈ l1 ++ c :: l2 → x ≠ c + total) as Hfresh.
  { intros x Hx. rewrite (wf_free _ _ _ _ Hwf) in Hx.
    apply elem_of_free_addrs in Hx as (sz & Hx).
    apply (contig_inside _ _ _ _ _ _ (c + total) Hct Hx). simpl. lia. }
  assert (∀ x, x ∈ B1 ∨ x ∈ B2 → baddr x ≠ c ∧ baddr x ≠ c + total) as Hoth.
  { intros x Hx. split.
    - by apply (contig_others _ _ _ _ _ _ Hct).
    - apply (contig_inside _ _ _ _ _ _ (c + total) Hct); [|simpl; lia].
      rewrite elem_of_app, elem_of_cons. tauto. }
  assert (∀ x, agrees (cells s) x → baddr x ≠ c → baddr x ≠ c + total →
            agrees (upd c (with_is_free false)
                      (split_cells c total hc (cells s))) x) as Hframe.
  { intros x Hx H1 H2. unfold split_cells.
    apply agrees_upd_other; [done|].
    do 2 (apply agrees_upd_opt_keep; [done|]).
    by do 5 (apply agrees_upd_other; [done|]). }
  split; simpl.
  - apply Hwf.
  - apply Hwf.
  - apply contig_mid in Hct as (H1 & Hs & H2). simpl in *.
    apply contig_mid. simpl. repeat split; try done; try lia.
    by replace (c + total + (csz - total)) with (c + csz) by lia.
  - pose proof (wf_agrees _ _ _ _ Hwf) as Ha.
    apply Forall_app in Ha as [Ha1 [Hac Ha2]%Forall_cons].
    apply Forall_app. split; [|apply Forall_cons; split; [|apply Forall_cons; split]].
    + rewrite Forall_forall in *. intros x Hx.
      apply Hframe; [by apply Ha1|apply Hoth; by left..].
    + unfold split_cells. eapply agrees_set_is_free.
      do 2 (apply agrees_upd_opt_keep; [done|]).
      do 2 (apply agrees_upd_other; [simpl; lia|]).
      eapply agrees_set_size.
      do 2 (apply agrees_upd_other; [simpl; lia|]). done.
    + unfold split_cells. apply agrees_upd_other; [simpl; lia|].
      do 2 (apply agrees_upd_opt_keep; [done|]).
      do 2 (apply agrees_upd_keep; [done|]).
      apply agrees_upd_other; [simpl; lia|].
      unfold agrees. simpl. rewrite lookup_upd_same, lookup_upd_same.
      eexists. split; [done|]. simpl. done.
    + rewrite Forall_forall in *. intros x Hx.
      apply Hframe; [by apply Ha2|apply Hoth; by right..].
  - rewrite Hpv.
    rewrite (head_app_replaced l1 l2 c (c + total) _
               (dll_head _ _ _ (wf_dll _ _ _ _ Hwf))).
    eapply dll_replace; [apply Hwf|done|..].
    + apply links_of_cell. unfold split_cells.
      assert (next hc ≠ Some (c + total)) as Hn1.
      { rewrite Hnx. intros Hh%head_Some_elem_of.
        apply (Hfresh (c + total)); [|done]. apply elem_of_app. right. by right. }
      assert (prev hc ≠ Some (c + total)) as Hn2.
      { rewrite Hpv. intros Hh%last_Some_elem_of.
        apply (Hfresh (c + total)); [|done]. apply elem_of_app. by left. }
      eexists. split.
      * rewrite lookup_upd_ne by lia.
        erewrite lookup_upd_opt_Some;
          [|erewrite lookup_upd_opt_Some; [done|by rewrite lookup_upd_same]].
        rewrite !decide_False by done. done.
      * simpl. rewrite lookup_upd_same. simpl. by rewrite Hnx, Hpv.
    + intros x nx pv Hx (hx & Hcx & <- & <-)%links_of_cell.
      assert (x ≠ c) as Hxc.
      { intros ->. apply NoDup_app in Hnd as (_ & Hd & [Hn _]%NoDup_cons).
        apply elem_of_app in Hx as [Hx|Hx]; [|done]. apply (Hd c Hx). left. }
      assert (x ≠ c + total) as Hxn.
      { apply Hfresh. rewrite elem_of_app, elem_of_cons.
        apply elem_of_app in Hx. tauto. }
      apply links_of_cell. unfold split_cells. eexists. split.
      * rewrite lookup_upd_ne by done.
        erewrite lookup_upd_opt_Some;
          [|erewrite lookup_upd_opt_Some; [done|by rewrite !lookup_upd_ne]].
        done.
      * rewrite Hpv, Hnx. by repeat case_decide.
  - pose proof (wf_free _ _ _ _ Hwf) as Hp.
    rewrite free_addrs_app in *. simpl in *.
    apply Permutation_app_inv in Hp. by apply Permutation_elt.
  - pose proof (wf_naf _ _ _ _ Hwf) as Hn. rewrite naf_app in *. simpl in *.
    by destruct (no_adjacent_free B1), (last_free B1), (first_free B2),
      (no_adjacent_free B2).
  - assert (in_pool s (c + total) = true) as Hin.
    { unfold in_pool. rewrite (wf_pool _ _ _ _ Hwf).
      apply andb_true_iff. split; apply Z.leb_le; lia. }
    unfold split_cells.
    intros a Ha. repeat (apply is_Some_upd in Ha as [->|Ha]; [try done|]);
      try by apply (wf_block_in_pool Hwf _ Hcin).
    apply is_Some_upd_opt in Ha as [Ha|Ha].
    { rewrite Hnx in Ha. apply head_Some_elem_of in Ha.
      destruct (wf_free_block Hwf a) as (? & ? & ? & ? & ? & ? & ?); [|done].
      apply elem_of_app. right. by right. }
    apply is_Some_upd_opt in Ha as [Ha|Ha].
    { rewrite Hpv in Ha. apply last_Some_elem_of in Ha.
      destruct (wf_free_block Hwf a) as (? & ? & ? & ? & ? & ? & ?); [|done].
      apply elem_of_app. by left. }
    repeat (apply is_Some_upd in Ha as [->|Ha]; [try done|]);
      try by apply (wf_block_in_pool Hwf _ Hcin).
    by apply (wf_cells _ _ _ _ Hwf).
Qed.

Lemma allocate_loop_spec b0 s bl fl total todo : ∀ dn fuel,
  wf b0 s bl fl → fl = dn ++ todo →
  (∀ x, x ∈ dn → ∃ h, cells s !! x = Some h ∧ size h < total) →
  (length todo < fuel)%nat →
  header_size ≤ total →
  ∃ r s', allocate_loop fuel total (head todo) s = Done (r, s') ∧
          alloc_post b0 total s bl fl r s'.
Proof.
  induction todo as [|c todo IH]; intros dn fuel Hwf Hfl Hdn Hfuel Htot;
    (destruct fuel as [|fuel]; [simpl in Hfuel; lia|]); simpl.
  { exists None, s. split; [done|]. constructor. intros x Hx. apply Hdn.
    by rewrite Hfl, app_nil_r in Hx. }
  assert (c ∈ fl) as Hcfl. { rewrite Hfl. apply elem_of_app. right. left. }
  destruct (wf_free_block Hwf c Hcfl) as (csz & hc & Hbin & Hc & Hsz & _ & Hic).
  destruct (wf_free_links Hwf dn c todo hc Hfl Hc) as [Hnx Hpv].
  pose proof (wf_nodup Hwf) as Hnd. rewrite Hfl in Hnd.
  pose proof (wf_block_bounds Hwf _ Hbin) as Hbd. simpl in Hbd.
  pose proof (wf_pool _ _ _ _ Hwf) as Hpool.
  assert (prev hc ≠ Some c) as Hpc.
  { rewrite Hpv. intros Hl%last_Some_elem_of.
    apply NoDup_app in Hnd as (_ & Hd & _). apply (Hd c Hl). left. }
  assert (in_pool_opt s (prev hc)) as Hip.
  { rewrite Hpv. apply (wf_in_pool_opt_last Hwf). intros x Hx.
    rewrite Hfl. apply elem_of_app. by left. }
  assert (in_pool_opt s (next hc)) as Hin.
  { rewrite Hnx. apply (wf_in_pool_opt_head Hwf). intros x Hx.
    rewrite Hfl. apply elem_of_app. right. by right. }
  apply list_elem_of_split in Hbin as (B1 & B2 & Hbl).
  pose proof (wf_psize _ _ _ _ Hwf) as Hps.
  destruct (total <=? csz) eqn:Efit.
  - assert (wrap (total + header_size) = total + header_size) as Hwrap.
    { unfold wrap. apply Z.mod_small. apply Z.leb_le in Efit. lia. }
    destruct (total + header_size <? csz) eqn:Esp.
    + pose proof Efit as Efit'. apply Z.leb_le in Efit'.
      pose proof Esp as Esp'. apply Z.ltb_lt in Esp'.
      eexists _, _. split.
      * mstep. rewrite Hsz, Efit.
        mstep. rewrite Hsz, Hwrap, Esp.
        eapply bind_Done.
        { apply split_block_Done; try done; [lia|].
          unfold in_pool. rewrite Hpool. apply andb_true_iff.
          split; apply Z.leb_le; lia. }
        mstep. done.
      * eapply (alloc_split _ _ _ _ _ dn c csz todo B1 B2 hc); try done.
        unfold with_cells; simpl.
        apply take_split_wf; try done. by rewrite <- Hbl, <- Hfl.
    + pose proof Efit as Efit'. apply Z.leb_le in Efit'.
      pose proof Esp as Esp'. apply Z.ltb_ge in Esp'.
      eexists _, _. split.
      * mstep. rewrite Hsz, Efit.
        mstep. rewrite Hsz, Hwrap, Esp.
        eapply bind_Done; [by apply removeFromFreeList_Done|].
        mstep. done.
      * eapply (alloc_whole _ _ _ _ _ dn c csz todo B1 B2 hc); try done.
        unfold with_cells; simpl.
        apply take_whole_wf; try done. by rewrite <- Hbl, <- Hfl.
  - destruct (IH (dn ++ [c]) fuel) as (r & s' & Hrun & Hpost); try done.
    + by rewrite <- app_assoc.
    + intros x [Hx|Hx%list_elem_of_singleton]%elem_of_app; [by apply Hdn|].
      subst x. exists hc. split; [done|]. apply Z.leb_gt in Efit. lia.
    + simpl in Hfuel. lia.
    + exists r, s'. split; [|done].
      mstep. rewrite Hsz, Efit. mstep. by rewrite Hnx.
Qed.

Lemma allocate_spec b0 s bl fl n :
  wf b0 s bl fl → 0 < n → n + header_size < wmod →
  ∃ r s', allocate n s = Done (r, s') ∧
          alloc_post b0 (n + header_size) s bl fl r s'.
Proof.
  intros Hwf Hn Hovf. unfold allocate.
  destruct (n =? 0) eqn:E; [apply Z.eqb_eq in E; lia|].
  unfold wrap. rewrite Z.mod_small by lia.
  pose proof (wf_psize _ _ _ _ Hwf) as Hps.
  pose proof (contig_le _ _ _ (wf_contig _ _ _ _ Hwf)) as Hle.
  destruct (allocate_loop_spec b0 s bl fl (n + header_size) fl []
              (S (base.size (cells s))) Hwf eq_refl) as (r & s' & Hrun & Hpost).
  - by intros x ?%elem_of_nil.
  - pose proof (wf_fuel Hwf). lia.
  - lia.
  - exists r, s'. split; [|done].
    mstep. mstep. by rewrite (dll_head _ _ _ (wf_dll _ _ _ _ Hwf)).
Qed.

(** *** Returning a block: the three steps of deallocate *)

Lemma wf_used_not_free b0 s bl fl b sz :
  wf b0 s bl fl → Blk b sz false ∈ bl → b ∉ fl.
Proof.
  intros Hwf Hin Hfl. rewrite (wf_free _ _ _ _ Hwf) in Hfl.
  apply elem_of_free_addrs in Hfl as (sz' & Hin').
  by pose proof (contig_addr_inj _ _ _ _ _ (wf_contig _ _ _ _ Hwf) Hin Hin' eq_refl).
Qed.

(** Step 1 found the right neighbour free: the freed block absorbs it. *)
Lemma right_merge_wf b0 s B1 b sz r rsz B2 k1 k2 hr :
  wf b0 s (B1 ++ Blk b sz false :: Blk r rsz true :: B2) (k1 ++ r :: k2) →
  cells s !! r = Some hr →
  wf b0 (mkAllocator (m_memory_pool s) (m_pool_size s)
           (match prev hr with Some _ => m_free_list_head s | None => next hr end)
           (unlink hr (upd b (with_size (sz + rsz)) (cells s))))
     (B1 ++ Blk b (sz + rsz) false :: B2) (k1 ++ k2).
Proof.
  intros Hwf Hr.
  destruct (wf_free_links Hwf k1 r k2 hr eq_refl Hr) as [Hnx Hpv].
  pose proof (wf_nodup Hwf) as Hnd.
  pose proof (wf_contig _ _ _ _ Hwf) as Hct.
  assert (Blk b sz false ∈ B1 ++ Blk b sz false :: Blk r rsz true :: B2) as Hbin.
  { apply elem_of_app. right. left. }
  pose proof (wf_used_not_free _ _ _ _ _ _ Hwf Hbin) as Hbfl.
  split; simpl.
  - apply Hwf.
  - apply Hwf.
  - apply contig_mid in Hct as (H1 & Hs & H2 & Hs' & H3). simpl in *.
    apply contig_mid. simpl. repeat split; try done; try lia.
    by rewrite Z.add_assoc.
  - pose proof (wf_agrees _ _ _ _ Hwf) as Ha.
    apply Forall_app in Ha as [Ha1 [Hab [Har Ha2]%Forall_cons]%Forall_cons].
    apply Forall_app. split; [|apply Forall_cons; split].
    + rewrite Forall_forall in *. intros x Hx. apply agrees_unlink.
      apply agrees_upd_other; [|by apply Ha1].
      apply (contig_others _ _ _ _ _ _ Hct). by left.
    + by eapply agrees_unlink, agrees_set_size.
    + rewrite Forall_forall in *. intros x Hx. apply agrees_unlink.
      apply agrees_upd_other; [|by apply Ha2].
      apply (contig_others _ _ _ _ _ _ Hct). right. by right.
  - rewrite Hpv.
    rewrite (head_app_removed k1 k2 r _ _ (dll_head _ _ _ (wf_dll _ _ _ _ Hwf)) Hnx).
    eapply dll_remove; [apply Hwf|done|].
    intros x nx pv Hx (hx & Hcx & <- & <-)%links_of_cell.
    apply links_of_cell. eexists. split.
    + apply lookup_unlink. rewrite lookup_upd_ne; [done|].
      intros <-. apply Hbfl. rewrite elem_of_app, elem_of_cons.
      apply elem_of_app in Hx. tauto.
    + simpl. by rewrite Hpv, Hnx.
  - pose proof (wf_free _ _ _ _ Hwf) as Hp.
    rewrite free_addrs_app in *. simpl in *. by apply Permutation_app_inv in Hp.
  - pose proof (wf_naf _ _ _ _ Hwf) as Hn. rewrite naf_app in *. simpl in *.
    by destruct (no_adjacent_free B1), (last_free B1), (first_free B2),
      (no_adjacent_free B2).
  - intros a Ha. unfold unlink in Ha.
    apply is_Some_upd_opt in Ha as [Ha|[Ha|Ha]%is_Some_upd_opt].
    + rewrite Hnx in Ha. apply head_Some_elem_of in Ha.
      destruct (wf_free_block Hwf a) as (? & ? & ? & ? & ? & ? & ?); [|done].
      apply elem_of_app. right. by right.
    + rewrite Hpv in Ha. apply last_Some_elem_of in Ha.
      destruct (wf_free_block Hwf a) as (? & ? & ? & ? & ? & ? & ?); [|done].
      apply elem_of_app. by left.
    + apply is_Some_upd in Ha as [->|Ha].
      * apply (wf_block_in_pool Hwf _ Hbin).
      * by apply (wf_cells _ _ _ _ Hwf).
Qed.

(** Step 2 found a free block ending where the freed block starts. *)
Lemma left_merge_wf b0 s B1 l lsz b sz B2 fl :
  wf b0 s (B1 ++ Blk l lsz true :: Blk b sz false :: B2) fl →
  first_free B2 = false →
  wf b0 (with_cells (upd l (with_size (lsz + sz)) (cells s)) s)
     (B1 ++ Blk l (lsz + sz) true :: B2) fl.
Proof.
  intros Hwf Hff.
  pose proof (wf_contig _ _ _ _ Hwf) as Hct.
  assert (Blk l lsz true ∈ B1 ++ Blk l lsz true :: Blk b sz false :: B2) as Hlin.
  { apply elem_of_app. right. left. }
  destruct (wf_block_cell Hwf _ Hlin) as (hl & Hl & _). simpl in Hl.
  split; simpl.
  - apply Hwf.
  - apply Hwf.
  - apply contig_mid in Hct as (H1 & Hs & H2 & Hs' & H3). simpl in *.
    apply contig_mid. simpl. repeat split; try done; try lia.
    by rewrite Z.add_assoc.
  - pose proof (wf_agrees _ _ _ _ Hwf) as Ha.
    apply Forall_app in Ha as [Ha1 [Hal [Hab Ha2]%Forall_cons]%Forall_cons].
    apply Forall_app. split; [|apply Forall_cons; split].
    + rewrite Forall_forall in *. intros x Hx.
      apply agrees_upd_other; [|by apply Ha1].
      apply (contig_others _ _ _ _ _ _ Hct). by left.
    + by eapply agrees_set_size.
    + rewrite Forall_forall in *. intros x Hx.
      apply agrees_upd_other; [|by apply Ha2].
      apply (contig_others _ _ _ _ _ _ Hct). right. by right.
  - eapply dll_frame; [apply Hwf|]. intros x Hx. unfold links.
    rewrite lookup_upd. case_decide; [|done]. subst x. by rewrite Hl.
  - pose proof (wf_free _ _ _ _ Hwf) as Hp.
    rewrite free_addrs_app in *. by simpl in *.
  - pose proof (wf_naf _ _ _ _ Hwf) as Hn. rewrite naf_app in *. simpl in *.
    rewrite Hff.
    by destruct (no_adjacent_free B1), (last_free B1), (no_adjacent_free B2).
  - intros a [->|Ha]%is_Some_upd.
    + apply (wf_block_in_pool Hwf _ Hlin).
    + by apply (wf_cells _ _ _ _ Hwf).
Qed.

Lemma addToFreeList_Done b s :
  in_pool s b = true → in_pool_opt s (m_free_list_head s) →
  addToFreeList b s =
  Done (tt, mkAllocator (m_memory_pool s) (m_pool_size s) (Some b)
              (pushed_cells b (m_free_list_head s) (cells s))).
Proof.
  intros Hb Hhd. unfold addToFreeList, pushed_cells.
  mstep. mstep. mstep. mstep. mstep.
  destruct (m_free_list_head s) as [h|]; simpl in *.
  - mstep. done.
  - mstep. done.
Qed.

(** Step 3: no left neighbour was free, the block goes to the head of the list. *)
Lemma push_wf b0 s B1 b sz B2 fl :
  wf b0 s (B1 ++ Blk b sz false :: B2) fl →
  last_free B1 = false → first_free B2 = false →
  wf b0 (mkAllocator (m_memory_pool s) (m_pool_size s) (Some b)
           (pushed_cells b (m_free_list_head s) (cells s)))
     (B1 ++ Blk b sz true :: B2) (b :: fl).
Proof.
  intros Hwf Hlf Hff.
  pose proof (wf_nodup Hwf) as Hnd.
  pose proof (wf_contig _ _ _ _ Hwf) as Hct.
  pose proof (dll_head _ _ _ (wf_dll _ _ _ _ Hwf)) as Hhd.
  assert (Blk b sz false ∈ B1 ++ Blk b sz false :: B2) as Hbin.
  { apply elem_of_app. right. left. }
  pose proof (wf_used_not_free _ _ _ _ _ _ Hwf Hbin) as Hbfl.
  split; simpl.
  - apply Hwf.
  - apply Hwf.
  - apply contig_mid. by apply contig_mid in Hct.
  - pose proof (wf_agrees _ _ _ _ Hwf) as Ha.
    apply Forall_app in Ha as [Ha1 [Hab Ha2]%Forall_cons].
    unfold pushed_cells.
    apply Forall_app. split; [|apply Forall_cons; split].
    + rewrite Forall_forall in *. intros x Hx.
      apply agrees_upd_opt_keep; [done|].
      do 2 (apply agrees_upd_keep; [done|]).
      apply agrees_upd_other; [|by apply Ha1].
      apply (contig_others _ _ _ _ _ _ Hct). by left.
    + apply agrees_upd_opt_keep; [done|].
      do 2 (apply agrees_upd_keep; [done|]). by eapply agrees_set_is_free.
    + rewrite Forall_forall in *. intros x Hx.
      apply agrees_upd_opt_keep; [done|].
      apply agrees_upd_keep; [done|]. apply agrees_upd_keep; [done|].
      apply agrees_upd_other; [|by apply Ha2].
      apply (contig_others _ _ _ _ _ _ Hct). by right.
  - eapply dll_push; [apply Hwf|done|..].
    + apply links_of_cell. unfold pushed_cells. eexists. split.
      * erewrite lookup_upd_opt_Some; [|by rewrite lookup_upd_same].
        rewrite decide_False; [done|].
        rewrite Hhd. by intros ?%head_Some_elem_of.
      * simpl. rewrite lookup_upd_same. simpl. done.
    + intros x nx pv Hx (hx & Hcx & <- & <-)%links_of_cell.
      assert (b ≠ x) as Hne by (by intros <-).
      apply links_of_cell. unfold pushed_cells. eexists. split.
      * erewrite lookup_upd_opt_Some; [done|]. by rewrite !lookup_upd_ne.
      * rewrite <- Hhd. by case_decide.
  - pose proof (wf_free _ _ _ _ Hwf) as Hp.
    rewrite free_addrs_app in *. simpl in *. by apply Permutation_cons_app.
  - pose proof (wf_naf _ _ _ _ Hwf) as Hn. rewrite naf_app in *. simpl in *.
    rewrite Hlf, Hff. rewrite Hlf in Hn.
    by destruct (no_adjacent_free B1), (no_adjacent_free B2).
  - unfold pushed_cells. intros a Ha.
    apply is_Some_upd_opt in Ha as [Ha|Ha].
    { rewrite Hhd in Ha. apply head_Some_elem_of in Ha.
      by destruct (wf_free_block Hwf a) as (? & ? & ? & ? & ? & ? & ?). }
    repeat (apply is_Some_upd in Ha as [->|Ha];
            [by apply (wf_block_in_pool Hwf _ Hbin)|]).
    by apply (wf_cells _ _ _ _ Hwf).
Qed.

Lemma coalesce_right_spec b0 s B1 b sz B2 fl :
  wf b0 s (B1 ++ Blk b sz false :: B2) fl →
  ∃ s1 sz1 B2' fl1,
    coalesce_right b s = Done (tt, s1) ∧
    wf b0 s1 (B1 ++ Blk b sz1 false :: B2') fl1 ∧ first_free B2' = false ∧
    ((s1 = s ∧ sz1 = sz ∧ B2' = B2 ∧ fl1 = fl) ∨
     (∃ rsz k1 k2, B2 = Blk (b + sz) rsz true :: B2' ∧ sz1 = sz + rsz ∧
                   fl = k1 ++ (b + sz) :: k2 ∧ fl1 = k1 ++ k2)).
Proof.
  intros Hwf.
  assert (Blk b sz false ∈ B1 ++ Blk b sz false :: B2) as Hbin.
  { apply elem_of_app. right. left. }
  destruct (wf_block_cell Hwf _ Hbin) as (hb & Hb & Hsz & _). simpl in Hb, Hsz.
  pose proof (wf_block_in_pool Hwf _ Hbin) as Hbp. simpl in Hbp.
  pose proof (wf_block_bounds Hwf _ Hbin) as Hbb. simpl in Hbb.
  pose proof (wf_pool _ _ _ _ Hwf) as Hpool.
  pose proof (wf_psize _ _ _ _ Hwf) as Hps.
  pose proof (wf_contig _ _ _ _ Hwf) as Hct.
  apply contig_mid in Hct as (_ & _ & Hc2). simpl in Hc2.
  assert (pool_end s = Done (b0 + m_pool_size s, s)) as Hpe.
  { unfold pool_end. by rewrite Hpool. }
  destruct B2 as [|[r rsz rf] B2'].
  { simpl in Hc2. exists s, sz, [], fl. split; [|split; [done|split; [done|by left]]].
    unfold coalesce_right. mstep. rewrite Hsz.
    eapply bind_Done; [apply Hpe|].
    rewrite Hc2, Z.ltb_irrefl. done. }
  simpl in Hc2. destruct Hc2 as (Hr & Hrs & Hc3). subst r.
  pose proof (contig_le _ _ _ Hc3) as Hle.
  assert (Blk (b + sz) rsz rf ∈ B1 ++ Blk b sz false :: Blk (b + sz) rsz rf :: B2')
    as Hrin.
  { apply elem_of_app. right. right. left. }
  destruct (wf_block_cell Hwf _ Hrin) as (hr & Hr & Hrsz & Hrf). simpl in Hr, Hrsz, Hrf.
  assert ((b + sz <? b0 + m_pool_size s) = true) as Hlt by (apply Z.ltb_lt; lia).
  destruct rf.
  2:{ exists s, sz, (Blk (b + sz) rsz false :: B2'), fl.
      split; [|split; [done|split; [done|by left]]].
      unfold coalesce_right. mstep. rewrite Hsz.
      eapply bind_Done; [apply Hpe|]. rewrite Hlt.
      mstep. by rewrite Hrf. }
  assert (b + sz ∈ fl) as Hrfl.
  { rewrite (wf_free _ _ _ _ Hwf). apply elem_of_free_addrs. by exists rsz. }
  apply list_elem_of_split in Hrfl as (k1 & k2 & ->).
  destruct (wf_free_links Hwf k1 (b + sz) k2 hr eq_refl Hr) as [Hnx Hpv].
  pose proof (wf_nodup Hwf) as Hnd.
  assert (wrap (sz + rsz) = sz + rsz) as Hwrap.
  { unfold wrap. apply Z.mod_small. lia. }
  eexists _, (sz + rsz), B2', (k1 ++ k2). split; [|split; [|split]].
  - unfold coalesce_right. mstep. rewrite Hsz.
    eapply bind_Done; [apply Hpe|]. rewrite Hlt.
    mstep. rewrite Hrf. mstep. mstep. rewrite Hsz, Hrsz, Hwrap. mstep.
    apply (removeFromFreeList_Done _ _ hr); simpl.
    + rewrite lookup_upd_ne by lia. done.
    + rewrite Hpv. intros Hl%last_Some_elem_of.
      apply NoDup_app in Hnd as (_ & Hd & _). apply (Hd _ Hl). left.
    + rewrite Hpv. apply (wf_in_pool_opt_last Hwf). intros x Hx.
      apply elem_of_app. by left.
    + rewrite Hnx. apply (wf_in_pool_opt_head Hwf). intros x Hx.
      apply elem_of_app. right. by right.
  - by apply (right_merge_wf b0 s B1 b sz (b + sz) rsz B2' k1 k2 hr).
  - pose proof (wf_naf _ _ _ _ Hwf) as Hn. rewrite naf_app in Hn. simpl in Hn.
    by destruct (first_free B2'); rewrite ?andb_false_r in Hn.
  - right. by exists rsz, k1, k2.
Qed.

Lemma coalesce_left_spec b0 s B1 b sz B2 fl todo : ∀ dn fuel,
  wf b0 s (B1 ++ Blk b sz false :: B2) fl → fl = dn ++ todo →
  (∀ x, x ∈ dn → ∃ h, cells s !! x = Some h ∧ x + size h ≠ b) →
  (length todo < fuel)%nat →
  (∃ B1' l lsz, B1 = B1' ++ [Blk l lsz true] ∧
     coalesce_left fuel b (head todo) s =
     Done (true, with_cells (upd l (with_size (lsz + sz)) (cells s)) s)) ∨
  (last_free B1 = false ∧ coalesce_left fuel b (head todo) s = Done (false, s)).
Proof.
  induction todo as [|c todo IH]; intros dn fuel Hwf Hfl Hdn Hfuel;
    (destruct fuel as [|fuel]; [simpl in Hfuel; lia|]); simpl.
  { right. split; [|done]. unfold last_free.
    destruct (last B1) as [y|] eqn:El; [|done].
    destruct (bfree y) eqn:Ef; [|done]. exfalso.
    apply last_Some in El as (B1' & ->).
    pose proof (wf_contig _ _ _ _ Hwf) as Hct.
    rewrite <- app_assoc in Hct. simpl in Hct.
    apply contig_mid in Hct as (_ & _ & Hct). simpl in Hct.
    destruct Hct as (Heq & _).
    assert (y ∈ (B1' ++ [y]) ++ Blk b sz false :: B2) as Hyin.
    { apply elem_of_app. left. apply elem_of_app. right. left. }
    destruct (wf_block_cell Hwf _ Hyin) as (hy & Hy & Hysz & _).
    destruct (Hdn (baddr y)) as (h & Hh & Hne).
    - rewrite app_nil_r in Hfl. rewrite <- Hfl, (wf_free _ _ _ _ Hwf).
      apply elem_of_free_addrs. exists (bsize y). by destruct y; simpl in *; subst.
    - rewrite Hy in Hh. injection Hh as <-. lia. }
  assert (c ∈ fl) as Hcfl. { rewrite Hfl. apply elem_of_app. right. left. }
  destruct (wf_free_block Hwf c Hcfl) as (csz & hc & Hbin & Hc & Hsz & _ & Hic).
  destruct (wf_free_links Hwf dn c todo hc Hfl Hc) as [Hnx Hpv].
  pose proof (wf_psize _ _ _ _ Hwf) as Hps.
  assert (Blk b sz false ∈ B1 ++ Blk b sz false :: B2) as Hbin'.
  { apply elem_of_app. right. left. }
  destruct (wf_block_cell Hwf _ Hbin') as (hb & Hb & Hbsz & _). simpl in Hb, Hbsz.
  destruct (c + csz =? b) eqn:Eq.
  - left. apply Z.eqb_eq in Eq.
    destruct (contig_left_neighbour _ _ _ _ _ _ (wf_contig _ _ _ _ Hwf) Hbin Eq)
      as (B1' & ->).
    exists B1', c, csz. split; [done|].
    pose proof (wf_block_bounds Hwf _ Hbin) as Hb1.
    pose proof (wf_block_bounds Hwf _ Hbin') as Hb2. simpl in Hb1, Hb2.
    assert (wrap (csz + sz) = csz + sz) as Hwrap.
    { unfold wrap. apply Z.mod_small. lia. }
    mstep. rewrite Hsz. apply Z.eqb_eq in Eq. rewrite Eq.
    mstep. mstep. rewrite Hsz, Hbsz, Hwrap. mstep. done.
  - destruct (IH (dn ++ [c]) fuel) as [(B1' & l & lsz & -> & Hrun)|[Hlf Hrun]];
      try done.
    + by rewrite <- app_assoc.
    + intros x [Hx|Hx%list_elem_of_singleton]%elem_of_app; [by apply Hdn|].
      subst x. exists hc. split; [done|]. apply Z.eqb_neq in Eq. lia.
    + simpl in Hfuel. lia.
    + left. exists B1', l, lsz. split; [done|].
      mstep. rewrite Hsz, Eq. mstep. by rewrite Hnx.
    + right. split; [done|].
      mstep. rewrite Hsz, Eq. mstep. by rewrite Hnx.
Qed.

Lemma deallocate_spec b0 s bl fl b sz :
  wf b0 s bl fl → Blk b sz false ∈ bl →
  ∃ s' bl' fl',
    deallocate (Some (b + header_size)) s = Done (tt, s') ∧
    wf b0 s' bl' fl' ∧ dealloc_post bl fl b bl' fl'.
Proof.
  intros Hwf (B1 & B2 & ->)%list_elem_of_split.
  destruct (coalesce_right_spec _ _ _ _ _ _ _ Hwf)
    as (s1 & sz1 & B2' & fl1 & Hrun1 & Hwf1 & Hff & Hcase).
  assert (Blk b sz1 false ∈ B1 ++ Blk b sz1 false :: B2') as Hbin.
  { apply elem_of_app. right. left. }
  pose proof (wf_fuel Hwf1) as Hfuel.
  pose proof (dll_head _ _ _ (wf_dll _ _ _ _ Hwf1)) as Hhd.
  destruct (coalesce_left_spec b0 s1 B1 b sz1 B2' fl1 fl1 [] (S (base.size (cells s1)))
              Hwf1 eq_refl) as [(B1' & l & lsz & -> & Hrun2)|[Hlf Hrun2]].
  { by intros x ?%elem_of_nil. }
  { lia. }
  - rewrite <- !app_assoc in *. simpl in *.
    eexists _, _, _. split; [|split].
    + unfold deallocate. rewrite Z.add_simpl_r.
      eapply bind_Done; [apply Hrun1|]. mstep. mstep.
      rewrite Hhd. eapply bind_Done; [apply Hrun2|]. done.
    + by apply (left_merge_wf b0 s1 B1' l lsz b sz1 B2' fl1).
    + destruct Hcase as [(-> & -> & -> & ->)|(rsz & k1 & k2 & -> & -> & -> & ->)].
      * by apply dealloc_left.
      * by apply dealloc_both.
  - eexists _, _, _. split; [|split].
    + unfold deallocate. rewrite Z.add_simpl_r.
      eapply bind_Done; [apply Hrun1|]. mstep. mstep.
      rewrite Hhd. eapply bind_Done; [apply Hrun2|]. simpl.
      apply addToFreeList_Done.
      * apply (wf_block_in_pool Hwf1 _ Hbin).
      * rewrite Hhd. by apply (wf_in_pool_opt_head Hwf1).
    + by apply (push_wf b0 s1 B1 b sz1 B2' fl1).
    + destruct Hcase as [(-> & -> & -> & ->)|(rsz & k1 & k2 & -> & -> & -> & ->)].
      * by apply dealloc_alone.
      * by apply dealloc_right.
Qed.

(** *** The constructor establishes the invariant *)

Lemma construct_small base pool_size :
  pool_size < header_size →
  construct base pool_size = mkAllocator None pool_size None ∅.
Proof. intros H. unfold construct. by rewrite (proj2 (Z.ltb_lt _ _) H). Qed.

Lemma construct_wf base pool_size :
  header_size ≤ pool_size → pool_size + header_size < wmod →
  wf base (construct base pool_size) [Blk base pool_size true] [base].
Proof.
  intros Hge Hlt. unfold construct. rewrite (proj2 (Z.ltb_ge _ _) Hge).
  split; simpl.
  - done.
  - done.
  - done.
  - apply Forall_cons. split; [|done]. unfold agrees. simpl.
    rewrite lookup_singleton_eq. by eexists.
  - split; [done|]. intros l1 a l2 Heq.
    destruct l1 as [|y l1]; simpl in Heq.
    + injection Heq as <- <-. unfold links. by rewrite lookup_singleton_eq.
    + injection Heq as _ Heq. by destruct l1.
  - done.
  - done.
  - intros a [h Ha]. apply lookup_singleton_Some in Ha as [<- _].
    unfold in_pool. simpl. apply andb_true_iff. split; apply Z.leb_le; lia.
Qed.

(** *** The observers on a well-formed allocator *)

Lemma walk_free_list_spec b0 s bl fl todo : ∀ dn fuel,
  wf b0 s bl fl → fl = dn ++ todo → (length todo < fuel)%nat →
  walk_free_list fuel (head todo) s = Done (snapshot (cells s) todo, s).
Proof.
  induction todo as [|c todo IH]; intros dn fuel Hwf Hfl Hfuel;
    (destruct fuel as [|fuel]; [simpl in Hfuel; lia|]); simpl; [done|].
  assert (c ∈ fl) as Hcfl. { rewrite Hfl. apply elem_of_app. right. left. }
  destruct (wf_free_block Hwf c Hcfl) as (csz & hc & Hbin & Hc & Hsz & _ & Hic).
  destruct (wf_free_links Hwf dn c todo hc Hfl Hc) as [Hnx Hpv].
  mstep. mstep. rewrite Hnx.
  eapply bind_Done.
  - apply (IH (dn ++ [c])); [done|by rewrite <- app_assoc|simpl in Hfuel; lia].
  - unfold snapshot. simpl. by rewrite Hc.
Qed.

Lemma print_free_list_spec b0 s bl fl :
  wf b0 s bl fl → print_free_list s = Done (snapshot (cells s) fl, s).
Proof.
  intros Hwf. unfold print_free_list.
  do 2 (eapply bind_Done; [reflexivity|]). cbv beta.
  rewrite (dll_head _ _ _ (wf_dll _ _ _ _ Hwf)).
  apply (walk_free_list_spec b0 s bl fl fl []); [done..|].
  pose proof (wf_fuel Hwf). lia.
Qed.

Lemma walk_blocks_sound m fuel : ∀ a e bl,
  walk_blocks fuel m a e = Some bl → contig a bl e ∧ Forall (agrees m) bl.
Proof.
  induction fuel as [|fuel IH]; intros a e bl; simpl.
  - destruct (a =? e) eqn:E; [|done]. intros [= <-]. apply Z.eqb_eq in E. done.
  - destruct (a =? e) eqn:E.
    { intros [= <-]. apply Z.eqb_eq in E. done. }
    destruct (m !! a) as [h|] eqn:Eh; [|done].
    destruct (header_size <=? size h) eqn:E1; [|done].
    destruct (a + size h <=? e) eqn:E2; [|done]. simpl.
    destruct (walk_blocks fuel m (a + size h) e) as [r|] eqn:Er; [|done].
    simpl. intros [= <-]. apply IH in Er as [Hc Ha]. simpl.
    apply Z.leb_le in E1. split; [done|].
    apply Forall_cons. split; [|done]. by exists h.
Qed.

Lemma walk_blocks_complete m bl : ∀ fuel a e,
  contig a bl e → Forall (agrees m) bl → (length bl ≤ fuel)%nat →
  walk_blocks fuel m a e = Some bl.
Proof.
  induction bl as [|[b sz f] bl IH]; intros fuel a e Hc Ha Hf.
  - simpl in Hc. subst e. destruct fuel; simpl; by rewrite Z.eqb_refl.
  - destruct fuel as [|fuel]; [simpl in Hf; lia|].
    pose proof (contig_le _ _ _ Hc) as Hle.
    simpl in Hc. destruct Hc as (-> & Hs & Hc).
    pose proof (contig_le _ _ _ Hc) as Hle'.
    apply Forall_cons in Ha as [(h & Hh & Hsz & Hfr) Ha]. simpl in *. subst.
    rewrite (proj2 (Z.eqb_neq a e)) by lia. rewrite Hh.
    rewrite (proj2 (Z.leb_le _ _) Hs), (proj2 (Z.leb_le _ _) Hle'). simpl.
    rewrite (IH fuel); [done..|]. lia.
Qed.

Lemma contig_length a bl e : contig a bl e → (length bl ≤ Z.to_nat (e - a))%nat.
Proof.
  revert a. induction bl as [|x bl IH]; intros a; simpl; [lia|].
  intros (_ & Hs & Hc). pose proof (contig_le _ _ _ Hc). apply IH in Hc. lia.
Qed.

Lemma wf_pool_blocks b0 s bl fl : wf b0 s bl fl → pool_blocks s = Some bl.
Proof.
  intros Hwf. unfold pool_blocks. rewrite (wf_pool _ _ _ _ Hwf).
  apply walk_blocks_complete; [apply Hwf..|].
  pose proof (contig_length _ _ _ (wf_contig _ _ _ _ Hwf)) as H.
  by replace (b0 + m_pool_size s - b0) with (m_pool_size s) in H by lia.
Qed.

(** What [pool_blocks] returns is a tiling of the pool that memory agrees with. *)
Lemma pool_blocks_tiles s bl :
  pool_blocks s = Some bl →
  ∃ base, m_memory_pool s = Some base ∧
          contig base bl (base + m_pool_size s) ∧ Forall (agrees (cells s)) bl.
Proof.
  unfold pool_blocks. destruct (m_memory_pool s) as [base|]; [|done].
  intros H%walk_blocks_sound. by exists base.
Qed.

Lemma used_addrs_app l1 l2 : used_addrs (l1 ++ l2) = used_addrs l1 ++ used_addrs l2.
Proof.
  induction l1 as [|x l1 IH]; simpl; [done|]. rewrite IH. by destruct (bfree x).
Qed.

Lemma elem_of_used_addrs a bl : a ∈ used_addrs bl ↔ ∃ sz, Blk a sz false ∈ bl.
Proof.
  induction bl as [|[b sz f] bl IH]; simpl.
  - split; [by intros ?%elem_of_nil|]. by intros (? & ?%elem_of_nil).
  - destruct f.
    + rewrite IH. split.
      * intros (sz' & ?). exists sz'. by right.
      * intros (sz' & [[=]|?]%elem_of_cons). by exists sz'.
    + rewrite elem_of_cons, IH. split.
      * intros [->|(sz' & ?)]; [exists sz; left|exists sz'; by right].
      * intros (sz' & [[= -> ->]|?]%elem_of_cons); [by left|right; by exists sz'].
Qed.

Lemma NoDup_used_addrs a bl e : contig a bl e → NoDup (used_addrs bl).
Proof.
  revert a. induction bl as [|x bl IH]; intros a; simpl; [constructor|].
  intros (<- & Hs & Hc). destruct (bfree x); [by eapply IH|].
  apply NoDup_cons. split; [|by eapply IH].
  intros (sz & Hin)%elem_of_used_addrs.
  apply (contig_elem _ _ _ _ Hc) in Hin. simpl in Hin. lia.
Qed.

Lemma elem_of_mid_removed (U1 U2 : list Z) b v :
  NoDup (U1 ++ b :: U2) → v ∈ U1 ++ b :: U2 ∧ v ≠ b ↔ v ∈ U1 ++ U2.
Proof.
  intros (_ & Hd & [Hb _]%NoDup_cons)%NoDup_app.
  rewrite !elem_of_app, elem_of_cons. split.
  - intros [[?|[?|?]] ?]; tauto.
  - intros [Hv|Hv]; (split; [tauto|intros ->]); [|done].
    apply (Hd b Hv). left.
Qed.

(** On every reachable state the invariant holds, and the outstanding
    pointers are exactly those of the allocated blocks. *)
Lemma reachable_wf b0 s P :
  reachable b0 s P →
  ∃ bl fl, wf b0 s bl fl ∧ ∀ u, u ∈ P ↔ u - header_size ∈ used_addrs bl.
Proof.
  induction 1 as [psz Hge Hlt|s P n r s' _ IH Hn Hovf Hrun
                 |s P u s' _ IH Hu Hrun|s P s' _ IH Hrun].
  - exists [Blk b0 psz true], [b0]. split; [by apply construct_wf|].
    intros u. simpl. split; [by intros ?%elem_of_empty|by intros ?%elem_of_nil].
  - destruct IH as (bl & fl & Hwf & HP).
    destruct (decide (n = 0)) as [->|Hn0].
    { unfold allocate in Hrun. simpl in Hrun. injection Hrun as <- <-.
      by exists bl, fl. }
    destruct (allocate_spec b0 s bl fl n Hwf) as (r' & s'' & Hrun' & Hpost);
      [lia|done|].
    rewrite Hrun in Hrun'. injection Hrun' as <- <-.
    destruct Hpost as [Hsmall|l1 c csz l2 B1 B2 hc s' -> -> Hl1 Hc Hfit Hsp -> Hwf'
                      |l1 c csz l2 B1 B2 hc s' -> -> Hl1 Hc Hfit Hsp -> Hwf'].
    + by exists bl, fl.
    + eexists _, _. split; [apply Hwf'|]. intros u.
      rewrite elem_of_union, elem_of_singleton, HP.
      rewrite !used_addrs_app. simpl. rewrite !elem_of_app, elem_of_cons.
      split; [intros [->|[?|?]]|intros [?|[?|?]]]; try tauto.
      * right. left. lia.
      * left. lia.
    + eexists _, _. split; [apply Hwf'|]. intros u.
      rewrite elem_of_union, elem_of_singleton, HP.
      rewrite !used_addrs_app. simpl. rewrite !elem_of_app, elem_of_cons.
      split; [intros [->|[?|?]]|intros [?|[?|?]]]; try tauto.
      * right. left. lia.
      * left. lia.
  - destruct IH as (bl & fl & Hwf & HP).
    pose proof (proj1 (HP u) Hu) as Hin.
    apply elem_of_used_addrs in Hin as (sz & Hin).
    destruct (deallocate_spec b0 s bl fl _ _ Hwf Hin)
      as (s'' & bl' & fl' & Hrun' & Hwf' & Hpost).
    replace (u - header_size + header_size) with u in Hrun' by lia.
    rewrite Hrun in Hrun'. injection Hrun' as <-.
    exists bl', fl'. split; [done|]. intros v.
    rewrite elem_of_difference, elem_of_singleton, HP.
    pose proof (NoDup_used_addrs _ _ _ (wf_contig _ _ _ _ Hwf)) as Hnd.
    assert (v ≠ u ↔ v - header_size ≠ u - header_size) as -> by lia.
    revert Hnd.
    destruct Hpost as [B1 z B2 -> _ _|B1 z rsz B2 k1 k2 -> -> _ _
                      |B1 l lsz z B2 -> _|B1 l lsz z rsz B2 k1 k2 -> -> _];
      rewrite !used_addrs_app; simpl; apply elem_of_mid_removed.
  - unfold deallocate in Hrun. injection Hrun as <-. done.
Qed.

(** *** First fit, out of memory and the round trip, for requests whose
    total is a [size_t] value *)

Lemma first_fit_skip m total l1 l2 :
  (∀ x, x ∈ l1 → ∃ h, m !! x = Some h ∧ size h < total) →
  first_fit total (snapshot m (l1 ++ l2)) = first_fit total (snapshot m l2).
Proof.
  induction l1 as [|a l1 IH]; intros Hs; simpl; [done|].
  destruct (Hs a) as (h & Hh & Hlt); [left|]. rewrite Hh. simpl.
  rewrite (proj2 (Z.leb_gt _ _) Hlt). apply IH. intros x Hx. apply Hs. by right.
Qed.

(** The block [allocate] hands out is the first of the free list, in list
    order, whose size is at least the request plus one header, and the
    pointer returned is the address just after that block's header. *)
Lemma allocate_first_fit b0 s bl fl n :
  wf b0 s bl fl → 0 < n → n + header_size < wmod →
  ∃ r s', allocate n s = Done (r, s') ∧
          print_free_list s = Done (snapshot (cells s) fl, s) ∧
          r = (λ x, x.1 + header_size) <$>
              first_fit (n + header_size) (snapshot (cells s) fl).
Proof.
  intros Hwf Hn Hovf.
  destruct (allocate_spec b0 s bl fl n Hwf Hn Hovf) as (r & s' & Hrun & Hpost).
  exists r, s'. split; [done|]. split; [by eapply print_free_list_spec|].
  destruct Hpost as [Hsmall|l1 c csz l2 B1 B2 hc s' -> -> Hl1 Hc Hfit Hsp -> Hwf'
                    |l1 c csz l2 B1 B2 hc s' -> -> Hl1 Hc Hfit Hsp -> Hwf'].
  - rewrite <- (app_nil_r fl), (first_fit_skip _ _ fl []); done.
  - rewrite (first_fit_skip _ _ l1) by done. simpl. rewrite Hc. simpl.
    assert (Blk c csz true ∈ B1 ++ Blk c csz true :: B2) as Hin.
    { apply elem_of_app. right. left. }
    destruct (wf_block_cell Hwf _ Hin) as (h' & Hh' & Hsz & _). simpl in *.
    rewrite Hc in Hh'. injection Hh' as <-. rewrite Hsz.
    by rewrite (proj2 (Z.leb_le _ _) Hfit).
  - rewrite (first_fit_skip _ _ l1) by done. simpl. rewrite Hc. simpl.
    assert (Blk c csz true ∈ B1 ++ Blk c csz true :: B2) as Hin.
    { apply elem_of_app. right. left. }
    destruct (wf_block_cell Hwf _ Hin) as (h' & Hh' & Hsz & _). simpl in *.
    rewrite Hc in Hh'. injection Hh' as <-. rewrite Hsz.
    by rewrite (proj2 (Z.leb_le _ _) Hfit).
Qed.

(** When no free block can hold the request plus one header, [allocate]
    returns [nullptr] and leaves the allocator as it was. *)
Lemma allocate_out_of_memory b0 s bl fl n :
  wf b0 s bl fl → 0 < n → n + header_size < wmod →
  (∀ a sz, (a, sz) ∈ snapshot (cells s) fl → sz < n + header_size) →
  allocate n s = Done (None, s).
Proof.
  intros Hwf Hn Hovf Hsmall.
  destruct (allocate_spec b0 s bl fl n Hwf Hn Hovf) as (r & s' & Hrun & Hpost).
  assert (∀ c csz l1 l2 B1 B2 hc,
            fl = l1 ++ c :: l2 → bl = B1 ++ Blk c csz true :: B2 →
            cells s !! c = Some hc → n + header_size ≤ csz → False) as Hno.
  { intros c csz l1 l2 B1 B2 hc -> -> Hc Hfit.
    assert (Blk c csz true ∈ B1 ++ Blk c csz true :: B2) as Hin.
    { apply elem_of_app. right. left. }
    destruct (wf_block_cell Hwf _ Hin) as (h' & Hh' & Hsz & _). simpl in *.
    rewrite Hc in Hh'. injection Hh' as <-.
    specialize (Hsmall c csz). unfold snapshot in Hsmall.
    rewrite fmap_app, fmap_cons, Hc in Hsmall. simpl in Hsmall.
    rewrite Hsz in Hsmall. 
    assert (csz < n + header_size); [|lia].
    apply Hsmall. apply elem_of_app. right. left. }
  destruct Hpost as [_|l1 c csz l2 B1 B2 hc s' Hfl Hbl _ Hc Hfit _ _ _
                    |l1 c csz l2 B1 B2 hc s' Hfl Hbl _ Hc Hfit _ _ _].
  - done.
  - by destruct (Hno c csz l1 l2 B1 B2 hc).
  - by destruct (Hno c csz l1 l2 B1 B2 hc).
Qed.

Lemma contig_decomp_unique a B1 x B2 e B1' y B2' :
  contig a (B1 ++ x :: B2) e → B1 ++ x :: B2 = B1' ++ y :: B2' →
  baddr x = baddr y → B1 = B1' ∧ x = y ∧ B2 = B2'.
Proof.
  intros Hct Heq Hxy.
  apply app_eq_app_cons in Heq as [(k & -> & ->)|(k & -> & Hk)].
  - exfalso. symmetry in Hxy.
    apply (contig_others _ _ _ _ _ y Hct); [|done].
    left. apply elem_of_app. right. left.
  - destruct k as [|z k]; simpl in Hk.
    + injection Hk as -> ->. by rewrite app_nil_r.
    + injection Hk as <- ->. exfalso. symmetry in Hxy.
      apply (contig_others _ _ _ _ _ y Hct); [|done].
      right. apply elem_of_app. right. left.
Qed.

(** Freeing the pointer [allocate] just returned gives back the blocks the
    pool had before the call: a split block is merged with its remainder
    into the extent it was cut from, and an unsplit block is free again.
    The free list holds the same blocks, the returned one now first. *)
Lemma allocate_deallocate_round_trip b0 s bl fl n u s' :
  wf b0 s bl fl → 0 < n → n + header_size < wmod →
  allocate n s = Done (Some u, s') →
  ∃ s'' fl'', deallocate (Some u) s' = Done (tt, s'') ∧
              wf b0 s'' bl fl'' ∧ fl'' ≡ₚ fl.
Proof.
  intros Hwf Hn Hovf Hrun.
  destruct (allocate_spec b0 s bl fl n Hwf Hn Hovf) as (r & s1 & Hrun' & Hpost).
  rewrite Hrun in Hrun'. injection Hrun' as <- <-.
  pose proof (wf_naf _ _ _ _ Hwf) as Hnaf.
  inversion Hpost as [|l1 c csz l2 B1 B2 hc s1 Hfl Hbl Hl1 Hc Hfit Hsp Hs' Hwf' Hu Hs1
                      |l1 c csz l2 B1 B2 hc s1 Hfl Hbl Hl1 Hc Hfit Hsp Hs' Hwf' Hu Hs1];
    subst bl fl u.
  - rewrite naf_app in Hnaf. simpl in Hnaf.
    assert (last_free B1 = false ∧ first_free B2 = false) as [Hlf Hff].
    { by destruct (last_free B1), (first_free B2), (no_adjacent_free B1). }
    pose proof (wf_contig _ _ _ _ Hwf') as Hct'.
    pose proof (wf_nodup Hwf') as Hnd'.
    destruct (deallocate_spec b0 s' _ _ c (n + header_size) Hwf')
      as (s'' & bl'' & fl'' & Hrun2 & Hwf'' & Hpost2).
    { apply elem_of_app. right. left. }
    exists s'', fl''. split; [done|].
    inversion Hpost2 as [X1 z X2 Heq H1 H2|X1 z rsz X2 k1 k2 Heq Hk H1 H2
                        |X1 l lsz z X2 Heq H2|X1 l lsz z rsz X2 k1 k2 Heq Hk H2];
      subst bl'' fl''.
    + apply (contig_decomp_unique _ _ _ _ _ _ _ _ Hct') in Heq as (<- & _ & <-);
        [|done]. done.
    + apply (contig_decomp_unique _ _ _ _ _ _ _ _ Hct') in Heq
        as (<- & [= <-] & [= <- <-]); [|done].
      apply NoDup_mid_inj in Hk as [<- <-]; [|done].
      replace (n + header_size + (csz - (n + header_size))) with csz in Hwf'' by lia.
      split; [done|]. by rewrite Permutation_middle.
    + change (X1 ++ Blk l lsz true :: Blk c z false :: X2)
        with (X1 ++ [Blk l lsz true] ++ Blk c z false :: X2) in Heq.
      rewrite app_assoc in Heq.
      apply (contig_decomp_unique _ _ _ _ _ _ _ _ Hct') in Heq as (-> & _ & _);
        [|done].
      by rewrite last_free_snoc in Hlf.
    + change (X1 ++ Blk l lsz true :: Blk c z false :: Blk (c + z) rsz true :: X2)
        with (X1 ++ [Blk l lsz true] ++ Blk c z false :: Blk (c + z) rsz true :: X2)
        in Heq.
      rewrite app_assoc in Heq.
      apply (contig_decomp_unique _ _ _ _ _ _ _ _ Hct') in Heq as (-> & _ & _);
        [|done].
      by rewrite last_free_snoc in Hlf.
  - rewrite naf_app in Hnaf. simpl in Hnaf.
    assert (last_free B1 = false ∧ first_free B2 = false) as [Hlf Hff].
    { by destruct (last_free B1), (first_free B2), (no_adjacent_free B1). }
    pose proof (wf_contig _ _ _ _ Hwf') as Hct'.
    destruct (deallocate_spec b0 s' _ _ c csz Hwf')
      as (s'' & bl'' & fl'' & Hrun2 & Hwf'' & Hpost2).
    { apply elem_of_app. right. left. }
    exists s'', fl''. split; [done|].
    inversion Hpost2 as [X1 z X2 Heq H1 H2|X1 z rsz X2 k1 k2 Heq Hk H1 H2
                        |X1 l lsz z X2 Heq H2|X1 l lsz z rsz X2 k1 k2 Heq Hk H2];
      subst bl'' fl''.
    + apply (contig_decomp_unique _ _ _ _ _ _ _ _ Hct') in Heq
        as (<- & [= <-] & <-); [|done].
      split; [done|]. by rewrite Permutation_middle.
    + apply (contig_decomp_unique _ _ _ _ _ _ _ _ Hct') in Heq
        as (<- & _ & ->); [|done]. done.
    + change (X1 ++ Blk l lsz true :: Blk c z false :: X2)
        with (X1 ++ [Blk l lsz true] ++ Blk c z false :: X2) in Heq.
      rewrite app_assoc in Heq.
      apply (contig_decomp_unique _ _ _ _ _ _ _ _ Hct') in Heq as (-> & _ & _);
        [|done].
      by rewrite last_free_snoc in Hlf.
    + change (X1 ++ Blk l lsz true :: Blk c z false :: Blk (c + z) rsz true :: X2)
        with (X1 ++ [Blk l lsz true] ++ Blk c z false :: Blk (c + z) rsz true :: X2)
        in Heq.
      rewrite app_assoc in Heq.
      apply (contig_decomp_unique _ _ _ _ _ _ _ _ Hct') in Heq as (-> & _ & _);
        [|done].
      by rewrite last_free_snoc in Hlf.
Qed.

(** *** Free bytes *)

Lemma free_bytes_perm m (l l' : list Z) :
  l ≡ₚ l' → free_bytes (snapshot m l) = free_bytes (snapshot m l').
Proof.
  induction 1 as [|x l l' _ IH|x y l|l l' l'' _ IH1 _ IH2]; simpl in *; lia.
Qed.

Lemma free_bytes_blocks m bl :
  Forall (agrees m) bl → free_bytes (snapshot m (free_addrs bl)) = free_total bl.
Proof.
  induction 1 as [|[b sz f] bl (h & Hh & Hsz & Hf) _ IH]; simpl in *; [done|].
  destruct f; simpl; [|done]. rewrite Hh. simpl. lia.
Qed.

Lemma wf_free_bytes b0 s bl fl :
  wf b0 s bl fl → free_bytes (snapshot (cells s) fl) = free_total bl.
Proof.
  intros Hwf. rewrite (free_bytes_perm _ _ _ (wf_free _ _ _ _ Hwf)).
  apply free_bytes_blocks, Hwf.
Qed.

Lemma snapshot_free_addrs b0 s bl fl :
  wf b0 s bl fl → fl = free_addrs bl → snapshot (cells s) fl = free_pairs bl.
Proof.
  intros Hwf ->. pose proof (wf_agrees _ _ _ _ Hwf) as Ha. clear Hwf.
  induction Ha as [|[b sz f] bl (hh & Hh & Hsz & Hf) _ IH]; simpl in *; [done|].
  destruct f; simpl; [|done]. rewrite Hh. simpl. by rewrite Hsz, <- IH.
Qed.

(** The free bytes and the blocks of the pool after [allocate] then
    [deallocate] of the returned pointer are those before the call. *)
Lemma round_trip_free_bytes b0 s bl fl n u s' :
  wf b0 s bl fl → 0 < n → n + header_size < wmod →
  allocate n s = Done (Some u, s') →
  ∃ s'' l l'',
    deallocate (Some u) s' = Done (tt, s'') ∧
    print_free_list s = Done (l, s) ∧ print_free_list s'' = Done (l'', s'') ∧
    free_bytes l'' = free_bytes l ∧
    pool_blocks s = Some bl ∧ pool_blocks s'' = Some bl.
Proof.
  intros Hwf Hn Hovf Hrun.
  destruct (allocate_deallocate_round_trip _ _ _ _ _ _ _ Hwf Hn Hovf Hrun)
    as (s'' & fl'' & Hrun2 & Hwf'' & Hperm).
  exists s'', (snapshot (cells s) fl), (snapshot (cells s'') fl'').
  repeat split; try done.
  - by eapply print_free_list_spec.
  - by eapply print_free_list_spec.
  - by rewrite (wf_free_bytes _ _ _ _ Hwf), (wf_free_bytes _ _ _ _ Hwf'').
  - by eapply wf_pool_blocks.
  - by eapply wf_pool_blocks.
Qed.

(** On every reachable state the blocks tile the pool. *)
Lemma reachable_partition b0 s P :
  reachable b0 s P →
  ∃ bl, pool_blocks s = Some bl ∧ contig b0 bl (b0 + m_pool_size s) ∧
        Forall (agrees (cells s)) bl.
Proof.
  intros (bl & fl & Hwf & _)%reachable_wf. exists bl.
  split; [by eapply wf_pool_blocks|]. split; apply Hwf.
Qed.

(** *** The calls whose outcome the shape of the pool decides *)

(** The head of the free list is large enough to be split. *)
Lemma allocate_head_split b0 s B1 c csz B2 l2 n :
  wf b0 s (B1 ++ Blk c csz true :: B2) (c :: l2) →
  0 < n → n + header_size < wmod → n + header_size + header_size < csz →
  ∃ s', allocate n s = Done (Some (c + header_size), s') ∧
        wf b0 s' (B1 ++ Blk c (n + header_size) false ::
                        Blk (c + (n + header_size)) (csz - (n + header_size)) true :: B2)
          ((c + (n + header_size)) :: l2).
Proof.
  intros Hwf Hn Hovf Hbig.
  destruct (allocate_spec b0 s _ _ n Hwf Hn Hovf) as (r & s' & Hrun & Hpost).
  pose proof (wf_contig _ _ _ _ Hwf) as Hct.
  assert (Blk c csz true ∈ B1 ++ Blk c csz true :: B2) as Hin.
  { apply elem_of_app. right. left. }
  destruct (wf_block_cell Hwf _ Hin) as (hc & Hc & Hsz & _). simpl in Hc, Hsz.
  assert (∀ l1 : list Z, c ∈ l1 →
            ¬ ∀ x, x ∈ l1 → ∃ h, cells s !! x = Some h ∧ size h < n + header_size)
    as Hnot.
  { intros l1 Hcl Hsmall. destruct (Hsmall c Hcl) as (h & Hh & Hlt).
    rewrite Hc in Hh. injection Hh as <-. lia. }
  inversion Hpost as [Hsmall
                     |l1 c' csz' l2' X1 X2 hc' s1 Hfl Hbl Hl1 Hc' Hfit Hsp Hs' Hwf' Hu Hs1
                     |l1 c' csz' l2' X1 X2 hc' s1 Hfl Hbl Hl1 Hc' Hfit Hsp Hs' Hwf' Hu Hs1].
  - subst s'. destruct (Hnot (c :: l2)); [left|done].
  - destruct l1 as [|x l1]; simpl in Hfl.
    + injection Hfl as <- <-.
      apply (contig_decomp_unique _ _ _ _ _ _ _ _ Hct) in Hbl
        as (<- & [= <-] & <-); [|done].
      exists s'. subst r. by rewrite Hrun.
    + injection Hfl as <- _. destruct (Hnot (c :: l1)); [left|done].
  - destruct l1 as [|x l1]; simpl in Hfl.
    + injection Hfl as <- <-.
      apply (contig_decomp_unique _ _ _ _ _ _ _ _ Hct) in Hbl
        as (<- & [= <-] & <-); [|done]. lia.
    + injection Hfl as <- _. destruct (Hnot (c :: l1)); [left|done].
Qed.

(** Neither neighbour of the freed block is free. *)
Lemma deallocate_alone b0 s B1 b sz B2 fl :
  wf b0 s (B1 ++ Blk b sz false :: B2) fl →
  last_free B1 = false → first_free B2 = false →
  ∃ s', deallocate (Some (b + header_size)) s = Done (tt, s') ∧
        wf b0 s' (B1 ++ Blk b sz true :: B2) (b :: fl).
Proof.
  intros Hwf Hlf Hff. pose proof (wf_contig _ _ _ _ Hwf) as Hct.
  destruct (deallocate_spec b0 s _ _ b sz Hwf)
    as (s' & bl' & fl' & Hrun & Hwf' & Hpost).
  { apply elem_of_app. right. left. }
  exists s'. split; [done|].
  inversion Hpost as [X1 z X2 Heq H1 H2|X1 z rsz X2 k1 k2 Heq Hk H1 H2
                     |X1 l lsz z X2 Heq H2|X1 l lsz z rsz X2 k1 k2 Heq Hk H2];
    subst bl' fl'.
  - by apply (contig_decomp_unique _ _ _ _ _ _ _ _ Hct) in Heq
      as (<- & [= <-] & <-).
  - by apply (contig_decomp_unique _ _ _ _ _ _ _ _ Hct) in Heq as (<- & _ & ->).
  - rewrite (cons_middle (Blk l lsz true)), app_assoc in Heq.
    apply (contig_decomp_unique _ _ _ _ _ _ _ _ Hct) in Heq as (-> & _ & _);
      [|done].
    by rewrite last_free_snoc in Hlf.
  - rewrite (cons_middle (Blk l lsz true)), app_assoc in Heq.
    apply (contig_decomp_unique _ _ _ _ _ _ _ _ Hct) in Heq as (-> & _ & _);
      [|done].
    by rewrite last_free_snoc in Hlf.
Qed.

(** Only the right neighbour of the freed block is free. *)
Lemma deallocate_right b0 s B1 b sz r rsz B2 k1 k2 :
  wf b0 s (B1 ++ Blk b sz false :: Blk r rsz true :: B2) (k1 ++ r :: k2) →
  last_free B1 = false →
  ∃ s', deallocate (Some (b + header_size)) s = Done (tt, s') ∧
        wf b0 s' (B1 ++ Blk b (sz + rsz) true :: B2) (b :: k1 ++ k2).
Proof.
  intros Hwf Hlf. pose proof (wf_contig _ _ _ _ Hwf) as Hct.
  pose proof (wf_nodup Hwf) as Hnd.
  destruct (deallocate_spec b0 s _ _ b sz Hwf)
    as (s' & bl' & fl' & Hrun & Hwf' & Hpost).
  { apply elem_of_app. right. left. }
  exists s'. split; [done|].
  inversion Hpost as [X1 z X2 Heq H1 H2|X1 z rsz' X2 j1 j2 Heq Hk H1 H2
                     |X1 l lsz z X2 Heq H2|X1 l lsz z rsz' X2 j1 j2 Heq Hk H2];
    subst bl' fl'.
  - by apply (contig_decomp_unique _ _ _ _ _ _ _ _ Hct) in Heq as (<- & _ & <-).
  - apply (contig_decomp_unique _ _ _ _ _ _ _ _ Hct) in Heq
      as (<- & [= <-] & [= -> <- <-]); [|done].
    by apply NoDup_mid_inj in Hk as [<- <-].
  - rewrite (cons_middle (Blk l lsz true)), app_assoc in Heq.
    apply (contig_decomp_unique _ _ _ _ _ _ _ _ Hct) in Heq as (-> & _ & _);
      [|done].
    by rewrite last_free_snoc in Hlf.
  - rewrite (cons_middle (Blk l lsz true)), app_assoc in Heq.
    apply (contig_decomp_unique _ _ _ _ _ _ _ _ Hct) in Heq as (-> & _ & _);
      [|done].
    by rewrite last_free_snoc in Hlf.
Qed.

(** Only the left neighbour of the freed block is free. *)
Lemma deallocate_left b0 s B1 l lsz b sz B2 fl :
  wf b0 s (B1 ++ Blk l lsz true :: Blk b sz false :: B2) fl →
  first_free B2 = false →
  ∃ s', deallocate (Some (b + header_size)) s = Done (tt, s') ∧
        wf b0 s' (B1 ++ Blk l (lsz + sz) true :: B2) fl.
Proof.
  intros Hwf Hff. pose proof (wf_contig _ _ _ _ Hwf) as Hct.
  rewrite (cons_middle (Blk l lsz true)), app_assoc in Hct.
  destruct (deallocate_spec b0 s _ _ b sz Hwf)
    as (s' & bl' & fl' & Hrun & Hwf' & Hpost).
  { apply elem_of_app. right. right. left. }
  exists s'. split; [done|].
  inversion Hpost as [X1 z X2 Heq H1 H2|X1 z rsz' X2 j1 j2 Heq Hk H1 H2
                     |X1 l' lsz' z X2 Heq H2|X1 l' lsz' z rsz' X2 j1 j2 Heq Hk H2];
    subst bl' fl'; rewrite (cons_middle (Blk l lsz true)), app_assoc in Heq.
  - apply (contig_decomp_unique _ _ _ _ _ _ _ _ Hct) in Heq as (<- & _ & _);
      [|done].
    by rewrite last_free_snoc in H1.
  - apply (contig_decomp_unique _ _ _ _ _ _ _ _ Hct) in Heq as (<- & _ & _);
      [|done].
    by rewrite last_free_snoc in H1.
  - rewrite (cons_middle (Blk l' lsz' true)), (app_assoc X1) in Heq.
    apply (contig_decomp_unique _ _ _ _ _ _ _ _ Hct) in Heq
      as (Heq & [= <-] & <-); [|done].
    by apply app_inj_tail in Heq as [<- [= <- <-]].
  - rewrite (cons_middle (Blk l' lsz' true)), (app_assoc X1) in Heq.
    by apply (contig_decomp_unique _ _ _ _ _ _ _ _ Hct) in Heq as (_ & _ & ->).
Qed.

(** Both neighbours of the freed block are free. *)
Lemma deallocate_both b0 s B1 l lsz b sz r rsz B2 k1 k2 :
  wf b0 s (B1 ++ Blk l lsz true :: Blk b sz false :: Blk r rsz true :: B2)
    (k1 ++ r :: k2) →
  ∃ s', deallocate (Some (b + header_size)) s = Done (tt, s') ∧
        wf b0 s' (B1 ++ Blk l (lsz + (sz + rsz)) true :: B2) (k1 ++ k2).
Proof.
  intros Hwf. pose proof (wf_contig _ _ _ _ Hwf) as Hct.
  pose proof (wf_nodup Hwf) as Hnd.
  rewrite (cons_middle (Blk l lsz true)), app_assoc in Hct.
  destruct (deallocate_spec b0 s _ _ b sz Hwf)
    as (s' & bl' & fl' & Hrun & Hwf' & Hpost).
  { apply elem_of_app. right. right. left. }
  exists s'. split; [done|].
  inversion Hpost as [X1 z X2 Heq H1 H2|X1 z rsz' X2 j1 j2 Heq Hk H1 H2
                     |X1 l' lsz' z X2 Heq H2|X1 l' lsz' z rsz' X2 j1 j2 Heq Hk H2];
    subst bl' fl'; rewrite (cons_middle (Blk l lsz true)), app_assoc in Heq.
  - apply (contig_decomp_unique _ _ _ _ _ _ _ _ Hct) in Heq as (<- & _ & _);
      [|done].
    by rewrite last_free_snoc in H1.
  - apply (contig_decomp_unique _ _ _ _ _ _ _ _ Hct) in Heq as (<- & _ & _);
      [|done].
    by rewrite last_free_snoc in H1.
  - rewrite (cons_middle (Blk l' lsz' true)), (app_assoc X1) in Heq.
    by apply (contig_decomp_unique _ _ _ _ _ _ _ _ Hct) in Heq as (_ & _ & <-).
  - rewrite (cons_middle (Blk l' lsz' true)), (app_assoc X1) in Heq.
    apply (contig_decomp_unique _ _ _ _ _ _ _ _ Hct) in Heq
      as (Heq & [= <-] & [= -> <- <-]); [|done].
    apply app_inj_tail in Heq as [<- [= <- <-]].
    by apply NoDup_mid_inj in Hk as [<- <-].
Qed.

(** Step 1 with no header in memory at the address of the physically next
    block: the read of [is_free] there, and with it the fault, happens
    exactly when that address is below the end of the pool. *)
Lemma coalesce_right_tripwire s b hb base :
  cells s !! b = Some hb → m_memory_pool s = Some base →
  cells s !! (b + size hb) = None →
  coalesce_right b s = Fault ↔ b + size hb < base + m_pool_size s.
Proof.
  intros Hb Hpool Hnone. unfold coalesce_right.
  rewrite (bind_rw _ _ _ _ _ (get_size_Done _ _ _ Hb)).
  assert (pool_end s = Done (base + m_pool_size s, s)) as Hpe.
  { unfold pool_end. by rewrite Hpool. }
  rewrite (bind_rw _ _ _ _ _ Hpe).
  destruct (b + size hb <? base + m_pool_size s) eqn:E.
  - apply Z.ltb_lt in E. split; [done|]. intros _.
    unfold bind, get_is_free, bind, load. by rewrite Hnone.
  - apply Z.ltb_ge in E. split; [done|lia].
Qed.

(** ** The claims *)

(** C1 (amended).  A successful [allocate n], with [n + header_size] a
    [size_t] value, takes a free block [c] of size [csz] and splits it
    exactly when the leftover [csz - (n + header_size)] is strictly greater
    than one header.  Then the low part is the allocated block of exactly
    [n + header_size] bytes, the high part is a new free block of the
    leftover, and it stands where [c] stood in the free list, with the
    [next] and [prev] that [c] had.  When the leftover is at most one
    header the whole block is handed out and leaves the free list. *)
Theorem C1_split_when_leftover_exceeds_header b0 s bl fl n :
  wf b0 s bl fl → 0 < n → n + header_size < wmod →
  ∃ r s', allocate n s = Done (r, s') ∧
    ((r = None ∧ s' = s) ∨
     ∃ l1 c csz l2 B1 B2,
       fl = l1 ++ c :: l2 ∧ bl = B1 ++ Blk c csz true :: B2 ∧
       r = Some (c + header_size) ∧ n + header_size ≤ csz ∧
       let total := n + header_size in
       let leftover := csz - total in
       if header_size <? leftover
       then wf b0 s' (B1 ++ Blk c total false :: Blk (c + total) leftover true :: B2)
              (l1 ++ (c + total) :: l2) ∧
            links (cells s') (c + total) = links (cells s) c
       else wf b0 s' (B1 ++ Blk c csz false :: B2) (l1 ++ l2)).
Proof.
  intros Hwf Hn Hovf.
  destruct (allocate_spec b0 s bl fl n Hwf Hn Hovf) as (r & s' & Hrun & Hpost).
  exists r, s'. split; [done|].
  inversion Hpost as [|l1 c csz l2 B1 B2 hc s1 Hfl Hbl Hl1 Hc Hfit Hsp Hs' Hwf' Hu Hs1
                      |l1 c csz l2 B1 B2 hc s1 Hfl Hbl Hl1 Hc Hfit Hsp Hs' Hwf' Hu Hs1];
    [by left|right..];
    subst bl fl; exists l1, c, csz, l2, B1, B2; repeat split; try done; simpl.
  - rewrite (proj2 (Z.ltb_lt _ _)) by lia. split; [done|].
    rewrite (dll_links _ _ _ _ _ (wf_dll _ _ _ _ Hwf')).
    by rewrite (dll_links _ _ _ _ _ (wf_dll _ _ _ _ Hwf)).
  - by rewrite (proj2 (Z.ltb_ge _ _)) by lia.
Qed.

(** C3.  In a state that satisfies the invariant, [deallocate] of the
    pointer to an allocated block returns, the invariant holds again, and
    among the blocks found by walking the pool no two physically adjacent
    ones are both free. *)
Theorem C3_deallocate_no_adjacent_free b0 s bl fl b sz :
  wf b0 s bl fl → Blk b sz false ∈ bl →
  ∃ s' bl' fl', deallocate (Some (b + header_size)) s = Done (tt, s') ∧
                wf b0 s' bl' fl' ∧
                pool_blocks s' = Some bl' ∧ no_adjacent_free bl' = true.
Proof.
  intros Hwf Hin.
  destruct (deallocate_spec b0 s bl fl _ _ Hwf Hin)
    as (s' & bl' & fl' & Hrun & Hwf' & _).
  exists s', bl', fl'. split; [done|]. split; [done|].
  split; [by eapply wf_pool_blocks|apply Hwf'].
Qed.

(** C5.  Pool of 1024 bytes at any address [b0], with a header of at most
    168 bytes so that the third request leaves a remainder: allocating 100,
    200 and 50 bytes yields p1, p2, p3 and one remainder free block.
    Freeing p2 leaves exactly two free blocks; freeing p1 next merges p1
    with the extent of p2 into one free block at the start of the pool;
    freeing p3 last leaves a single free block of 1024 bytes at the start
    of the pool, the free list of the initial state. *)
Theorem C5_coalescing_scenario b0 :
  4 * header_size < 674 → 1024 + header_size < wmod →
  let h := header_size in
  let p1 := b0 + h in
  let p2 := b0 + (100 + h) + h in
  let p3 := b0 + (100 + h) + (200 + h) + h in
  let rest := b0 + (100 + h) + (200 + h) + (50 + h) in
  ∃ s1 s2 s3 s4 s5 s6,
    print_free_list (construct b0 1024) = Done ([(b0, 1024)], construct b0 1024) ∧
    allocate 100 (construct b0 1024) = Done (Some p1, s1) ∧
    allocate 200 s1 = Done (Some p2, s2) ∧
    allocate 50 s2 = Done (Some p3, s3) ∧
    print_free_list s3 = Done ([(rest, 674 - 3 * h)], s3) ∧
    deallocate (Some p2) s3 = Done (tt, s4) ∧
    print_free_list s4 = Done ([(p2 - h, 200 + h); (rest, 674 - 3 * h)], s4) ∧
    deallocate (Some p1) s4 = Done (tt, s5) ∧
    print_free_list s5 = Done ([(b0, 300 + 2 * h); (rest, 674 - 3 * h)], s5) ∧
    pool_blocks s5 = Some [Blk b0 (300 + 2 * h) true; Blk (p3 - h) (50 + h) false;
                           Blk rest (674 - 3 * h) true] ∧
    deallocate (Some p3) s5 = Done (tt, s6) ∧
    print_free_list s6 = Done ([(b0, 1024)], s6) ∧
    pool_blocks s6 = Some [Blk b0 1024 true] ∧
    pool_blocks (construct b0 1024) = Some [Blk b0 1024 true].
Proof.
  intros H4 Hw h p1 p2 p3 rest.
  assert (wf b0 (construct b0 1024) [Blk b0 1024 true] [b0]) as Hwf0.
  { apply construct_wf; lia. }
  destruct (allocate_head_split b0 _ [] b0 1024 [] [] 100 Hwf0)
    as (s1 & Hr1 & Hwf1); [lia..|]. simpl in Hwf1.
  destruct (allocate_head_split b0 s1 [Blk b0 (100 + h) false]
              (b0 + (100 + h)) (1024 - (100 + h)) [] [] 200 Hwf1)
    as (s2 & Hr2 & Hwf2); [lia..|]. simpl in Hwf2.
  destruct (allocate_head_split b0 s2
              [Blk b0 (100 + h) false; Blk (b0 + (100 + h)) (200 + h) false]
              (b0 + (100 + h) + (200 + h)) (1024 - (100 + h) - (200 + h))
              [] [] 50 Hwf2)
    as (s3 & Hr3 & Hwf3); [lia..|]. simpl in Hwf3.
  destruct (deallocate_alone b0 s3 [Blk b0 (100 + h) false]
              (b0 + (100 + h)) (200 + h) _ _ Hwf3 eq_refl eq_refl)
    as (s4 & Hr4 & Hwf4). simpl in Hwf4.
  destruct (deallocate_right b0 s4 [] b0 (100 + h)
              (b0 + (100 + h)) (200 + h) _ [] _ Hwf4 eq_refl)
    as (s5 & Hr5 & Hwf5). simpl in Hwf5.
  destruct (deallocate_both b0 s5 [] b0 (100 + h + (200 + h))
              (b0 + (100 + h) + (200 + h)) (50 + h) rest
              (1024 - (100 + h) - (200 + h) - (50 + h)) [] [b0] [] Hwf5)
    as (s6 & Hr6 & Hwf6). simpl in Hwf6.
  exists s1, s2, s3, s4, s5, s6.
  rewrite (print_free_list_spec _ _ _ _ Hwf0), (print_free_list_spec _ _ _ _ Hwf3),
    (print_free_list_spec _ _ _ _ Hwf4), (print_free_list_spec _ _ _ _ Hwf5),
    (print_free_list_spec _ _ _ _ Hwf6).
  rewrite (wf_pool_blocks _ _ _ _ Hwf0), (wf_pool_blocks _ _ _ _ Hwf5),
    (wf_pool_blocks _ _ _ _ Hwf6).
  rewrite (snapshot_free_addrs _ _ _ _ Hwf0 eq_refl),
    (snapshot_free_addrs _ _ _ _ Hwf3 eq_refl),
    (snapshot_free_addrs _ _ _ _ Hwf4 eq_refl),
    (snapshot_free_addrs _ _ _ _ Hwf5 eq_refl),
    (snapshot_free_addrs _ _ _ _ Hwf6 eq_refl). simpl.
  subst h p1 p2 p3 rest.
  repeat split; try done;
    repeat match goal with
      | |- Done _ = Done _ => f_equal
      | |- Some _ = Some _ => f_equal
      | |- (_, _) = (_, _) => f_equal
      | |- _ :: _ = _ :: _ => f_equal
      | |- Blk _ _ _ = Blk _ _ _ => f_equal
      | |- @eq Z _ _ => lia
      end.
Qed.

(** C8.  An allocator constructed with a pool smaller than one header has
    no pool, an empty free list and no header in memory; [allocate n]
    returns [nullptr] and leaves it unchanged, for every [n], and so does
    every call of any sequence of calls that follows. *)
Theorem C8_small_pool_is_inert base pool_size n requests :
  pool_size < header_size →
  m_memory_pool (construct base pool_size) = None ∧
  m_free_list_head (construct base pool_size) = None ∧
  cells (construct base pool_size) = ∅ ∧
  allocate n (construct base pool_size) = Done (None, construct base pool_size) ∧
  allocate_each requests (construct base pool_size) =
    Done (replicate (length requests) None, construct base pool_size).
Proof.
  intros Hlt. rewrite (construct_small _ _ Hlt). simpl.
  assert (∀ k, allocate k (mkAllocator None pool_size None ∅) =
               Done (None, mkAllocator None pool_size None ∅)) as Hone.
  { intros k. unfold allocate. by destruct (k =? 0). }
  repeat split; [apply Hone|].
  induction requests as [|k requests IH]; simpl; [done|].
  eapply bind_Done; [apply Hone|]. eapply bind_Done; [apply IH|]. done.
Qed.

(** C9.  [allocate 0] returns [nullptr] and [deallocate nullptr] returns,
    both leaving the allocator exactly as it was, whatever its state. *)
Theorem C9_degenerate_calls s :
  allocate 0 s = Done (None, s) ∧ deallocate None s = Done (tt, s).
Proof. done. Qed.

(** C10.  In a state that satisfies the invariant, [deallocate] of the
    pointer to an allocated block returns without a fault, and no header
    lies outside the pool, so every header it read was inside the pool.
    The [is_free] field of the physically next block is read exactly when
    that block starts below the end of the pool: with the header at that
    address taken out of memory, step 1 faults when the address is below
    the end of the pool and returns otherwise.  For the last block of the
    pool the address is the end of the pool and nothing is read there. *)
Theorem C10_right_neighbour_read_in_bounds b0 s bl fl b sz :
  wf b0 s bl fl → Blk b sz false ∈ bl →
  (∃ s', deallocate (Some (b + header_size)) s = Done (tt, s')) ∧
  map_Forall (λ a _, b0 ≤ a ∧ a + header_size ≤ b0 + m_pool_size s) (cells s) ∧
  (size <$> cells s !! b) = Some sz ∧
  b0 ≤ b ∧ b + sz ≤ b0 + m_pool_size s ∧
  (coalesce_right b (with_cells (delete (b + sz) (cells s)) s) = Fault
   ↔ b + sz < b0 + m_pool_size s).
Proof.
  intros Hwf Hin.
  destruct (deallocate_spec b0 s bl fl _ _ Hwf Hin)
    as (s' & bl' & fl' & Hrun & Hwf' & _).
  pose proof (wf_pool _ _ _ _ Hwf) as Hpool.
  destruct (wf_block_cell Hwf _ Hin) as (hb & Hb & Hsz & _).
  pose proof (wf_block_bounds Hwf _ Hin) as Hbd. simpl in Hb, Hsz, Hbd.
  split; [by exists s'|]. split; [|split; [|split; [|split]]].
  - intros a h Ha%mk_is_Some%(wf_cells _ _ _ _ Hwf). unfold in_pool in Ha.
    rewrite Hpool in Ha. apply andb_true_iff in Ha as [?%Z.leb_le ?%Z.leb_le]. lia.
  - rewrite Hb. simpl. by rewrite Hsz.
  - lia.
  - lia.
  - subst sz.
    apply (coalesce_right_tripwire
             (with_cells (delete (b + size hb) (cells s)) s) b hb b0); simpl.
    + rewrite lookup_delete_ne by lia. done.
    + done.
    + apply lookup_delete_eq.
Qed.

(** On every reachable state [deallocate] of an outstanding pointer
    returns and leaves no two adjacent blocks free. *)
Lemma reachable_deallocate b0 s P u :
  reachable b0 s P → u ∈ P →
  ∃ s' bl', deallocate (Some u) s = Done (tt, s') ∧
            reachable b0 s' (P ∖ {[u]}) ∧
            pool_blocks s' = Some bl' ∧ no_adjacent_free bl' = true.
Proof.
  intros Hreach Hu.
  destruct (reachable_wf _ _ _ Hreach) as (bl & fl & Hwf & HP).
  pose proof Hu as Hin. apply HP, elem_of_used_addrs in Hin as (sz & Hin).
  destruct (deallocate_spec b0 s bl fl _ _ Hwf Hin)
    as (s' & bl' & fl' & Hrun & Hwf' & _).
  replace (u - header_size + header_size) with u in Hrun by lia.
  exists s', bl'. split; [done|]. split; [by eapply reach_deallocate|].
  split; [by eapply wf_pool_blocks|apply Hwf'].
Qed.

(** ** Further properties of the member functions *)

(** *** The constructor and the capacity of a fresh pool *)

Lemma snapshot_free_pairs m bl :
  Forall (agrees m) bl → snapshot m (free_addrs bl) = free_pairs bl.
Proof.
  induction 1 as [|[b sz f] bl (hh & Hh & Hsz & Hf) _ IH]; simpl in *; [done|].
  destruct f; simpl; [|done]. rewrite Hh. simpl. by rewrite Hsz, <- IH.
Qed.

(** X1.  A pool of at least one header starts as one free block that
    covers it, and serves a first request exactly when the request plus one
    header is at most the pool size: the pointer returned is the address
    just after the header at the start of the pool; a larger request gets
    [nullptr] and leaves the pool as constructed. *)
Theorem X1_fresh_pool_capacity base pool_size n :
  header_size ≤ pool_size → pool_size + header_size < wmod →
  0 < n → n + header_size < wmod →
  print_free_list (construct base pool_size) =
    Done ([(base, pool_size)], construct base pool_size) ∧
  pool_blocks (construct base pool_size) = Some [Blk base pool_size true] ∧
  ∃ r s', allocate n (construct base pool_size) = Done (r, s') ∧
          (n + header_size ≤ pool_size → r = Some (base + header_size)) ∧
          (pool_size < n + header_size → r = None ∧ s' = construct base pool_size).
Proof.
  intros Hge Hps Hn Hovf.
  pose proof (construct_wf base pool_size Hge Hps) as Hwf.
  rewrite (print_free_list_spec _ _ _ _ Hwf), (wf_pool_blocks _ _ _ _ Hwf).
  rewrite (snapshot_free_addrs _ _ _ _ Hwf eq_refl). simpl.
  split; [done|]. split; [done|].
  destruct (allocate_first_fit _ _ _ _ n Hwf Hn Hovf) as (r & s' & Hrun & _ & Hr).
  rewrite (snapshot_free_addrs _ _ _ _ Hwf eq_refl) in Hr. simpl in Hr.
  exists r, s'. split; [done|]. split.
  - intros Hfit. unfold first_fit in Hr. simpl in Hr.
    by rewrite (proj2 (Z.leb_le _ _) Hfit) in Hr.
  - intros Hbig. rewrite (allocate_out_of_memory _ _ _ _ n Hwf Hn Hovf) in Hrun.
    + by injection Hrun as <- <-.
    + intros a sz. rewrite (snapshot_free_addrs _ _ _ _ Hwf eq_refl). simpl.
      intros [= -> ->]%list_elem_of_singleton. done.
Qed.

(** *** The two helpers on a doubly linked free list *)

Lemma extent_upd_opt_keep p g (m : gmap Z BlockHeader) a :
  (∀ h, extent (g h) = extent h) → is_Some (m !! a) ∨ p ≠ Some a →
  extent <$> upd_opt p g m !! a = extent <$> m !! a.
Proof.
  intros Hg Ha. destruct p as [q|]; simpl; [|done].
  rewrite lookup_upd. case_decide; [|done]. subst q.
  destruct Ha as [[h Hh]|Hne]; [|done]. rewrite Hh. simpl. by rewrite Hg.
Qed.

Lemma dll_cell m fl hd l1 c l2 :
  dll (links m) fl hd → fl = l1 ++ c :: l2 →
  ∃ hc, m !! c = Some hc ∧ next hc = head l2 ∧ prev hc = last l1.
Proof. intros [_ H] Hfl. by apply links_of_cell, H. Qed.

(** X2.  [removeFromFreeList] takes the element [c] out of a doubly linked
    list: the list that starts at the head afterwards is the old one
    without [c], again doubly linked, and no header changes its size or
    its [is_free] flag. *)
Theorem X2_removeFromFreeList_unlinks s l1 c l2 :
  dll (links (cells s)) (l1 ++ c :: l2) (m_free_list_head s) →
  NoDup (l1 ++ c :: l2) →
  (∀ x, x ∈ l1 ++ c :: l2 → in_pool s x = true) →
  ∃ s', removeFromFreeList c s = Done (tt, s') ∧
        dll (links (cells s')) (l1 ++ l2) (m_free_list_head s') ∧
        m_free_list_head s' = head (l1 ++ l2) ∧
        (∀ a, extent <$> cells s' !! a = extent <$> cells s !! a) ∧
        m_memory_pool s' = m_memory_pool s ∧ m_pool_size s' = m_pool_size s.
Proof.
  intros Hdll Hnd Hin.
  destruct (dll_cell _ _ _ _ _ _ Hdll eq_refl) as (hc & Hc & Hnx & Hpv).
  assert (∀ p, last l1 = Some p → p ∈ l1 ++ c :: l2) as Hlast.
  { intros p Hp%last_Some_elem_of. apply elem_of_app. by left. }
  assert (∀ p, head l2 = Some p → p ∈ l1 ++ c :: l2) as Hhead.
  { intros p Hp%head_Some_elem_of. apply elem_of_app. right. by right. }
  assert (∀ p, p ∈ l1 ++ c :: l2 → is_Some (cells s !! p)) as Hcell.
  { intros p (k1 & k2 & Hk)%list_elem_of_split.
    destruct (dll_cell _ _ _ _ _ _ Hdll Hk) as (hp & Hp & _). by exists hp. }
  eexists. split; [|split; [|split; [|split]]].
  - apply (removeFromFreeList_Done _ _ hc Hc).
    + rewrite Hpv. intros Hl%last_Some_elem_of.
      apply NoDup_app in Hnd as (_ & Hd & _). apply (Hd _ Hl). left.
    + rewrite Hpv. destruct (last l1) as [p|] eqn:E; simpl; [|done].
      by apply Hin, Hlast.
    + rewrite Hnx. destruct (head l2) as [p|] eqn:E; simpl; [|done].
      by apply Hin, Hhead.
  - simpl. rewrite Hpv.
    rewrite (head_app_removed l1 l2 c _ _ (dll_head _ _ _ Hdll) Hnx).
    eapply dll_remove; [apply Hdll|done|].
    intros x nx pv Hx (hx & Hcx & <- & <-)%links_of_cell.
    apply links_of_cell. eexists. split; [by apply lookup_unlink|].
    simpl. by rewrite Hpv, Hnx.
  - simpl. rewrite Hpv.
    apply (head_app_removed l1 l2 c _ _ (dll_head _ _ _ Hdll) Hnx).
  - intros a. simpl. unfold unlink.
    rewrite extent_upd_opt_keep; [rewrite extent_upd_opt_keep; [done|done|]|done|].
    + destruct (decide (prev hc = Some a)) as [E|E]; [left|by right].
      rewrite Hpv in E. by apply Hcell, Hlast.
    + destruct (decide (next hc = Some a)) as [E|E]; [left|by right].
      rewrite Hnx in E. apply is_Some_upd_opt. right. by apply Hcell, Hhead.
  - done.
Qed.

(** X3.  [addToFreeList] puts the block [b], not on the list so far, in
    front of a doubly linked list: [b] is the new head, marked free, with
    its size as it was, and the old elements follow in their old order; no
    other header changes its size or its [is_free] flag. *)
Theorem X3_addToFreeList_pushes_front s fl b hb :
  dll (links (cells s)) fl (m_free_list_head s) → NoDup fl → b ∉ fl →
  cells s !! b = Some hb → in_pool s b = true →
  (∀ x, x ∈ fl → in_pool s x = true) →
  ∃ s', addToFreeList b s = Done (tt, s') ∧
        dll (links (cells s')) (b :: fl) (m_free_list_head s') ∧
        m_free_list_head s' = Some b ∧
        extent <$> cells s' !! b = Some (size hb, true) ∧
        (∀ a, a ≠ b → extent <$> cells s' !! a = extent <$> cells s !! a) ∧
        m_memory_pool s' = m_memory_pool s ∧ m_pool_size s' = m_pool_size s.
Proof.
  intros Hdll Hnd Hb Hcb Hib Hin.
  pose proof (dll_head _ _ _ Hdll) as Hhd.
  assert (m_free_list_head s ≠ Some b) as Hne.
  { rewrite Hhd. by intros ?%head_Some_elem_of. }
  assert (∀ p, m_free_list_head s = Some p → is_Some (cells s !! p)) as Hcell.
  { intros p Hp. rewrite Hhd in Hp. destruct fl as [|y fl]; [done|].
    injection Hp as ->.
    destruct (dll_cell _ _ _ [] p fl Hdll eq_refl) as (hp & Hp & _). by exists hp. }
  eexists. split; [|split; [|split; [|split; [|split]]]].
  - apply addToFreeList_Done; [done|].
    rewrite Hhd. destruct fl as [|y fl]; simpl; [done|]. apply Hin. left.
  - simpl. eapply dll_push; [apply Hdll|done|..].
    + apply links_of_cell. unfold pushed_cells. eexists. split.
      * erewrite lookup_upd_opt_Some; [|by rewrite lookup_upd_same].
        by rewrite decide_False.
      * simpl. rewrite lookup_upd_same. simpl. done.
    + intros x nx pv Hx (hx & Hcx & <- & <-)%links_of_cell.
      assert (b ≠ x) as Hbx by (by intros <-).
      apply links_of_cell. unfold pushed_cells. eexists. split.
      * erewrite lookup_upd_opt_Some; [done|]. by rewrite !lookup_upd_ne.
      * rewrite <- Hhd. by case_decide.
  - done.
  - simpl. unfold pushed_cells.
    rewrite extent_upd_opt_keep; [|done|by right].
    rewrite !lookup_upd_same, Hcb. done.
  - intros a Ha. simpl. unfold pushed_cells.
    rewrite extent_upd_opt_keep; [by rewrite !lookup_upd_ne|done|].
    destruct (decide (m_free_list_head s = Some a)) as [E|E]; [left|by right].
    rewrite !lookup_upd_ne by done. by apply Hcell.
  - done.
Qed.

(** X4.  [removeFromFreeList] undoes [addToFreeList]: after pushing [b] and
    taking it out again the head of the list is the old head and every
    header other than that of [b] holds exactly what it held. *)
Theorem X4_add_then_remove_restores s fl b hb :
  dll (links (cells s)) fl (m_free_list_head s) → b ∉ fl →
  cells s !! b = Some hb → in_pool s b = true →
  (∀ x, x ∈ fl → in_pool s x = true) →
  ∃ s1 s2, addToFreeList b s = Done (tt, s1) ∧
           removeFromFreeList b s1 = Done (tt, s2) ∧
           m_free_list_head s2 = m_free_list_head s ∧
           (∀ a, a ≠ b → cells s2 !! a = cells s !! a) ∧
           cells s2 !! b = Some (mkBlockHeader (size hb) true (m_free_list_head s) None).
Proof.
  intros Hdll Hb Hcb Hib Hin.
  pose proof (dll_head _ _ _ Hdll) as Hhd.
  assert (in_pool_opt s (m_free_list_head s)) as Hih.
  { rewrite Hhd. destruct fl as [|y fl]; simpl; [done|]. apply Hin. left. }
  assert (m_free_list_head s ≠ Some b) as Hne.
  { rewrite Hhd. by intros ?%head_Some_elem_of. }
  set (hb1 := mkBlockHeader (size hb) true (m_free_list_head s) None).
  assert (pushed_cells b (m_free_list_head s) (cells s) !! b = Some hb1) as Hcb1.
  { unfold pushed_cells. erewrite lookup_upd_opt_Some; [|by rewrite lookup_upd_same].
    rewrite decide_False by done. by rewrite !lookup_upd_same, Hcb. }
  eexists _, _. split; [by apply addToFreeList_Done|].
  split; [|split; [|split]].
  - by apply (removeFromFreeList_Done _ _ hb1).
  - done.
  - intros a Ha. simpl. unfold unlink, pushed_cells. simpl.
    destruct (m_free_list_head s) as [p|] eqn:Ep; simpl.
    + rewrite !lookup_upd. repeat case_decide; subst; try done.
      destruct fl as [|y fl]; [done|]. simpl in Hhd. injection Hhd as <-.
      destruct (dll_cell _ _ _ [] a fl Hdll eq_refl) as (ha & Ha' & _ & Hpv).
      rewrite Ha'. simpl. destruct ha. simpl in *. by subst.
    + by rewrite !lookup_upd_ne.
  - simpl. unfold unlink. simpl.
    destruct (m_free_list_head s) as [p|] eqn:Ep; simpl.
    + rewrite lookup_upd_ne by congruence. done.
    + done.
Qed.

(** *** The free list as print_free_list shows it *)

Lemma snapshot_fst m fl : (snapshot m fl).*1 = fl.
Proof. induction fl as [|a fl IH]; [done|]. simpl. by f_equal. Qed.

Lemma snapshot_perm m (l l' : list Z) : l ≡ₚ l' → snapshot m l ≡ₚ snapshot m l'.
Proof. intros H. unfold snapshot. by rewrite H. Qed.

Lemma elem_of_free_pairs a sz bl : (a, sz) ∈ free_pairs bl ↔ Blk a sz true ∈ bl.
Proof.
  induction bl as [|[b bsz f] bl IH]; simpl.
  - split; by intros ?%elem_of_nil.
  - destruct f; simpl.
    + rewrite !elem_of_cons, IH.
      split; (intros [[= -> ->]|?]; [by left|by right]).
    + rewrite elem_of_cons, IH. split; [by right|]. by intros [[=]|?].
Qed.

Lemma wf_snapshot b0 s bl fl :
  wf b0 s bl fl → snapshot (cells s) fl ≡ₚ free_pairs bl.
Proof.
  intros Hwf. rewrite (snapshot_perm _ _ _ (wf_free _ _ _ _ Hwf)).
  by rewrite (snapshot_free_pairs _ _ (wf_agrees _ _ _ _ Hwf)).
Qed.

(** X5.  On an allocator that satisfies the invariant [print_free_list]
    terminates, changes nothing, and shows the free list in list order:
    every free block of the pool exactly once, with its size, and nothing
    else. *)
Theorem X5_print_free_list_shows_free_blocks b0 s bl fl :
  wf b0 s bl fl →
  ∃ l, print_free_list s = Done (l, s) ∧ l.*1 = fl ∧ NoDup l.*1 ∧
       pool_blocks s = Some bl ∧
       ∀ a sz, (a, sz) ∈ l ↔ Blk a sz true ∈ bl.
Proof.
  intros Hwf. exists (snapshot (cells s) fl).
  split; [by eapply print_free_list_spec|].
  split; [apply snapshot_fst|].
  split; [rewrite snapshot_fst; apply (wf_nodup Hwf)|].
  split; [by eapply wf_pool_blocks|].
  intros a sz. by rewrite (wf_snapshot _ _ _ _ Hwf), elem_of_free_pairs.
Qed.

(** *** allocate on requests whose total is a size_t value *)

(** X6.  First fit: [allocate n] returns the address just after the header
    of the first block, in the order [print_free_list] shows, whose size is
    at least [n] plus one header, and [nullptr] when the list holds no such
    block. *)
Theorem X6_allocate_is_first_fit b0 s bl fl n :
  wf b0 s bl fl → 0 < n → n + header_size < wmod →
  ∃ l r s', print_free_list s = Done (l, s) ∧
            allocate n s = Done (r, s') ∧
            r = (λ x, x.1 + header_size) <$> first_fit (n + header_size) l.
Proof.
  intros Hwf Hn Hovf.
  destruct (allocate_first_fit _ _ _ _ n Hwf Hn Hovf) as (r & s' & Hrun & Hpr & Hr).
  by exists (snapshot (cells s) fl), r, s'.
Qed.

(** X7.  [allocate n] fails exactly when every free block of the pool is
    smaller than [n] plus one header, and a failed call leaves the
    allocator as it was. *)
Theorem X7_allocate_fails_iff_no_block_fits b0 s bl fl n :
  wf b0 s bl fl → 0 < n → n + header_size < wmod →
  ∃ r s', allocate n s = Done (r, s') ∧
          (r = None ↔ ∀ a sz, Blk a sz true ∈ bl → sz < n + header_size) ∧
          (r = None → s' = s).
Proof.
  intros Hwf Hn Hovf.
  destruct (allocate_spec b0 s bl fl n Hwf Hn Hovf) as (r & s' & Hrun & Hpost).
  exists r, s'. split; [done|].
  destruct Hpost as [Hsmall|l1 c csz l2 B1 B2 hc s' -> -> Hl1 Hc Hfit Hsp -> Hwf'
                    |l1 c csz l2 B1 B2 hc s' -> -> Hl1 Hc Hfit Hsp -> Hwf'].
  - split; [|done]. split; [|done]. intros _ a sz Hin.
    destruct (Hsmall a) as (h & Hh & Hlt).
    { rewrite (wf_free _ _ _ _ Hwf). apply elem_of_free_addrs. by exists sz. }
    destruct (wf_block_cell Hwf _ Hin) as (h' & Hh' & Hsz & _). simpl in *.
    rewrite Hh in Hh'. injection Hh' as <-. lia.
  - split; [|done]. split; [done|]. intros Hall.
    assert (csz < n + header_size); [|lia].
    apply (Hall c). apply elem_of_app. right. left.
  - split; [|done]. split; [done|]. intros Hall.
    assert (csz < n + header_size); [|lia].
    apply (Hall c). apply elem_of_app. right. left.
Qed.

(** X8.  Giving back at once the pointer [allocate n] returned restores
    the pool: the blocks found by walking it are those before the call,
    and [print_free_list] shows the same free blocks, in a possibly
    different order, so the same number of free bytes. *)
Theorem X8_allocate_then_deallocate_restores b0 s bl fl n u s' :
  wf b0 s bl fl → 0 < n → n + header_size < wmod →
  allocate n s = Done (Some u, s') →
  ∃ s'' l l'',
    deallocate (Some u) s' = Done (tt, s'') ∧
    print_free_list s = Done (l, s) ∧ print_free_list s'' = Done (l'', s'') ∧
    l'' ≡ₚ l ∧ free_bytes l'' = free_bytes l ∧
    pool_blocks s = Some bl ∧ pool_blocks s'' = Some bl.
Proof.
  intros Hwf Hn Hovf Hrun.
  destruct (allocate_deallocate_round_trip _ _ _ _ _ _ _ Hwf Hn Hovf Hrun)
    as (s'' & fl'' & Hrun2 & Hwf'' & Hperm).
  exists s'', (snapshot (cells s) fl), (snapshot (cells s'') fl'').
  split; [done|]. split; [by eapply print_free_list_spec|].
  split; [by eapply print_free_list_spec|].
  split; [by rewrite (wf_snapshot _ _ _ _ Hwf), (wf_snapshot _ _ _ _ Hwf'')|].
  split; [by rewrite (wf_free_bytes _ _ _ _ Hwf), (wf_free_bytes _ _ _ _ Hwf'')|].
  split; by eapply wf_pool_blocks.
Qed.

(** *** What every sequence of calls preserves *)

Lemma contig_bytes a bl e : contig a bl e → blocks_bytes bl = e - a.
Proof.
  revert a. induction bl as [|x bl IH]; intros a; unfold blocks_bytes in *; simpl;
    [lia|].
  intros (_ & _ & Hc%IH). lia.
Qed.

Lemma contig_sizes a bl e : contig a bl e → Forall (λ x, header_size ≤ bsize x) bl.
Proof.
  revert a. induction bl as [|x bl IH]; intros a; simpl; [done|].
  intros (_ & ? & Hc%IH). by apply Forall_cons.
Qed.

(** X9.  After the constructor and any sequence of calls of [allocate],
    with totals that are [size_t] values, and of [deallocate] on pointers
    that are outstanding, the blocks tile the pool: they follow each other
    from the start of the pool to its end, each holds at least a header,
    their sizes add up to the pool size, no two adjacent ones are free,
    the free list holds exactly the free ones, and the allocated ones are
    exactly those of the outstanding pointers. *)
Theorem X9_reachable_states_are_tiled b0 s P :
  reachable b0 s P →
  ∃ bl l, pool_blocks s = Some bl ∧
          contig b0 bl (b0 + m_pool_size s) ∧
          Forall (λ x, header_size ≤ bsize x) bl ∧
          blocks_bytes bl = m_pool_size s ∧
          no_adjacent_free bl = true ∧
          print_free_list s = Done (l, s) ∧ l ≡ₚ free_pairs bl ∧
          ∀ u, u ∈ P ↔ ∃ sz, Blk (u - header_size) sz false ∈ bl.
Proof.
  intros (bl & fl & Hwf & HP)%reachable_wf.
  pose proof (wf_contig _ _ _ _ Hwf) as Hct.
  exists bl, (snapshot (cells s) fl).
  split; [by eapply wf_pool_blocks|]. split; [done|].
  split; [by eapply contig_sizes|].
  split; [rewrite (contig_bytes _ _ _ Hct); lia|].
  split; [apply Hwf|]. split; [by eapply print_free_list_spec|].
  split; [by eapply wf_snapshot|].
  intros u. by rewrite HP, elem_of_used_addrs.
Qed.

(** *** Allocated blocks do not overlap and are accounted for *)

Lemma used_blocks_app l1 l2 : used_blocks (l1 ++ l2) = used_blocks l1 ++ used_blocks l2.
Proof.
  induction l1 as [|x l1 IH]; simpl; [done|]. rewrite IH. by destruct (bfree x).
Qed.

Lemma free_total_app l1 l2 : free_total (l1 ++ l2) = free_total l1 + free_total l2.
Proof.
  induction l1 as [|x l1 IH]; unfold free_total in *; simpl; [done|].
  rewrite IH. destruct (bfree x); lia.
Qed.

(** The blocks after a successful [allocate]: the free block [c] gave way
    to an allocated block of [sz] bytes at the same address, followed by
    the remainder [R] when the block was split. *)
Lemma allocate_blocks b0 s bl fl n u s' :
  wf b0 s bl fl → 0 < n → n + header_size < wmod →
  allocate n s = Done (Some u, s') →
  ∃ B1 c csz sz R B2 fl',
    bl = B1 ++ Blk c csz true :: B2 ∧ u = c + header_size ∧
    wf b0 s' (B1 ++ Blk c sz false :: R ++ B2) fl' ∧
    n + header_size ≤ sz ∧ sz ≤ n + header_size + header_size ∧ sz ≤ csz ∧
    used_blocks R = [] ∧ free_total R = csz - sz.
Proof.
  intros Hwf Hn Hovf Hrun.
  destruct (allocate_spec b0 s bl fl n Hwf Hn Hovf) as (r & s1 & Hrun' & Hpost).
  rewrite Hrun in Hrun'. injection Hrun' as <- <-.
  inversion Hpost as [|l1 c csz l2 B1 B2 hc s1 Hfl Hbl Hl1 Hc Hfit Hsp Hs' Hwf' Hu Hs1
                      |l1 c csz l2 B1 B2 hc s1 Hfl Hbl Hl1 Hc Hfit Hsp Hs' Hwf' Hu Hs1].
  - exists B1, c, csz, (n + header_size),
      [Blk (c + (n + header_size)) (csz - (n + header_size)) true], B2,
      (l1 ++ (c + (n + header_size)) :: l2).
    unfold free_total. simpl. split_and!; try done; lia.
  - exists B1, c, csz, csz, [], B2, (l1 ++ l2).
    unfold free_total. simpl. split_and!; try done; lia.
Qed.

(** X10.  The memory [allocate] hands out is fresh: the pointer is not an
    outstanding one, the [n] bytes it points at lie inside the pool behind
    a header of their own, and neither they nor that header overlap an
    outstanding block; the headers of the outstanding blocks keep their
    size and stay marked allocated. *)
Theorem X10_allocated_memory_is_fresh b0 s P n u s' :
  reachable b0 s P → 0 < n → n + header_size < wmod →
  allocate n s = Done (Some u, s') →
  (u ∉ P) ∧
  b0 + header_size ≤ u ∧ u + n ≤ b0 + m_pool_size s ∧
  ∀ q, q ∈ P →
    ∃ qsz, extent <$> cells s !! (q - header_size) = Some (qsz, false) ∧
           extent <$> cells s' !! (q - header_size) = Some (qsz, false) ∧
           (q - header_size + qsz ≤ u - header_size ∨ u + n ≤ q - header_size).
Proof.
  intros (bl & fl & Hwf & HP)%reachable_wf Hn Hovf Hrun.
  destruct (allocate_blocks _ _ _ _ _ _ _ Hwf Hn Hovf Hrun)
    as (B1 & c & csz & sz & R & B2 & fl' & -> & -> & Hwf' & Hlo & Hhi & Hle & _ & _).
  pose proof (wf_contig _ _ _ _ Hwf) as Hct.
  assert (Blk c csz true ∈ B1 ++ Blk c csz true :: B2) as Hcin.
  { apply elem_of_app. right. left. }
  pose proof (wf_block_bounds Hwf _ Hcin) as Hcb. simpl in Hcb.
  split; [|split; [lia|split; [lia|]]].
  - intros (z & Hz)%HP%elem_of_used_addrs.
    replace (c + header_size - header_size) with c in Hz by lia.
    by pose proof (contig_addr_inj _ _ _ _ _ Hct Hz Hcin eq_refl).
  - intros q (qsz & Hq)%HP%elem_of_used_addrs. exists qsz.
    destruct (wf_block_cell Hwf _ Hq) as (h & Hh & Hsz & Hf). simpl in Hh, Hsz, Hf.
    assert (Blk (q - header_size) qsz false ∈ B1 ∨
            Blk (q - header_size) qsz false ∈ B2) as Hside.
    { apply elem_of_app in Hq as [?|[[=]|?]%elem_of_cons]; [by left|by right]. }
    assert (Blk (q - header_size) qsz false ∈ B1 ++ Blk c sz false :: R ++ B2) as Hq'.
    { apply elem_of_app. destruct Hside; [by left|].
      right. right. apply elem_of_app. by right. }
    destruct (wf_block_cell Hwf' _ Hq') as (h' & Hh' & Hsz' & Hf').
    simpl in Hh', Hsz', Hf'.
    split; [rewrite Hh; unfold extent; simpl; by rewrite Hsz, Hf|].
    split; [rewrite Hh'; unfold extent; simpl; by rewrite Hsz', Hf'|].
    apply contig_mid in Hct as (H1 & _ & H2). simpl in H1, H2.
    destruct Hside as [Hs|Hs].
    + apply (contig_elem _ _ _ _ H1) in Hs. simpl in Hs. left. lia.
    + apply (contig_elem _ _ _ _ H2) in Hs. simpl in Hs. right. lia.
Qed.

(** The blocks after [deallocate]: the allocated ones are the old ones
    without the freed block. *)
Lemma deallocate_blocks b0 s bl fl b sz :
  wf b0 s bl fl → Blk b sz false ∈ bl →
  ∃ s' bl' fl' U1 U2,
    deallocate (Some (b + header_size)) s = Done (tt, s') ∧
    wf b0 s' bl' fl' ∧
    used_blocks bl = U1 ++ Blk b sz false :: U2 ∧ used_blocks bl' = U1 ++ U2 ∧
    free_total bl' = free_total bl + sz.
Proof.
  intros Hwf Hin.
  destruct (deallocate_spec b0 s bl fl _ _ Hwf Hin)
    as (s' & bl' & fl' & Hrun & Hwf' & Hpost).
  pose proof (wf_contig _ _ _ _ Hwf) as Hct.
  assert (∀ B1 z B2, bl = B1 ++ Blk b z false :: B2 → z = sz) as Hz.
  { intros B1 z B2 ->.
    assert (Blk b z false ∈ B1 ++ Blk b z false :: B2) as Hin'.
    { apply elem_of_app. right. left. }
    by injection (contig_addr_inj _ _ _ _ _ Hct Hin Hin' eq_refl). }
  destruct Hpost as [B1 z B2 Hbl _ _|B1 z rsz B2 k1 k2 Hbl -> _ _
                    |B1 l lsz z B2 Hbl _|B1 l lsz z rsz B2 k1 k2 Hbl -> _].
  - pose proof (Hz _ _ _ Hbl) as ->. subst bl.
    eexists s', _, _, (used_blocks B1), (used_blocks B2).
    split; [done|]. split; [exact Hwf'|].
    rewrite !used_blocks_app, !free_total_app. unfold free_total. simpl.
    rewrite ?app_nil_r. split_and!; try done; lia.
  - pose proof (Hz _ _ _ Hbl) as ->. subst bl.
    eexists s', _, _, (used_blocks B1), (used_blocks B2).
    split; [done|]. split; [exact Hwf'|].
    rewrite !used_blocks_app, !free_total_app. unfold free_total. simpl.
    rewrite ?app_nil_r. split_and!; try done; lia.
  - rewrite (cons_middle (Blk l lsz true)), app_assoc in Hbl.
    pose proof (Hz _ _ _ Hbl) as ->. subst bl.
    eexists s', _, _, (used_blocks B1), (used_blocks B2).
    split; [done|]. split; [exact Hwf'|].
    rewrite !used_blocks_app, !free_total_app. unfold free_total. simpl.
    rewrite ?app_nil_r. split_and!; try done; lia.
  - rewrite (cons_middle (Blk l lsz true)), app_assoc in Hbl.
    pose proof (Hz _ _ _ Hbl) as ->. subst bl.
    eexists s', _, _, (used_blocks B1), (used_blocks B2).
    split; [done|]. split; [exact Hwf'|].
    rewrite !used_blocks_app, !free_total_app. unfold free_total. simpl.
    rewrite ?app_nil_r. split_and!; try done; lia.
Qed.

(** X11.  [deallocate] of the pointer to an allocated block of [sz] bytes
    frees that block and no other: the allocated blocks of the pool
    afterwards are the old ones without it, and the free bytes grow by
    exactly [sz]. *)
Theorem X11_deallocate_frees_one_block b0 s bl fl b sz :
  wf b0 s bl fl → Blk b sz false ∈ bl →
  ∃ s' bl' U1 U2,
    deallocate (Some (b + header_size)) s = Done (tt, s') ∧
    pool_blocks s = Some bl ∧ pool_blocks s' = Some bl' ∧
    used_blocks bl = U1 ++ Blk b sz false :: U2 ∧ used_blocks bl' = U1 ++ U2 ∧
    free_total bl' = free_total bl + sz.
Proof.
  intros Hwf Hin.
  destruct (deallocate_blocks _ _ _ _ _ _ Hwf Hin)
    as (s' & bl' & fl' & U1 & U2 & Hrun & Hwf' & HU & HU' & Hfree).
  exists s', bl', U1, U2. split_and!; try done; by eapply wf_pool_blocks.
Qed.

(** X12.  A successful [allocate n] takes one block out of the free bytes:
    the allocated blocks afterwards are the old ones and a new one at the
    address of the returned pointer's header, whose size is at least [n]
    plus one header and at most [n] plus two headers, and the free bytes
    shrink by exactly that size. *)
Theorem X12_allocate_takes_one_block b0 s bl fl n u s' :
  wf b0 s bl fl → 0 < n → n + header_size < wmod →
  allocate n s = Done (Some u, s') →
  ∃ bl' sz U1 U2,
    pool_blocks s = Some bl ∧ pool_blocks s' = Some bl' ∧
    n + header_size ≤ sz ∧ sz ≤ n + 2 * header_size ∧
    used_blocks bl = U1 ++ U2 ∧
    used_blocks bl' = U1 ++ Blk (u - header_size) sz false :: U2 ∧
    free_total bl' = free_total bl - sz.
Proof.
  intros Hwf Hn Hovf Hrun.
  destruct (allocate_blocks _ _ _ _ _ _ _ Hwf Hn Hovf Hrun)
    as (B1 & c & csz & sz & R & B2 & fl' & -> & -> & Hwf' & Hlo & Hhi & Hle & HR & HRf).
  exists (B1 ++ Blk c sz false :: R ++ B2), sz, (used_blocks B1), (used_blocks B2).
  rewrite (cons_middle (Blk c sz false)), !used_blocks_app, !free_total_app, HR, HRf.
  unfold free_total. simpl. rewrite Z.add_simpl_r.
  split_and!; try done; [by eapply wf_pool_blocks..|lia|lia].
Qed.

(** *** Returning everything *)

Lemma wf_blocks_unique b0 s bl fl bl' fl' :
  wf b0 s bl fl → wf b0 s bl' fl' → bl' = bl.
Proof.
  intros H1%wf_pool_blocks H2%wf_pool_blocks. rewrite H1 in H2. by injection H2.
Qed.

Lemma reachable_nonempty b0 s P :
  reachable b0 s P → ∀ bl fl, wf b0 s bl fl → bl ≠ [].
Proof.
  induction 1 as [psz Hge Hlt|s P n r s' Hreach IH Hn Hovf Hrun
                 |s P u s' Hreach IH Hu Hrun|s P s' _ IH Hrun]; intros bl' fl' Hwf'.
  - by rewrite (wf_blocks_unique _ _ _ _ _ _ (construct_wf _ _ Hge Hlt) Hwf').
  - destruct (decide (n = 0)) as [->|Hn0].
    { unfold allocate in Hrun. simpl in Hrun. injection Hrun as <- <-. by eapply IH. }
    destruct (reachable_wf _ _ _ Hreach) as (bl & fl & Hwf & _).
    destruct (allocate_spec b0 s bl fl n Hwf) as (r' & s'' & Hrun' & Hpost);
      [lia|done|].
    rewrite Hrun in Hrun'. injection Hrun' as <- <-.
    destruct Hpost as [Hsmall|l1 c csz l2 B1 B2 hc s' -> -> Hl1 Hc Hfit Hsp -> Hwf1
                      |l1 c csz l2 B1 B2 hc s' -> -> Hl1 Hc Hfit Hsp -> Hwf1].
    + by eapply IH.
    + rewrite (wf_blocks_unique _ _ _ _ _ _ Hwf1 Hwf'). by destruct B1.
    + rewrite (wf_blocks_unique _ _ _ _ _ _ Hwf1 Hwf'). by destruct B1.
  - destruct (reachable_wf _ _ _ Hreach) as (bl & fl & Hwf & HP).
    pose proof (proj1 (HP u) Hu) as Hin.
    apply elem_of_used_addrs in Hin as (sz & Hin).
    destruct (deallocate_spec b0 s bl fl _ _ Hwf Hin)
      as (s'' & bl1 & fl1 & Hrun' & Hwf1 & Hpost).
    replace (u - header_size + header_size) with u in Hrun' by lia.
    rewrite Hrun in Hrun'. injection Hrun' as <-.
    rewrite (wf_blocks_unique _ _ _ _ _ _ Hwf1 Hwf').
    destruct Hpost as [B1 z B2 -> _ _|B1 z rsz B2 k1 k2 -> -> _ _
                      |B1 l lsz z B2 -> _|B1 l lsz z rsz B2 k1 k2 -> -> _];
      by destruct B1.
  - unfold deallocate in Hrun. injection Hrun as <-. by eapply IH.
Qed.

Lemma all_free_single a bl e :
  contig a bl e → bl ≠ [] → used_addrs bl = [] → no_adjacent_free bl = true →
  bl = [Blk a (e - a) true].
Proof.
  destruct bl as [|[b sz f] bl]; [done|]. simpl.
  intros (-> & Hs & Hc) _ Hu Hn. destruct f; [|done].
  destruct bl as [|[b' sz' f'] bl].
  - simpl in Hc. subst e. f_equal. f_equal. lia.
  - simpl in Hu, Hn. by destruct f'.
Qed.

(** X13.  When every pointer has been given back, in whatever order, the
    pool is again one free block of the full pool size at the start of the
    pool, as the constructor left it: no fragmentation outlives the
    allocations. *)
Theorem X13_all_returned_is_one_free_block b0 s :
  reachable b0 s ∅ →
  pool_blocks s = Some [Blk b0 (m_pool_size s) true] ∧
  print_free_list s = Done ([(b0, m_pool_size s)], s).
Proof.
  intros Hreach.
  destruct (reachable_wf _ _ _ Hreach) as (bl & fl & Hwf & HP).
  pose proof (reachable_nonempty _ _ _ Hreach _ _ Hwf) as Hne.
  assert (used_addrs bl = []) as Hu.
  { destruct (used_addrs bl) as [|a l] eqn:E; [done|].
    destruct (elem_of_empty (C := gset Z) (a + header_size)) as [[] _].
    apply HP. rewrite Z.add_simpl_r. left. }
  pose proof (all_free_single _ _ _ (wf_contig _ _ _ _ Hwf) Hne Hu (wf_naf _ _ _ _ Hwf))
    as Hbl.
  replace (b0 + m_pool_size s - b0) with (m_pool_size s) in Hbl by lia. subst bl.
  split; [by eapply wf_pool_blocks|].
  rewrite (print_free_list_spec _ _ _ _ Hwf).
  pose proof (wf_free _ _ _ _ Hwf) as Hp. simpl in Hp.
  apply Permutation_singleton_r in Hp. subst fl.
  by rewrite (snapshot_free_addrs _ _ _ _ Hwf eq_refl).
Qed.

(** *** The freed block is the next one handed out *)

Lemma allocate_head_fits b0 s bl c l2 csz n :
  wf b0 s bl (c :: l2) → Blk c csz true ∈ bl →
  0 < n → n + header_size ≤ csz →
  ∃ s', allocate n s = Done (Some (c + header_size), s').
Proof.
  intros Hwf Hin Hn Hfit.
  pose proof (wf_block_bounds Hwf _ Hin) as Hb. simpl in Hb.
  pose proof (wf_psize _ _ _ _ Hwf) as Hps.
  destruct (allocate_first_fit _ _ _ _ n Hwf Hn) as (r & s' & Hrun & _ & Hr); [lia|].
  destruct (wf_block_cell Hwf _ Hin) as (h & Hh & Hsz & _). simpl in Hh, Hsz.
  unfold first_fit in Hr. simpl in Hr. rewrite Hh in Hr. simpl in Hr.
  rewrite Hsz, (proj2 (Z.leb_le _ _) Hfit) in Hr. simpl in Hr. subst r.
  by exists s'.
Qed.

(** X14.  The free list is last in, first out: when the block just before
    an allocated block of [sz] bytes is not free, giving the block back
    puts it at the head of the list, so the next request that fits in
    [sz] bytes gets the very same pointer again. *)
Theorem X14_freed_block_is_reused b0 s B1 b sz B2 fl n :
  wf b0 s (B1 ++ Blk b sz false :: B2) fl → last_free B1 = false →
  0 < n → n + header_size ≤ sz →
  ∃ s' s'' l, deallocate (Some (b + header_size)) s = Done (tt, s') ∧
              print_free_list s' = Done (l, s') ∧ head l.*1 = Some b ∧
              allocate n s' = Done (Some (b + header_size), s'').
Proof.
  intros Hwf Hlf Hn Hfit.
  assert (∃ s' bl' fl' sz', deallocate (Some (b + header_size)) s = Done (tt, s') ∧
            wf b0 s' bl' (b :: fl') ∧ Blk b sz' true ∈ bl' ∧ sz ≤ sz')
    as (s' & bl' & fl' & sz' & Hrun & Hwf' & Hin' & Hle).
  { destruct (first_free B2) eqn:Hff.
    - destruct B2 as [|[r rsz rf] B2]; [done|]. simpl in Hff. subst rf.
      assert (r ∈ fl) as (k1 & k2 & ->)%list_elem_of_split.
      { rewrite (wf_free _ _ _ _ Hwf). apply elem_of_free_addrs. exists rsz.
        apply elem_of_app. right. right. left. }
      destruct (deallocate_right _ _ _ _ _ _ _ _ _ _ Hwf Hlf) as (s' & Hrun & Hwf').
      assert (header_size ≤ rsz) as Hb.
      { apply (wf_block_bounds Hwf (Blk r rsz true)).
        apply elem_of_app. right. right. left. }
      exists s', (B1 ++ Blk b (sz + rsz) true :: B2), (k1 ++ k2), (sz + rsz).
      split_and!; [done|done| |lia]. apply elem_of_app. right. left.
    - destruct (deallocate_alone _ _ _ _ _ _ _ Hwf Hlf Hff) as (s' & Hrun & Hwf').
      exists s', (B1 ++ Blk b sz true :: B2), fl, sz.
      split_and!; [done|done| |lia]. apply elem_of_app. right. left. }
  destruct (allocate_head_fits _ _ _ _ _ _ n Hwf' Hin' Hn) as (s'' & Hrun2); [lia|].
  exists s', s'', (snapshot (cells s') (b :: fl')).
  split; [done|]. split; [by eapply print_free_list_spec|]. by split.
Qed.

(** *** What no call changes *)

Lemma keeps_ret {A} (a : A) : keeps_pool (ret a).
Proof. by intros s x s' [= _ <-]. Qed.

Lemma keeps_bind {A B} (m : M A) (k : A → M B) :
  keeps_pool m → (∀ a, keeps_pool (k a)) → keeps_pool (bind m k).
Proof.
  intros Hm Hk s b s'. unfold bind.
  destruct (m s) as [[a s1]| |] eqn:E; [|done..].
  intros [H1 H2]%Hk. destruct (Hm _ _ _ E) as [H3 H4]. split; congruence.
Qed.

Lemma read_only_keeps {A} (m : M A) : read_only m → keeps_pool m.
Proof. intros Hm s a s' ->%Hm. done. Qed.

Lemma read_only_ret {A} (a : A) : read_only (ret a).
Proof. by intros s x s' [= _ <-]. Qed.

Lemma read_only_bind {A B} (m : M A) (k : A → M B) :
  read_only m → (∀ a, read_only (k a)) → read_only (bind m k).
Proof.
  intros Hm Hk s b s'. unfold bind.
  destruct (m s) as [[a s1]| |] eqn:E; [|done..].
  intros ->%Hk. by apply Hm in E.
Qed.

Lemma read_only_load a : read_only (load a).
Proof. intros s h s'. unfold load. destruct (cells s !! a); [|done]. by intros [= _ <-]. Qed.

Lemma keeps_store a f : keeps_pool (store a f).
Proof. intros s x s'. unfold store. destruct (in_pool s a); [|done]. by intros [= _ <-]. Qed.

Lemma read_only_get_head : read_only get_head.
Proof. by intros s x s' [= _ <-]. Qed.

Lemma keeps_set_head p : keeps_pool (set_head p).
Proof. by intros s x s' [= _ <-]. Qed.

Lemma read_only_pool_end : read_only pool_end.
Proof.
  intros s x s'. unfold pool_end. destruct (m_memory_pool s); [|done]. by intros [= _ <-].
Qed.

Lemma read_only_loop_fuel : read_only loop_fuel.
Proof. by intros s x s' [= _ <-]. Qed.

Lemma read_only_diverge {A} : read_only (@diverge A).
Proof. by intros s x s'. Qed.

Ltac frame_step :=
  first
    [ apply read_only_ret | apply read_only_load | apply read_only_get_head
    | apply read_only_pool_end | apply read_only_loop_fuel | apply read_only_diverge
    | apply read_only_bind; [|intros ?]
    | apply keeps_ret | apply keeps_store | apply keeps_set_head
    | apply keeps_bind; [|intros ?]
    | apply read_only_keeps
    | match goal with
      | |- context [match ?x with _ => _ end] => destruct x
      end ].

Lemma read_only_get_size a : read_only (get_size a).
Proof. unfold get_size. repeat frame_step. Qed.
Lemma read_only_get_is_free a : read_only (get_is_free a).
Proof. unfold get_is_free. repeat frame_step. Qed.
Lemma read_only_get_next a : read_only (get_next a).
Proof. unfold get_next. repeat frame_step. Qed.
Lemma read_only_get_prev a : read_only (get_prev a).
Proof. unfold get_prev. repeat frame_step. Qed.


Lemma keeps_removeFromFreeList c : keeps_pool (removeFromFreeList c).
Proof.
  unfold removeFromFreeList, set_next, set_prev.
  apply keeps_bind; [apply read_only_keeps, read_only_get_prev|intros pv].
  apply keeps_bind.
  { destruct pv; (apply keeps_bind; [apply read_only_keeps, read_only_get_next|intros nx]);
      [apply keeps_store|apply keeps_set_head]. }
  intros _. apply keeps_bind; [apply read_only_keeps, read_only_get_next|intros nx].
  destruct nx; [|apply keeps_ret].
  apply keeps_bind; [apply read_only_keeps, read_only_get_prev|intros pv'].
  apply keeps_store.
Qed.

Lemma keeps_addToFreeList b : keeps_pool (addToFreeList b).
Proof.
  unfold addToFreeList, set_is_free, set_next, set_prev.
  apply keeps_bind; [apply keeps_store|intros _].
  apply keeps_bind; [apply read_only_keeps, read_only_get_head|intros hd].
  apply keeps_bind; [apply keeps_store|intros _].
  apply keeps_bind; [apply keeps_store|intros _].
  apply keeps_bind; [apply read_only_keeps, read_only_get_head|intros hd'].
  apply keeps_bind; [|intros _; apply keeps_set_head].
  destruct hd'; [apply keeps_store|apply keeps_ret].
Qed.




Lemma keeps_coalesce_left b fuel : ∀ current,
  keeps_pool (coalesce_left fuel b current).
Proof.
  induction fuel as [|fuel IH]; intros [c|]; simpl;
    try apply read_only_keeps, read_only_diverge; try apply keeps_ret.
  apply keeps_bind; [apply read_only_keeps, read_only_get_size|intros csz].
  destruct (c + csz =? b).
  - apply keeps_bind; [apply read_only_keeps, read_only_get_size|intros csz'].
    apply keeps_bind; [apply read_only_keeps, read_only_get_size|intros bsz].
    apply keeps_bind; [apply keeps_store|intros _]. apply keeps_ret.
  - apply keeps_bind; [apply read_only_keeps, read_only_get_next|intros nx]. apply IH.
Qed.

Lemma keeps_coalesce_right b : keeps_pool (coalesce_right b).
Proof.
  unfold coalesce_right.
  apply keeps_bind; [apply read_only_keeps, read_only_get_size|intros bsz].
  apply keeps_bind; [apply read_only_keeps, read_only_pool_end|intros pend].
  apply keeps_bind.
  { destruct (_ <? pend); apply read_only_keeps;
      [apply read_only_get_is_free|apply read_only_ret]. }
  intros [|]; [|apply keeps_ret].
  apply keeps_bind; [apply read_only_keeps, read_only_get_size|intros bsz'].
  apply keeps_bind; [apply read_only_keeps, read_only_get_size|intros nsz].
  apply keeps_bind; [apply keeps_store|intros _]. apply keeps_removeFromFreeList.
Qed.

Lemma keeps_deallocate p : keeps_pool (deallocate p).
Proof.
  destruct p as [u|]; simpl; [|apply keeps_ret].
  apply keeps_bind; [apply keeps_coalesce_right|intros _].
  apply keeps_bind; [apply read_only_keeps, read_only_get_head|intros hd].
  apply keeps_bind; [apply read_only_keeps, read_only_loop_fuel|intros fuel].
  apply keeps_bind; [apply keeps_coalesce_left|intros [|]];
    [apply keeps_ret|apply keeps_addToFreeList].
Qed.


(** *** The layout of the pool depends on the allocated blocks only *)

Lemma used_addrs_blocks bl : used_addrs bl = baddr <$> used_blocks bl.
Proof.
  induction bl as [|x bl IH]; simpl; [done|]. destruct (bfree x); simpl; by rewrite IH.
Qed.

Lemma elem_of_used_blocks x bl : x ∈ used_blocks bl ↔ x ∈ bl ∧ bfree x = false.
Proof.
  induction bl as [|y bl IH]; simpl.
  - split; [by intros ?%elem_of_nil|]. by intros [?%elem_of_nil _].
  - destruct (bfree y) eqn:E.
    + rewrite IH, elem_of_cons.
      split; [intros [? ?]; split; [by right|done]|].
      intros [[->|?] ?]; [congruence|done].
    + rewrite !elem_of_cons, IH.
      split; [intros [->|[? ?]]; [by split; [left|]|split; [by right|done]]|].
      intros [[->|?] ?]; [by left|by right].
Qed.

(** The blocks of [l] other than the one at address [b]. *)
Lemma without_mid (U1 U2 : list blk) x :
  NoDup (baddr <$> (U1 ++ x :: U2)) →
  List.filter (λ y, negb (baddr y =? baddr x)) (U1 ++ x :: U2) = U1 ++ U2.
Proof.
  rewrite fmap_app, fmap_cons.
  intros (_ & Hd & [Hx _]%NoDup_cons)%NoDup_app.
  assert (∀ U : list blk, baddr x ∉ baddr <$> U →
            List.filter (λ y, negb (baddr y =? baddr x)) U = U) as Hkeep.
  { induction U as [|y U IH]; simpl; [done|].
    rewrite not_elem_of_cons. intros [Hne HU].
    rewrite (proj2 (Z.eqb_neq _ _)) by done. simpl. by rewrite IH. }
  rewrite List.filter_app. simpl. rewrite Z.eqb_refl. simpl.
  rewrite !Hkeep; [done|done|]. intros Hin. apply (Hd _ Hin). left.
Qed.

Lemma without_comm (b1 b2 : Z) (l : list blk) :
  List.filter (λ y, negb (baddr y =? b2)) (List.filter (λ y, negb (baddr y =? b1)) l) =
  List.filter (λ y, negb (baddr y =? b1)) (List.filter (λ y, negb (baddr y =? b2)) l).
Proof.
  induction l as [|x l IH]; simpl; [done|].
  destruct (baddr x =? b1) eqn:E1, (baddr x =? b2) eqn:E2; simpl;
    rewrite ?E1, ?E2; simpl; by rewrite IH.
Qed.

(** Two tilings of the same range with the same allocated blocks and no
    adjacent free blocks are the same tiling. *)
Lemma layout_unique bl : ∀ a bl' e,
  contig a bl e → contig a bl' e →
  no_adjacent_free bl = true → no_adjacent_free bl' = true →
  used_blocks bl = used_blocks bl' → bl = bl'.
Proof.
  assert (∀ a x r e x' r',
            contig a (x :: r) e → contig a (x' :: r') e →
            no_adjacent_free (x :: r) = true →
            bfree x = true → bfree x' = true →
            used_blocks r = used_blocks r' → ¬ bsize x < bsize x') as Hlt.
  { intros a x r e x' r' (Hx & Hs & Hc) (Hx' & Hs' & Hc') Hn Hf Hf' Hu Hlt.
    pose proof (contig_le _ _ _ Hc') as Hle.
    destruct r as [|y r]; [simpl in Hc; lia|].
    simpl in Hc, Hn. rewrite Hf in Hn. simpl in Hn.
    destruct (bfree y) eqn:Ey; [done|].
    assert (y ∈ used_blocks r') as [Hy _]%elem_of_used_blocks.
    { rewrite <- Hu. simpl. rewrite Ey. left. }
    apply (contig_elem _ _ _ _ Hc') in Hy. lia. }
  induction bl as [|x r IH]; intros a bl' e Hc Hc' Hn Hn' Hu.
  { simpl in Hc. subst e. by rewrite (contig_same _ _ Hc'). }
  destruct bl' as [|x' r'].
  { simpl in Hc'. subst e. by apply contig_same in Hc. }
  pose proof Hc as (Hx & Hs & Hcr). pose proof Hc' as (Hx' & Hs' & Hcr').
  assert (no_adjacent_free r = true ∧ no_adjacent_free r' = true) as [Hnr Hnr'].
  { simpl in Hn, Hn'. by apply andb_true_iff in Hn as [_ ?], Hn' as [_ ?]. }
  simpl in Hu. destruct (bfree x) eqn:Ef, (bfree x') eqn:Ef'.
  - assert (bsize x = bsize x') as Hsz.
    { pose proof (Hlt _ _ _ _ _ _ Hc Hc' Hn Ef Ef' Hu).
      pose proof (Hlt _ _ _ _ _ _ Hc' Hc Hn' Ef' Ef (eq_sym Hu)). lia. }
    assert (x = x') as <-. { destruct x, x'; simpl in *; congruence. }
    f_equal. apply (IH (a + bsize x) r' e); done.
  - exfalso. assert (x' ∈ used_blocks r) as [Hy _]%elem_of_used_blocks.
    { rewrite Hu. left. }
    apply (contig_elem _ _ _ _ Hcr) in Hy. lia.
  - exfalso. assert (x ∈ used_blocks r') as [Hy _]%elem_of_used_blocks.
    { rewrite <- Hu. left. }
    apply (contig_elem _ _ _ _ Hcr') in Hy. lia.
  - injection Hu as <- Hu. f_equal. apply (IH (a + bsize x) r' e); done.
Qed.

Lemma deallocate_without b0 s bl fl b sz :
  wf b0 s bl fl → Blk b sz false ∈ bl →
  ∃ s' bl' fl',
    deallocate (Some (b + header_size)) s = Done (tt, s') ∧
    wf b0 s' bl' fl' ∧ m_pool_size s' = m_pool_size s ∧
    used_blocks bl' = List.filter (λ y, negb (baddr y =? b)) (used_blocks bl).
Proof.
  intros Hwf Hin.
  destruct (deallocate_blocks _ _ _ _ _ _ Hwf Hin)
    as (s' & bl' & fl' & U1 & U2 & Hrun & Hwf' & HU & HU' & _).
  exists s', bl', fl'. split; [done|]. split; [done|].
  split; [by apply (keeps_deallocate _ _ _ _ Hrun)|].
  rewrite HU', HU. symmetry. apply (without_mid U1 U2 (Blk b sz false)).
  rewrite <- HU, <- used_addrs_blocks.
  apply (NoDup_used_addrs _ _ _ (wf_contig _ _ _ _ Hwf)).
Qed.

(** X16.  Two allocated blocks can be given back in either order: both
    orders succeed and leave the same blocks in the pool, and
    [print_free_list] shows the same free blocks, possibly in a different
    order. *)
Theorem X16_deallocate_order_is_immaterial b0 s bl fl b1 sz1 b2 sz2 :
  wf b0 s bl fl → Blk b1 sz1 false ∈ bl → Blk b2 sz2 false ∈ bl → b1 ≠ b2 →
  ∃ s1 s12 s2 s21 bl' l12 l21,
    deallocate (Some (b1 + header_size)) s = Done (tt, s1) ∧
    deallocate (Some (b2 + header_size)) s1 = Done (tt, s12) ∧
    deallocate (Some (b2 + header_size)) s = Done (tt, s2) ∧
    deallocate (Some (b1 + header_size)) s2 = Done (tt, s21) ∧
    pool_blocks s12 = Some bl' ∧ pool_blocks s21 = Some bl' ∧
    print_free_list s12 = Done (l12, s12) ∧ print_free_list s21 = Done (l21, s21) ∧
    l12 ≡ₚ l21.
Proof.
  intros Hwf Hin1 Hin2 Hne.
  assert (∀ b sz b' bl', Blk b sz false ∈ bl → b ≠ b' →
            used_blocks bl' = List.filter (λ y, negb (baddr y =? b')) (used_blocks bl) →
            Blk b sz false ∈ bl') as Hstay.
  { intros b sz b' bl' Hin Hbb HU.
    assert (Blk b sz false ∈ used_blocks bl') as [? _]%elem_of_used_blocks; [|done].
    rewrite HU. apply list_elem_of_In, List.filter_In. split.
    - apply list_elem_of_In, elem_of_used_blocks. done.
    - simpl. by rewrite (proj2 (Z.eqb_neq _ _)). }
  destruct (deallocate_without _ _ _ _ _ _ Hwf Hin1)
    as (s1 & bl1 & fl1 & Hrun1 & Hwf1 & Hps1 & HU1).
  destruct (deallocate_without _ _ _ _ _ _ Hwf Hin2)
    as (s2 & bl2 & fl2 & Hrun2 & Hwf2 & Hps2 & HU2).
  destruct (deallocate_without _ _ _ _ b2 sz2 Hwf1)
    as (s12 & bl12 & fl12 & Hrun12 & Hwf12 & Hps12 & HU12).
  { by apply (Hstay b2 sz2 b1). }
  destruct (deallocate_without _ _ _ _ b1 sz1 Hwf2)
    as (s21 & bl21 & fl21 & Hrun21 & Hwf21 & Hps21 & HU21).
  { by apply (Hstay b1 sz1 b2). }
  assert (bl21 = bl12) as ->.
  { apply (layout_unique _ b0 _ (b0 + m_pool_size s)).
    - rewrite <- Hps2, <- Hps21. apply Hwf21.
    - rewrite <- Hps1, <- Hps12. apply Hwf12.
    - apply Hwf21.
    - apply Hwf12.
    - rewrite HU21, HU12, HU1, HU2. apply without_comm. }
  exists s1, s12, s2, s21, bl12, (snapshot (cells s12) fl12), (snapshot (cells s21) fl21).
  split_and!; try done.
  - by eapply wf_pool_blocks.
  - by eapply wf_pool_blocks.
  - by eapply print_free_list_spec.
  - by eapply print_free_list_spec.
  - by rewrite (wf_snapshot _ _ _ _ Hwf12), (wf_snapshot _ _ _ _ Hwf21).
Qed.

(** *** Giving the same pointer back twice *)

Lemma coalesce_left_miss b0 s bl fl b todo : ∀ dn fuel,
  wf b0 s bl fl → fl = dn ++ todo →
  (∀ c csz, Blk c csz true ∈ bl → c + csz ≠ b) →
  (length todo < fuel)%nat →
  coalesce_left fuel b (head todo) s = Done (false, s).
Proof.
  induction todo as [|c todo IH]; intros dn fuel Hwf Hfl Hmiss Hfuel;
    (destruct fuel as [|fuel]; [simpl in Hfuel; lia|]); simpl; [done|].
  assert (c ∈ fl) as Hcfl. { rewrite Hfl. apply elem_of_app. right. left. }
  destruct (wf_free_block Hwf c Hcfl) as (csz & hc & Hbin & Hc & Hsz & _ & Hic).
  destruct (wf_free_links Hwf dn c todo hc Hfl Hc) as [Hnx Hpv].
  mstep. rewrite Hsz, (proj2 (Z.eqb_neq _ _) (Hmiss _ _ Hbin)).
  mstep. rewrite Hnx. apply (IH (dn ++ [c])); [done| |done|simpl in Hfuel; lia].
  by rewrite <- app_assoc.
Qed.

(** [deallocate] on the pointer of a block that is free already, at the
    head of the free list, with no free neighbour: nothing is merged and
    the block is pushed on the list a second time. *)
Lemma deallocate_free_head b0 s B1 b sz B2 fl :
  wf b0 s (B1 ++ Blk b sz true :: B2) (b :: fl) →
  last_free B1 = false → first_free B2 = false →
  deallocate (Some (b + header_size)) s =
  Done (tt, mkAllocator (m_memory_pool s) (m_pool_size s) (Some b)
              (pushed_cells b (Some b) (cells s))).
Proof.
  intros Hwf Hlf Hff.
  assert (Blk b sz true ∈ B1 ++ Blk b sz true :: B2) as Hbin.
  { apply elem_of_app. right. left. }
  destruct (wf_block_cell Hwf _ Hbin) as (hb & Hb & Hsz & _). simpl in Hb, Hsz.
  pose proof (wf_block_in_pool Hwf _ Hbin) as Hbp. simpl in Hbp.
  pose proof (wf_pool _ _ _ _ Hwf) as Hpool.
  pose proof (wf_contig _ _ _ _ Hwf) as Hct.
  pose proof (dll_head _ _ _ (wf_dll _ _ _ _ Hwf)) as Hhd. simpl in Hhd.
  assert (coalesce_right b s = Done (tt, s)) as Hright.
  { apply contig_mid in Hct as (_ & _ & Hc2). simpl in Hc2.
    assert (pool_end s = Done (b0 + m_pool_size s, s)) as Hpe.
    { unfold pool_end. by rewrite Hpool. }
    unfold coalesce_right. mstep. rewrite Hsz.
    eapply bind_Done; [apply Hpe|].
    destruct B2 as [|[r rsz rf] B2]; simpl in Hc2, Hff.
    - by rewrite Hc2, Z.ltb_irrefl.
    - destruct Hc2 as (-> & Hrs & Hc3). subst rf.
      pose proof (contig_le _ _ _ Hc3) as Hle.
      destruct (wf_block_cell Hwf (Blk (b + sz) rsz false)) as (hr & Hr & _ & Hrf).
      { apply elem_of_app. right. right. left. }
      simpl in Hr, Hrf.
      rewrite (proj2 (Z.ltb_lt _ _)) by lia. mstep. by rewrite Hrf. }
  assert (coalesce_left (S (base.size (cells s))) b (Some b) s = Done (false, s))
    as Hleft.
  { apply (coalesce_left_miss b0 s _ _ b (b :: fl) [] _ Hwf); [done| |].
    - intros c csz Hc Heq.
      destruct (contig_left_neighbour _ _ (Blk b sz true) _ _ (Blk c csz true) Hct Hc Heq)
        as (B1' & ->).
      by rewrite last_free_snoc in Hlf.
    - pose proof (wf_fuel Hwf). simpl in *. lia. }
  unfold deallocate. rewrite Z.add_simpl_r.
  eapply bind_Done; [apply Hright|]. mstep. mstep. rewrite Hhd.
  eapply bind_Done; [apply Hleft|]. simpl.
  rewrite (addToFreeList_Done b s Hbp); rewrite Hhd; done.
Qed.

Lemma walk_cycle s b hb :
  cells s !! b = Some hb → next hb = Some b →
  ∀ fuel, walk_free_list fuel (Some b) s = Diverge.
Proof.
  intros Hb Hnx. induction fuel as [|fuel IH]; simpl; [done|].
  rewrite (bind_rw _ _ _ _ _ (get_size_Done _ _ _ Hb)).
  rewrite (bind_rw _ _ _ _ _ (get_next_Done _ _ _ Hb)), Hnx.
  unfold bind at 1. by rewrite IH.
Qed.

(** X17.  [deallocate] does not notice a pointer that was given back
    already.  When the block just before the block is not free, the second
    call pushes the block on the free list again: the block is then its
    own successor and its own predecessor, the list is a cycle, and a walk
    along it, as [print_free_list] makes, never reaches the end. *)
Theorem X17_double_free_makes_a_cycle b0 s B1 b sz B2 fl :
  wf b0 s (B1 ++ Blk b sz false :: B2) fl → last_free B1 = false →
  ∃ s1 s2, deallocate (Some (b + header_size)) s = Done (tt, s1) ∧
           deallocate (Some (b + header_size)) s1 = Done (tt, s2) ∧
           m_free_list_head s2 = Some b ∧
           links (cells s2) b = Some (Some b, Some b) ∧
           (∀ fuel, walk_free_list fuel (Some b) s2 = Diverge) ∧
           print_free_list s2 = Diverge.
Proof.
  intros Hwf Hlf.
  assert (∃ s1 sz1 B2' fl1, deallocate (Some (b + header_size)) s = Done (tt, s1) ∧
            wf b0 s1 (B1 ++ Blk b sz1 true :: B2') (b :: fl1) ∧ first_free B2' = false)
    as (s1 & sz1 & B2' & fl1 & Hrun1 & Hwf1 & Hff1).
  { destruct (first_free B2) eqn:Hff.
    - destruct B2 as [|[r rsz rf] B2]; [done|]. simpl in Hff. subst rf.
      assert (r ∈ fl) as (k1 & k2 & ->)%list_elem_of_split.
      { rewrite (wf_free _ _ _ _ Hwf). apply elem_of_free_addrs. exists rsz.
        apply elem_of_app. right. right. left. }
      destruct (deallocate_right _ _ _ _ _ _ _ _ _ _ Hwf Hlf) as (s1 & Hrun & Hwf1).
      exists s1, (sz + rsz), B2, (k1 ++ k2). split; [done|]. split; [done|].
      pose proof (wf_naf _ _ _ _ Hwf) as Hn.
      rewrite (cons_middle (Blk b sz false)), app_assoc, naf_app in Hn. simpl in Hn.
      by destruct (first_free B2); rewrite ?andb_false_r in Hn.
    - destruct (deallocate_alone _ _ _ _ _ _ _ Hwf Hlf Hff) as (s1 & Hrun & Hwf1).
      by exists s1, sz, B2, fl. }
  pose proof (deallocate_free_head _ _ _ _ _ _ _ Hwf1 Hlf Hff1) as Hrun2.
  destruct (wf_block_cell Hwf1 (Blk b sz1 true)) as (hb & Hb & _).
  { apply elem_of_app. right. left. }
  simpl in Hb.
  set (hb2 := mkBlockHeader (size hb) true (Some b) (Some b)).
  assert (pushed_cells b (Some b) (cells s1) !! b = Some hb2) as Hb2.
  { unfold pushed_cells. simpl. by rewrite !lookup_upd_same, Hb. }
  assert (∀ fuel, walk_free_list fuel (Some b)
            (mkAllocator (m_memory_pool s1) (m_pool_size s1) (Some b)
               (pushed_cells b (Some b) (cells s1))) = Diverge) as Hcycle.
  { by apply (walk_cycle _ b hb2). }
  eexists s1, _. split; [done|]. split; [exact Hrun2|].
  split; [done|]. split; [|split; [done|]].
  - unfold links. cbn [cells]. by rewrite Hb2.
  - unfold print_free_list.
    do 2 (rewrite (bind_rw _ _ _ _ _ eq_refl); cbv beta). apply Hcycle.
Qed.

(** *** A run of equal requests *)

Lemma fmap_seq_succ {A} (f g : nat → A) m :
  (∀ i, g i = f (S i)) → f <$> seq 0 (S m) = f 0%nat :: (g <$> seq 0 m).
Proof.
  intros Hfg. simpl. f_equal. rewrite <- fmap_S_seq, <- list_fmap_compose.
  apply list_fmap_ext. intros i x _. simpl. by rewrite Hfg.
Qed.

(** X18.  While the head of the free list is large enough to be split,
    requests of the same size [k] are served from it one after the other:
    the [m] blocks lie in a row from the address of that free block, one
    every [k] plus one header bytes, and what is left of the free block
    follows the last of them and is still the head of the free list. *)
Theorem X18_equal_requests_lie_in_a_row k m : ∀ b0 s B1 c csz B2 l2,
  wf b0 s (B1 ++ Blk c csz true :: B2) (c :: l2) →
  0 < k → k + header_size < wmod →
  Z.of_nat m * (k + header_size) + header_size < csz →
  let stride := k + header_size in
  ∃ s', allocate_each (replicate m k) s =
          Done ((λ i, Some (c + Z.of_nat i * stride + header_size)) <$> seq 0 m, s') ∧
        wf b0 s'
          (B1 ++ ((λ i, Blk (c + Z.of_nat i * stride) stride false) <$> seq 0 m) ++
           Blk (c + Z.of_nat m * stride) (csz - Z.of_nat m * stride) true :: B2)
          ((c + Z.of_nat m * stride) :: l2).
Proof.
  induction m as [|m IH]; intros b0 s B1 c csz B2 l2 Hwf Hk Hovf Hbig stride.
  - exists s. split; [done|]. simpl. by rewrite Z.add_0_r, Z.sub_0_r.
  - destruct (allocate_head_split b0 s B1 c csz B2 l2 k Hwf Hk Hovf)
      as (s1 & Hr1 & Hwf1); [lia|].
    rewrite (cons_middle (Blk c (k + header_size) false)), app_assoc in Hwf1.
    destruct (IH b0 s1 _ _ _ _ _ Hwf1 Hk Hovf) as (s' & Hrun & Hwf'); [lia|].
    exists s'. subst stride.
    rewrite (fmap_seq_succ _
               (λ i, Some (c + (k + header_size) +
                           Z.of_nat i * (k + header_size) + header_size)));
      [|intros i; f_equal; lia].
    rewrite (fmap_seq_succ _
               (λ i, Blk (c + (k + header_size) + Z.of_nat i * (k + header_size))
                       (k + header_size) false));
      [|intros i; f_equal; lia].
    split.
    + cbn [replicate allocate_each].
      eapply bind_Done; [exact Hr1|]. eapply bind_Done; [exact Hrun|].
      unfold ret. simpl. by rewrite Z.add_0_r.
    + rewrite <- app_assoc in Hwf'. simpl in Hwf'. simpl app.
      rewrite Z.add_0_r.
      replace (c + Z.of_nat (S m) * (k + header_size))
        with (c + (k + header_size) + Z.of_nat m * (k + header_size)) by lia.
      replace (csz - Z.of_nat (S m) * (k + header_size))
        with (csz - (k + header_size) - Z.of_nat m * (k + header_size)) by lia.
      exact Hwf'.
Qed.

(** *** The stress test of the test driver *)

Lemma wf_eq b0 s bl fl bl' fl' :
  wf b0 s bl fl → bl = bl' → fl = fl' → wf b0 s bl' fl'.
Proof. by intros H <- <-. Qed.

(** The sizes [print_free_list] shows are those of the blocks. *)
Lemma snapshot_sizes m bl (l : list (Z * Z)) :
  Forall (agrees m) bl → Forall (λ x, Blk x.1 x.2 true ∈ bl) l →
  snapshot m l.*1 = l.
Proof.
  intros Ha Hl. rewrite Forall_forall in Ha.
  induction Hl as [|[a sz] l Hin _ IH]; simpl; [done|].
  destruct (Ha _ Hin) as (h & Hh & Hsz & _). simpl in *.
  rewrite Hh. simpl. rewrite Hsz. f_equal. apply IH.
Qed.

Ltac eq_by_lia :=
  repeat match goal with
    | |- _ :: _ = _ :: _ => f_equal
    | |- Blk _ _ _ = Blk _ _ _ => f_equal
    | |- Some _ = Some _ => f_equal
    | |- (_, _) = (_, _) => f_equal
    | |- @eq Z _ _ => lia
    end.

Ltac solve_in_blocks :=
  repeat (apply Forall_cons; split; [simpl; repeat (first [by left|right])|]);
  apply Forall_nil_2.

(** X15.  The stress test of [main], from a pool that is one free block
    of 1024 bytes, with a header of at most 120 bytes so that the fifth
    request still splits the free block: five requests of 60 bytes yield
    five blocks in a row; giving back the second and the fourth leaves
    three free blocks, the fourth first in the list; giving back the third
    merges the second, third and fourth into one free block; giving back
    the first and the fifth leaves one free block of 1024 bytes. *)
Theorem X15_stress_test_of_main b0 s :
  wf b0 s [Blk b0 1024 true] [b0] → 6 * header_size < 724 →
  let st := 60 + header_size in
  let a := λ i, b0 + i * st in
  let p := λ i, a i + header_size in
  ∃ s5 s6 s7 s8 s9 s10,
    allocate_each [60; 60; 60; 60; 60] s =
      Done ([Some (p 0); Some (p 1); Some (p 2); Some (p 3); Some (p 4)], s5) ∧
    print_free_list s5 = Done ([(a 5, 1024 - 5 * st)], s5) ∧
    deallocate (Some (p 1)) s5 = Done (tt, s6) ∧
    deallocate (Some (p 3)) s6 = Done (tt, s7) ∧
    print_free_list s7 = Done ([(a 3, st); (a 1, st); (a 5, 1024 - 5 * st)], s7) ∧
    deallocate (Some (p 2)) s7 = Done (tt, s8) ∧
    print_free_list s8 = Done ([(a 1, 3 * st); (a 5, 1024 - 5 * st)], s8) ∧
    pool_blocks s8 = Some [Blk (a 0) st false; Blk (a 1) (3 * st) true;
                           Blk (a 4) st false; Blk (a 5) (1024 - 5 * st) true] ∧
    deallocate (Some (p 0)) s8 = Done (tt, s9) ∧
    deallocate (Some (p 4)) s9 = Done (tt, s10) ∧
    print_free_list s10 = Done ([(b0, 1024)], s10) ∧
    pool_blocks s10 = Some [Blk b0 1024 true].
Proof.
  intros Hwf H6 st a p.
  assert (60 + header_size < wmod) as Hovf.
  { pose proof (wf_psize _ _ _ _ Hwf). pose proof (wf_contig _ _ _ _ Hwf) as Hc.
    simpl in Hc. lia. }
  set (U := λ i, Blk (a i) st false).
  apply (wf_eq _ _ _ _ [Blk (a 0) 1024 true] [a 0]) in Hwf;
    [|unfold a, st; eq_by_lia..].
  destruct (allocate_head_split b0 s [] (a 0) 1024 [] [] 60 Hwf)
    as (s1 & Hr1 & Hwf1); [unfold a, st; lia..|].
  apply (wf_eq _ _ _ _ ([U 0] ++ Blk (a 1) (1024 - 1 * st) true :: []) [a 1]) in Hwf1;
    [|unfold U, a, st; simpl; eq_by_lia..].
  destruct (allocate_head_split b0 s1 _ _ _ _ _ 60 Hwf1)
    as (s2 & Hr2 & Hwf2); [unfold a, st; lia..|].
  apply (wf_eq _ _ _ _ ([U 0; U 1] ++ Blk (a 2) (1024 - 2 * st) true :: []) [a 2])
    in Hwf2; [|unfold U, a, st; simpl; eq_by_lia..].
  destruct (allocate_head_split b0 s2 _ _ _ _ _ 60 Hwf2)
    as (s3 & Hr3 & Hwf3); [unfold a, st; lia..|].
  apply (wf_eq _ _ _ _ ([U 0; U 1; U 2] ++ Blk (a 3) (1024 - 3 * st) true :: []) [a 3])
    in Hwf3; [|unfold U, a, st; simpl; eq_by_lia..].
  destruct (allocate_head_split b0 s3 _ _ _ _ _ 60 Hwf3)
    as (s4 & Hr4 & Hwf4); [unfold a, st; lia..|].
  apply (wf_eq _ _ _ _ ([U 0; U 1; U 2; U 3] ++ Blk (a 4) (1024 - 4 * st) true :: [])
           [a 4]) in Hwf4; [|unfold U, a, st; simpl; eq_by_lia..].
  destruct (allocate_head_split b0 s4 _ _ _ _ _ 60 Hwf4)
    as (s5 & Hr5 & Hwf5); [unfold a, st; lia..|].
  apply (wf_eq _ _ _ _
           ([U 0] ++ U 1 :: [U 2; U 3; U 4; Blk (a 5) (1024 - 5 * st) true]) [a 5])
    in Hwf5; [|unfold U, a, st; simpl; eq_by_lia..].
  destruct (deallocate_alone b0 s5 _ _ _ _ _ Hwf5 eq_refl eq_refl)
    as (s6 & Hr6 & Hwf6).
  apply (wf_eq _ _ _ _
           ([U 0; Blk (a 1) st true; U 2] ++
            U 3 :: [U 4; Blk (a 5) (1024 - 5 * st) true]) [a 1; a 5])
    in Hwf6; [|done..].
  destruct (deallocate_alone b0 s6 _ _ _ _ _ Hwf6 eq_refl eq_refl)
    as (s7 & Hr7 & Hwf7).
  assert (wf b0 s7 [U 0; Blk (a 1) st true; U 2; Blk (a 3) st true; U 4;
                    Blk (a 5) (1024 - 5 * st) true] [a 3; a 1; a 5]) as Hshow7
    by exact Hwf7.
  apply (wf_eq _ _ _ _
           ([U 0] ++ Blk (a 1) st true :: Blk (a 2) st false ::
            Blk (a 2 + st) st true :: [U 4; Blk (a 5) (1024 - 5 * st) true])
           ([] ++ (a 2 + st) :: [a 1; a 5]))
    in Hwf7; [|unfold U, a, st; simpl; eq_by_lia..].
  destruct (deallocate_both b0 s7 _ _ _ _ _ _ _ _ _ _ Hwf7) as (s8 & Hr8 & Hwf8).
  assert (wf b0 s8 [Blk (a 0) st false; Blk (a 1) (3 * st) true; Blk (a 4) st false;
                    Blk (a 5) (1024 - 5 * st) true] [a 1; a 5]) as Hshow8.
  { eapply wf_eq; [exact Hwf8|unfold U, a, st; simpl; eq_by_lia..]. }
  apply (wf_eq _ _ _ _
           ([] ++ Blk (a 0) st false :: Blk (a 0 + st) (3 * st) true ::
            [U 4; Blk (a 5) (1024 - 5 * st) true])
           ([] ++ (a 0 + st) :: [a 5]))
    in Hwf8; [|unfold U, a, st; simpl; eq_by_lia..].
  destruct (deallocate_right b0 s8 _ _ _ _ _ _ _ _ Hwf8 eq_refl) as (s9 & Hr9 & Hwf9).
  apply (wf_eq _ _ _ _
           ([] ++ Blk (a 0) (4 * st) true :: Blk (a 4) st false ::
            Blk (a 4 + st) (1024 - 5 * st) true :: [])
           ([a 0] ++ (a 4 + st) :: []))
    in Hwf9; [|unfold U, a, st; simpl; eq_by_lia..].
  destruct (deallocate_both b0 s9 _ _ _ _ _ _ _ _ _ _ Hwf9) as (s10 & Hr10 & Hwf10).
  apply (wf_eq _ _ _ _ [Blk b0 1024 true] [b0]) in Hwf10;
    [|unfold U, a, st; simpl; eq_by_lia..].
  exists s5, s6, s7, s8, s9, s10.
  rewrite (print_free_list_spec _ _ _ _ Hwf5), (print_free_list_spec _ _ _ _ Hshow7),
    (print_free_list_spec _ _ _ _ Hshow8), (print_free_list_spec _ _ _ _ Hwf10).
  rewrite (wf_pool_blocks _ _ _ _ Hshow8), (wf_pool_blocks _ _ _ _ Hwf10).
  assert (snapshot (cells s5) [a 5] = [(a 5, 1024 - 5 * st)]) as ->.
  { apply (snapshot_sizes _ _ [(a 5, 1024 - 5 * st)] (wf_agrees _ _ _ _ Hwf5)).
    solve_in_blocks. }
  assert (snapshot (cells s7) [a 3; a 1; a 5] =
          [(a 3, st); (a 1, st); (a 5, 1024 - 5 * st)]) as ->.
  { apply (snapshot_sizes _ _ [(a 3, st); (a 1, st); (a 5, 1024 - 5 * st)]
             (wf_agrees _ _ _ _ Hshow7)).
    solve_in_blocks. }
  assert (snapshot (cells s8) [a 1; a 5] = [(a 1, 3 * st); (a 5, 1024 - 5 * st)]) as ->.
  { apply (snapshot_sizes _ _ [(a 1, 3 * st); (a 5, 1024 - 5 * st)]
             (wf_agrees _ _ _ _ Hshow8)).
    solve_in_blocks. }
  assert (snapshot (cells s10) [b0] = [(b0, 1024)]) as ->.
  { apply (snapshot_sizes _ _ [(b0, 1024)] (wf_agrees _ _ _ _ Hwf10)). solve_in_blocks. }
  split_and!; try done.
  cbn [allocate_each].
  eapply bind_Done; [exact Hr1|]. eapply bind_Done; [|reflexivity].
  eapply bind_Done; [exact Hr2|]. eapply bind_Done; [|reflexivity].
  eapply bind_Done; [exact Hr3|]. eapply bind_Done; [|reflexivity].
  eapply bind_Done; [exact Hr4|]. eapply bind_Done; [|reflexivity].
  eapply bind_Done; [exact Hr5|]. eapply bind_Done; [|reflexivity].
  reflexivity.
Qed.

(** *** The four outcomes of deallocate *)

(** X21.  [deallocate] of the pointer to an allocated block [b] returns
    and leaves one of four layouts.  With no free neighbour [b] becomes
    free and the new head of the free list.  With only the block after it
    free, [b] takes that block's bytes, that block leaves the list and [b]
    becomes the head.  With the block before it free, that block takes the
    bytes of [b], and of a free block after [b], which then leaves the
    list; the list is otherwise as it was, in the same order. *)
Theorem X21_deallocate_merges_with_free_neighbours b0 s bl fl b sz :
  wf b0 s bl fl → Blk b sz false ∈ bl →
  ∃ s' bl' fl' l,
    deallocate (Some (b + header_size)) s = Done (tt, s') ∧
    dealloc_post bl fl b bl' fl' ∧
    pool_blocks s' = Some bl' ∧
    print_free_list s' = Done (l, s') ∧ l.*1 = fl'.
Proof.
  intros Hwf Hin.
  destruct (deallocate_spec b0 s bl fl _ _ Hwf Hin)
    as (s' & bl' & fl' & Hrun & Hwf' & Hpost).
  exists s', bl', fl', (snapshot (cells s') fl').
  split; [done|]. split; [done|]. split; [by eapply wf_pool_blocks|].
  split; [by eapply print_free_list_spec|apply snapshot_fst].
Qed.

(** *** A request of exactly 2^w minus one header *)

Lemma load_single a p ps hd h :
  load a (mkAllocator p ps hd {[a := h]}) = Done (h, mkAllocator p ps hd {[a := h]}).
Proof. unfold load. simpl. by rewrite lookup_singleton_eq. Qed.

Lemma store_single a f ps hd h :
  header_size ≤ ps →
  store a f (mkAllocator (Some a) ps hd {[a := h]}) =
  Done (tt, mkAllocator (Some a) ps hd {[a := f h]}).
Proof.
  intros Hps. unfold store, in_pool, with_cells, upd. simpl.
  rewrite Z.leb_refl, (proj2 (Z.leb_le _ _)) by lia. simpl.
  by rewrite lookup_singleton_eq, insert_singleton_eq.
Qed.

Ltac single_step :=
  eapply bind_Done;
  [ first [ apply load_single | apply store_single; lia | reflexivity
          | eapply bind_Done; [apply load_single|reflexivity] ]
  | ].

(** X20.  [allocate] does not refuse a request whose total wraps around.
    For a request of exactly [wmod - header_size] bytes the total is 0: on
    a fresh pool of more than one header the call returns the address
    just after the first header, and leaves that header with size 0,
    marked allocated, and still the head of the free list; the blocks no
    longer tile the pool. *)
Theorem X20_request_that_wraps_to_zero b0 pool_size :
  header_size < pool_size → pool_size + header_size < wmod →
  let broken := mkAllocator (Some b0) pool_size (Some b0)
                  {[b0 := mkBlockHeader 0 false None None]} in
  allocate (wmod - header_size) (construct b0 pool_size) =
    Done (Some (b0 + header_size), broken) ∧
  pool_blocks broken = None ∧
  print_free_list broken = Done ([(b0, 0)], broken).
Proof.
  intros Hps Hw broken.
  split; [|split].
  - unfold construct. rewrite (proj2 (Z.ltb_ge _ _)) by lia.
    unfold allocate. rewrite (proj2 (Z.eqb_neq _ _)) by lia.
    unfold wrap. rewrite Z.sub_add, Z_mod_same_full.
    unfold get_head, loop_fuel, bind at 1 2. simpl.
    rewrite map_size_singleton. simpl.
    unfold get_size, get_next, get_prev, set_size, set_is_free, set_next, set_prev.
    single_step. simpl. rewrite (proj2 (Z.leb_le 0 pool_size)) by lia.
    single_step. simpl. unfold wrap. rewrite Z.mod_small by lia.
    rewrite Z.add_0_l, (proj2 (Z.ltb_lt _ _) Hps).
    unfold split_block, get_size, get_next, get_prev, set_size, set_is_free,
      set_next, set_prev, set_head. rewrite Z.add_0_r. cbv zeta.
    eapply bind_Done.
    { repeat (single_step; simpl). reflexivity. }
    simpl. single_step. reflexivity.
  - unfold pool_blocks, broken. simpl.
    destruct (Z.to_nat pool_size) as [|fuel] eqn:E; [lia|]. simpl.
    rewrite (proj2 (Z.eqb_neq _ _)) by lia. rewrite lookup_singleton_eq. simpl.
    by rewrite (proj2 (Z.leb_gt _ _)) by lia.
  - unfold print_free_list, broken, get_head, loop_fuel, bind at 1 2. simpl.
    rewrite map_size_singleton. simpl. unfold get_size, get_next.
    repeat (single_step; simpl). reflexivity.
Qed.

End AllocatorModel.

(** * The pool of the test driver

    [main] builds a pool of 1024 bytes.  On an LP64 target a header takes
    32 bytes and [size_t] has 2^64 values; 4096 stands for the address
    that [new char[1024]] returns. *)

Abbreviation pool0 := (construct 32 4096 1024).

(** The pool after [p1 = allocate(100)]: 132 bytes allocated, 892 free. *)
Abbreviation pool1 :=
  (mkAllocator (Some 4096) 1024 (Some 4228)
     (<[4228 := mkBlockHeader 892 true None None]>
        {[4096 := mkBlockHeader 132 false None None]})).

Lemma pool0_wf : wf 32 (2 ^ 64) 4096 pool0 [Blk 4096 1024 true] [4096].
Proof. apply construct_wf; lia. Qed.

Lemma pool1_run : allocate 32 (2 ^ 64) 100 pool0 = Done (Some 4128, pool1).
Proof. vm_compute. reflexivity. Qed.

Lemma pool1_wf :
  wf 32 (2 ^ 64) 4096 pool1 [Blk 4096 132 false; Blk 4228 892 true] [4228].
Proof.
  destruct (allocate_head_split 32 (2 ^ 64) ltac:(lia) 4096 pool0 [] 4096 1024 [] []
              100 pool0_wf) as (s' & Hrun & Hwf); [lia..|].
  rewrite pool1_run in Hrun. injection Hrun as <-. exact Hwf.
Qed.

(** ** A leftover of exactly one header is not split off *)

(** An instance of C1: the first request of the test driver splits the
    pool, 132 bytes for the request and 892 left over. *)
Lemma C1_split_witness :
  0 < 32 ∧ wf 32 (2 ^ 64) 4096 pool0 [Blk 4096 1024 true] [4096] ∧
  0 < 100 ∧ 100 + 32 < 2 ^ 64 ∧
  ∃ r s', allocate 32 (2 ^ 64) 100 pool0 = Done (r, s') ∧
    ((r = None ∧ s' = pool0) ∨
     ∃ l1 c csz l2 B1 B2,
       [4096] = l1 ++ c :: l2 ∧ [Blk 4096 1024 true] = B1 ++ Blk c csz true :: B2 ∧
       r = Some (c + 32) ∧ 100 + 32 ≤ csz ∧
       let total := 100 + 32 in
       let leftover := csz - total in
       if 32 <? leftover
       then wf 32 (2 ^ 64) 4096 s'
              (B1 ++ Blk c total false :: Blk (c + total) leftover true :: B2)
              (l1 ++ (c + total) :: l2) ∧
            links (cells s') (c + total) = links (cells pool0) c
       else wf 32 (2 ^ 64) 4096 s' (B1 ++ Blk c csz false :: B2) (l1 ++ l2)).
Proof.
  assert (0 < 32) as Hh by lia.
  assert (0 < 100) as Hn by lia.
  assert (100 + 32 < 2 ^ 64) as Hovf by lia.
  repeat (split; [first [exact Hh|exact Hn|exact Hovf|exact pool0_wf]|]).
  exact (C1_split_when_leftover_exceeds_header 32 (2 ^ 64) Hh 4096 pool0
           [Blk 4096 1024 true] [4096] 100 pool0_wf Hn Hovf).
Defined.

(** C1 as stated fails: a request of 960 bytes needs 992 of the 1024-byte
    free block, the leftover is 32 bytes, one header exactly, and the block
    is not split.  The whole block of 1024 bytes is handed out, the free
    list is empty and no free block of the leftover appears. *)
Lemma C1_counterexample_leftover_of_one_header :
  1024 - (960 + 32) >= 32 ∧
  ∃ s', allocate 32 (2 ^ 64) 960 pool0 = Done (Some 4128, s') ∧
        s' = mkAllocator (Some 4096) 1024 None
               {[4096 := mkBlockHeader 1024 false None None]} ∧
        pool_blocks 32 s' = Some [Blk 4096 1024 false] ∧
        pool_blocks 32 s' ≠ Some [Blk 4096 992 false; Blk 5088 32 true] ∧
        print_free_list s' = Done ([], s').
Proof.
  split; [lia|]. eexists. split; [vm_compute; reflexivity|].
  vm_compute. repeat split; congruence.
Qed.

(** ** Witnesses *)

(** An instance of C3: freeing the first pointer of the test driver. *)
Lemma C3_witness :
  0 < 32 ∧
  wf 32 (2 ^ 64) 4096 pool1 [Blk 4096 132 false; Blk 4228 892 true] [4228] ∧
  Blk 4096 132 false ∈ [Blk 4096 132 false; Blk 4228 892 true] ∧
  ∃ s' bl' fl', deallocate 32 (2 ^ 64) (Some (4096 + 32)) pool1 = Done (tt, s') ∧
                wf 32 (2 ^ 64) 4096 s' bl' fl' ∧
                pool_blocks 32 s' = Some bl' ∧ no_adjacent_free bl' = true.
Proof.
  assert (0 < 32) as Hh by lia.
  assert (Blk 4096 132 false ∈ [Blk 4096 132 false; Blk 4228 892 true]) as Hin
    by left.
  repeat (split; [first [exact Hh|exact Hin|exact pool1_wf]|]).
  exact (C3_deallocate_no_adjacent_free 32 (2 ^ 64) Hh 4096 pool1 _ _ 4096 132
           pool1_wf Hin).
Defined.

(** An instance of C5: the LP64 target, the pool at address 4096. *)
Lemma C5_witness :
  0 < 32 ∧ 4 * 32 < 674 ∧ 1024 + 32 < 2 ^ 64 ∧
  ∃ s1 s2 s3 s4 s5 s6,
    print_free_list pool0 = Done ([(4096, 1024)], pool0) ∧
    allocate 32 (2 ^ 64) 100 pool0 = Done (Some (4096 + 32), s1) ∧
    allocate 32 (2 ^ 64) 200 s1 = Done (Some (4096 + (100 + 32) + 32), s2) ∧
    allocate 32 (2 ^ 64) 50 s2 =
      Done (Some (4096 + (100 + 32) + (200 + 32) + 32), s3) ∧
    print_free_list s3 =
      Done ([(4096 + (100 + 32) + (200 + 32) + (50 + 32), 674 - 3 * 32)], s3) ∧
    deallocate 32 (2 ^ 64) (Some (4096 + (100 + 32) + 32)) s3 = Done (tt, s4) ∧
    print_free_list s4 =
      Done ([(4096 + (100 + 32) + 32 - 32, 200 + 32);
             (4096 + (100 + 32) + (200 + 32) + (50 + 32), 674 - 3 * 32)], s4) ∧
    deallocate 32 (2 ^ 64) (Some (4096 + 32)) s4 = Done (tt, s5) ∧
    print_free_list s5 =
      Done ([(4096, 300 + 2 * 32);
             (4096 + (100 + 32) + (200 + 32) + (50 + 32), 674 - 3 * 32)], s5) ∧
    pool_blocks 32 s5 =
      Some [Blk 4096 (300 + 2 * 32) true;
            Blk (4096 + (100 + 32) + (200 + 32) + 32 - 32) (50 + 32) false;
            Blk (4096 + (100 + 32) + (200 + 32) + (50 + 32)) (674 - 3 * 32) true] ∧
    deallocate 32 (2 ^ 64) (Some (4096 + (100 + 32) + (200 + 32) + 32)) s5 =
      Done (tt, s6) ∧
    print_free_list s6 = Done ([(4096, 1024)], s6) ∧
    pool_blocks 32 s6 = Some [Blk 4096 1024 true] ∧
    pool_blocks 32 pool0 = Some [Blk 4096 1024 true].
Proof.
  assert (0 < 32) as Hh by lia.
  assert (4 * 32 < 674) as H4 by lia.
  assert (1024 + 32 < 2 ^ 64) as Hw by lia.
  repeat (split; [first [exact Hh|exact H4|exact Hw]|]).
  exact (C5_coalescing_scenario 32 (2 ^ 64) Hh 4096 H4 Hw).
Defined.

(** An instance of C8: a pool of 16 bytes cannot hold a header of 32. *)
Lemma C8_witness :
  16 < 32 ∧
  m_memory_pool (construct 32 4096 16) = None ∧
  m_free_list_head (construct 32 4096 16) = None ∧
  cells (construct 32 4096 16) = ∅ ∧
  allocate 32 (2 ^ 64) 100 (construct 32 4096 16) =
    Done (None, construct 32 4096 16) ∧
  allocate_each 32 (2 ^ 64) [100; 0; 2 ^ 64 - 1] (construct 32 4096 16) =
    Done (replicate (length [100; 0; 2 ^ 64 - 1]) None, construct 32 4096 16).
Proof.
  assert (16 < 32) as Hlt by lia.
  split; [exact Hlt|].
  exact (C8_small_pool_is_inert 32 (2 ^ 64) 4096 16 100 [100; 0; 2 ^ 64 - 1] Hlt).
Defined.

(** An instance of C10: freeing the first pointer of the test driver. *)
Lemma C10_witness :
  0 < 32 ∧
  wf 32 (2 ^ 64) 4096 pool1 [Blk 4096 132 false; Blk 4228 892 true] [4228] ∧
  Blk 4096 132 false ∈ [Blk 4096 132 false; Blk 4228 892 true] ∧
  (∃ s', deallocate 32 (2 ^ 64) (Some (4096 + 32)) pool1 = Done (tt, s')) ∧
  map_Forall (λ a _, 4096 ≤ a ∧ a + 32 ≤ 4096 + m_pool_size pool1) (cells pool1) ∧
  (size <$> cells pool1 !! 4096) = Some 132 ∧
  4096 ≤ 4096 ∧ 4096 + 132 ≤ 4096 + m_pool_size pool1 ∧
  (coalesce_right 32 (2 ^ 64) 4096
     (with_cells (delete (4096 + 132) (cells pool1)) pool1) = Fault
   ↔ 4096 + 132 < 4096 + m_pool_size pool1).
Proof.
  assert (0 < 32) as Hh by lia.
  assert (Blk 4096 132 false ∈ [Blk 4096 132 false; Blk 4228 892 true]) as Hin
    by left.
  repeat (split; [first [exact Hh|exact Hin|exact pool1_wf]|]).
  exact (C10_right_neighbour_read_in_bounds 32 (2 ^ 64) Hh 4096 pool1 _ _ 4096 132
           pool1_wf Hin).
Defined.

(** The last block of the pool: a request of 960 bytes takes the whole pool,
    the block ends at the end of the pool, where memory holds no header,
    and freeing it reads nothing there. *)
Lemma free_last_block :
  ∃ s s',
    allocate 32 (2 ^ 64) 960 pool0 = Done (Some 4128, s) ∧
    pool_blocks 32 s = Some [Blk 4096 1024 false] ∧
    cells s !! (4096 + 1024) = None ∧
    deallocate 32 (2 ^ 64) (Some 4128) s = Done (tt, s') ∧
    print_free_list s' = Done ([(4096, 1024)], s').
Proof.
  exists (mkAllocator (Some 4096) 1024 None
            {[4096 := mkBlockHeader 1024 false None None]}),
         (mkAllocator (Some 4096) 1024 (Some 4096)
            {[4096 := mkBlockHeader 1024 true None None]}).
  vm_compute. repeat split.
Qed.

(** ** A request whose total wraps around

    [allocate(SIZE_MAX - 31)]: the sum [size + sizeof(BlockHeader)] is
    2^64 and wraps to 0, every free block passes the size test and the
    block is split at offset 0, on top of itself: its header ends with
    size 0 and [is_free] false, and it is still the head of the free
    list. *)

Abbreviation huge := (2 ^ 64 - 32).
Abbreviation wrapped :=
  (mkAllocator (Some 4096) 1024 (Some 4096)
     {[4096 := mkBlockHeader 0 false None None]}).

(** C2 at the failing input: the free list holds one block of 1024 bytes,
    none of at least [huge + 32] bytes, and [allocate huge] selects it. *)
Theorem C2_wrapped_request_selects_small_block :
  0 < huge < 2 ^ 64 ∧
  print_free_list pool0 = Done ([(4096, 1024)], pool0) ∧
  first_fit (huge + 32) [(4096, 1024)] = None ∧
  allocate 32 (2 ^ 64) huge pool0 = Done (Some 4128, wrapped).
Proof. vm_compute. repeat split. Qed.

(** C4 at the failing input: after [allocate huge] on the fresh pool the
    header at the start of the pool records a block of 0 bytes, less than
    a header, and the blocks no longer tile the pool. *)
Theorem C4_wrapped_request_breaks_partition :
  pool_blocks 32 pool0 = Some [Blk 4096 1024 true] ∧
  allocate 32 (2 ^ 64) huge pool0 = Done (Some 4128, wrapped) ∧
  size <$> cells wrapped !! 4096 = Some 0 ∧
  pool_blocks 32 wrapped = None.
Proof. vm_compute. repeat split. Qed.

(** C6 at the failing input: [allocate huge] followed by [deallocate] of
    the returned pointer leaves 0 free bytes where there were 1024. *)
Theorem C6_wrapped_request_loses_free_bytes :
  allocate 32 (2 ^ 64) huge pool0 = Done (Some 4128, wrapped) ∧
  deallocate 32 (2 ^ 64) (Some 4128) wrapped = Done (tt, wrapped) ∧
  print_free_list pool0 = Done ([(4096, 1024)], pool0) ∧
  free_bytes [(4096, 1024)] = 1024 ∧
  print_free_list wrapped = Done ([(4096, 0)], wrapped) ∧
  free_bytes [(4096, 0)] = 0.
Proof. vm_compute. repeat split. Qed.

(** C7 at the failing input: no block of the free list has [huge + 32]
    bytes, and [allocate huge] returns a pointer and changes the state. *)
Theorem C7_wrapped_request_does_not_fail :
  print_free_list pool0 = Done ([(4096, 1024)], pool0) ∧
  Forall (λ x, x.2 < huge + 32) [(4096, 1024)] ∧
  allocate 32 (2 ^ 64) huge pool0 = Done (Some 4128, wrapped) ∧
  allocate 32 (2 ^ 64) huge pool0 ≠ Done (None, pool0) ∧
  cells pool0 !! 4096 = Some (mkBlockHeader 1024 true None None) ∧
  cells wrapped !! 4096 = Some (mkBlockHeader 0 false None None).
Proof.
  split; [vm_compute; reflexivity|]. split; [repeat constructor|].
  vm_compute. repeat split. congruence.
Qed.

(** * Instances of the further properties

    The states of the test driver on the LP64 target: [pool2] after
    [p2 = allocate(200)], [pool3] after [p3 = allocate(50)], [pool4] after
    [deallocate(p2)], and [pool_back], the pool after [allocate(100)] and
    [deallocate] of the pointer it returned. *)

Abbreviation pool2 :=
  (mkAllocator (Some 4096) 1024 (Some 4460)
     (<[4460 := mkBlockHeader 660 true None None]>
        (<[4228 := mkBlockHeader 232 false None None]>
           {[4096 := mkBlockHeader 132 false None None]}))).

Abbreviation pool3 :=
  (mkAllocator (Some 4096) 1024 (Some 4542)
     (<[4542 := mkBlockHeader 578 true None None]>
        (<[4460 := mkBlockHeader 82 false None None]>
           (<[4228 := mkBlockHeader 232 false None None]>
              {[4096 := mkBlockHeader 132 false None None]})))).

Abbreviation pool4 :=
  (mkAllocator (Some 4096) 1024 (Some 4228)
     (<[4542 := mkBlockHeader 578 true None (Some 4228)]>
        (<[4460 := mkBlockHeader 82 false None None]>
           (<[4228 := mkBlockHeader 232 true (Some 4542) None]>
              {[4096 := mkBlockHeader 132 false None None]})))).

Abbreviation pool_back :=
  (mkAllocator (Some 4096) 1024 (Some 4096)
     (<[4228 := mkBlockHeader 892 true None None]>
        {[4096 := mkBlockHeader 1024 true None None]})).

Lemma pool2_run : allocate 32 (2 ^ 64) 200 pool1 = Done (Some 4260, pool2).
Proof. vm_compute. reflexivity. Qed.

Lemma pool2_wf :
  wf 32 (2 ^ 64) 4096 pool2
    [Blk 4096 132 false; Blk 4228 232 false; Blk 4460 660 true] [4460].
Proof.
  destruct (allocate_head_split 32 (2 ^ 64) ltac:(lia) 4096 pool1
              [Blk 4096 132 false] 4228 892 [] [] 200 pool1_wf)
    as (s' & Hrun & Hwf); [lia..|].
  rewrite pool2_run in Hrun. injection Hrun as <-. exact Hwf.
Qed.

Lemma pool3_run : allocate 32 (2 ^ 64) 50 pool2 = Done (Some 4492, pool3).
Proof. vm_compute. reflexivity. Qed.

Lemma pool3_wf :
  wf 32 (2 ^ 64) 4096 pool3
    [Blk 4096 132 false; Blk 4228 232 false; Blk 4460 82 false; Blk 4542 578 true]
    [4542].
Proof.
  destruct (allocate_head_split 32 (2 ^ 64) ltac:(lia) 4096 pool2
              [Blk 4096 132 false; Blk 4228 232 false] 4460 660 [] [] 50 pool2_wf)
    as (s' & Hrun & Hwf); [lia..|].
  rewrite pool3_run in Hrun. injection Hrun as <-. exact Hwf.
Qed.

Lemma pool4_run : deallocate 32 (2 ^ 64) (Some 4260) pool3 = Done (tt, pool4).
Proof. vm_compute. reflexivity. Qed.

Lemma pool4_wf :
  wf 32 (2 ^ 64) 4096 pool4
    [Blk 4096 132 false; Blk 4228 232 true; Blk 4460 82 false; Blk 4542 578 true]
    [4228; 4542].
Proof.
  destruct (deallocate_alone 32 (2 ^ 64) ltac:(lia) 4096 pool3
              [Blk 4096 132 false] 4228 232
              [Blk 4460 82 false; Blk 4542 578 true] [4542] pool3_wf eq_refl eq_refl)
    as (s' & Hrun & Hwf).
  change (4228 + 32) with 4260 in Hrun.
  rewrite pool4_run in Hrun. injection Hrun as <-. exact Hwf.
Qed.

Lemma pool_back_run : deallocate 32 (2 ^ 64) (Some 4128) pool1 = Done (tt, pool_back).
Proof. vm_compute. reflexivity. Qed.

Lemma pool0_reachable : reachable 32 (2 ^ 64) 4096 pool0 ∅.
Proof. apply reach_construct; lia. Qed.

Lemma pool1_reachable : reachable 32 (2 ^ 64) 4096 pool1 {[4128]}.
Proof.
  replace ({[4128]} : gset Z) with ({[4128]} ∪ ∅ : gset Z) by set_solver.
  apply (reach_allocate 32 (2 ^ 64) 4096 pool0 ∅ 100 (Some 4128) pool1);
    [apply pool0_reachable|lia|lia|apply pool1_run].
Qed.

Lemma pool_back_reachable : reachable 32 (2 ^ 64) 4096 pool_back ∅.
Proof.
  replace (∅ : gset Z) with ({[4128]} ∖ {[4128]} : gset Z) by set_solver.
  apply (reach_deallocate 32 (2 ^ 64) 4096 pool1 {[4128]} 4128 pool_back);
    [apply pool1_reachable|set_solver|apply pool_back_run].
Qed.

(** ** Witnesses of the further properties *)

(** An instance of X1: the pool of the test driver and its first request. *)
Lemma X1_witness :
  0 < 32 ∧
  32 ≤ 1024 ∧
  1024 + 32 < 2 ^ 64 ∧
  0 < 100 ∧
  100 + 32 < 2 ^ 64 ∧
  print_free_list pool0 = Done ([(4096, 1024)], pool0) ∧
  pool_blocks 32 pool0 = Some [Blk 4096 1024 true] ∧
  ∃ (r : ptr) (s' : Allocator),
    allocate 32 (2 ^ 64) 100 pool0 = Done (r, s') ∧
    (100 + 32 ≤ 1024 → r = Some (4096 + 32)) ∧
    (1024 < 100 + 32 → r = None ∧ s' = pool0).
Proof.
  assert (0 < 32) as Hh by lia.
  assert (32 ≤ 1024) as H1 by lia.
  assert (1024 + 32 < 2 ^ 64) as H2 by lia.
  assert (0 < 100) as H3 by lia.
  assert (100 + 32 < 2 ^ 64) as H4 by lia.
  repeat (split; [first [exact Hh|exact H1|exact H2|exact H3|exact H4]|]).
  exact (X1_fresh_pool_capacity 32 (2 ^ 64) Hh 4096 1024 100 H1 H2 H3 H4).
Defined.

(** An instance of X2: the second of the two free blocks the test driver has
    after it freed p2 is taken out of the list. *)
Lemma X2_witness :
  dll (links (cells pool4)) ([4228] ++ [4542]) (m_free_list_head pool4) ∧
  NoDup ([4228] ++ [4542]) ∧
  (∀ x : Z, x ∈ [4228] ++ [4542] → in_pool 32 pool4 x = true) ∧
  ∃ s' : Allocator,
    removeFromFreeList 32 4542 pool4 = Done (tt, s') ∧
    dll (links (cells s')) ([4228] ++ []) (m_free_list_head s') ∧
    m_free_list_head s' = head ([4228] ++ []) ∧
    (∀ a : Z, extent <$> cells s' !! a = extent <$> cells pool4 !! a) ∧
    m_memory_pool s' = m_memory_pool pool4 ∧
    m_pool_size s' = m_pool_size pool4.
Proof.
  assert (dll (links (cells pool4)) ([4228] ++ [4542]) (m_free_list_head pool4)) as H1.
  { exact (wf_dll 32 (2 ^ 64) 4096 pool4 _ _ pool4_wf). }
  assert (NoDup ([4228] ++ [4542])) as H2.
  { apply (bool_decide_unpack _); vm_compute; exact I. }
  assert ((∀ x : Z, x ∈ [4228] ++ [4542] → in_pool 32 pool4 x = true)) as H3.
  { apply Forall_forall; repeat constructor. }
  repeat (split; [first [exact H1|exact H2|exact H3]|]).
  exact (X2_removeFromFreeList_unlinks 32 pool4 [4228] 4542 [] H1 H2 H3).
Defined.

(** An instance of X3: the block of p2 is pushed on the free list of the test
    driver after its three requests. *)
Lemma X3_witness :
  dll (links (cells pool3)) [4542] (m_free_list_head pool3) ∧
  NoDup [4542] ∧
  (4228 ∉ [4542]) ∧
  cells pool3 !! 4228 = Some (mkBlockHeader 232 false None None) ∧
  in_pool 32 pool3 4228 = true ∧
  (∀ x : Z, x ∈ [4542] → in_pool 32 pool3 x = true) ∧
  ∃ s' : Allocator,
    addToFreeList 32 4228 pool3 = Done (tt, s') ∧
    dll (links (cells s')) [4228; 4542] (m_free_list_head s') ∧
    m_free_list_head s' = Some 4228 ∧
    extent <$> cells s' !! 4228 = Some (size (mkBlockHeader 232 false None None),
      true) ∧
    (∀ a : Z, a ≠ 4228 → extent <$> cells s' !! a = extent <$> cells pool3 !! a) ∧
    m_memory_pool s' = m_memory_pool pool3 ∧
    m_pool_size s' = m_pool_size pool3.
Proof.
  assert (dll (links (cells pool3)) [4542] (m_free_list_head pool3)) as H1.
  { exact (wf_dll 32 (2 ^ 64) 4096 pool3 _ _ pool3_wf). }
  assert (NoDup [4542]) as H2 by apply NoDup_singleton.
  assert (4228 ∉ [4542]) as H3.
  { apply not_elem_of_cons; split; [lia|apply not_elem_of_nil]. }
  assert (cells pool3 !! 4228 = Some (mkBlockHeader 232 false None None)) as H4.
  { vm_compute; reflexivity. }
  assert (in_pool 32 pool3 4228 = true) as H5 by reflexivity.
  assert ((∀ x : Z, x ∈ [4542] → in_pool 32 pool3 x = true)) as H6.
  { apply Forall_forall; repeat constructor. }
  repeat (split; [first [exact H1|exact H2|exact H3|exact H4|exact H5|exact H6]|]).
  exact (X3_addToFreeList_pushes_front 32 pool3 [4542] 4228 (mkBlockHeader 232 false
    None None) H1 H2 H3 H4 H5 H6).
Defined.

(** An instance of X4: the block of p2 is pushed and taken out again. *)
Lemma X4_witness :
  dll (links (cells pool3)) [4542] (m_free_list_head pool3) ∧
  (4228 ∉ [4542]) ∧
  cells pool3 !! 4228 = Some (mkBlockHeader 232 false None None) ∧
  in_pool 32 pool3 4228 = true ∧
  (∀ x : Z, x ∈ [4542] → in_pool 32 pool3 x = true) ∧
  ∃ s1 s2 : Allocator,
    addToFreeList 32 4228 pool3 = Done (tt, s1) ∧
    removeFromFreeList 32 4228 s1 = Done (tt, s2) ∧
    m_free_list_head s2 = m_free_list_head pool3 ∧
    (∀ a : Z, a ≠ 4228 → cells s2 !! a = cells pool3 !! a) ∧
    cells s2 !! 4228 = Some (mkBlockHeader (size (mkBlockHeader 232 false None None))
      true (m_free_list_head pool3) None).
Proof.
  assert (dll (links (cells pool3)) [4542] (m_free_list_head pool3)) as H1.
  { exact (wf_dll 32 (2 ^ 64) 4096 pool3 _ _ pool3_wf). }
  assert (4228 ∉ [4542]) as H2.
  { apply not_elem_of_cons; split; [lia|apply not_elem_of_nil]. }
  assert (cells pool3 !! 4228 = Some (mkBlockHeader 232 false None None)) as H3.
  { vm_compute; reflexivity. }
  assert (in_pool 32 pool3 4228 = true) as H4 by reflexivity.
  assert ((∀ x : Z, x ∈ [4542] → in_pool 32 pool3 x = true)) as H5.
  { apply Forall_forall; repeat constructor. }
  repeat (split; [first [exact H1|exact H2|exact H3|exact H4|exact H5]|]).
  exact (X4_add_then_remove_restores 32 pool3 [4542] 4228 (mkBlockHeader 232 false
    None None) H1 H2 H3 H4 H5).
Defined.

(** An instance of X5: the test driver after it freed p2. *)
Lemma X5_witness :
  0 < 32 ∧
  wf 32 (2 ^ 64) 4096 pool4 [Blk 4096 132 false; Blk 4228 232 true; Blk 4460 82 false;
    Blk 4542 578 true] [4228; 4542] ∧
  ∃ l : list (Z * Z),
    print_free_list pool4 = Done (l, pool4) ∧
    l.*1 = [4228; 4542] ∧
    NoDup l.*1 ∧
    pool_blocks 32 pool4 = Some [Blk 4096 132 false; Blk 4228 232 true; Blk 4460 82
      false; Blk 4542 578 true] ∧
    ∀ a sz : Z,
      (a, sz) ∈ l ↔ Blk a sz true ∈ [Blk 4096 132 false; Blk 4228 232 true; Blk 4460
        82 false; Blk 4542 578 true].
Proof.
  assert (0 < 32) as Hh by lia.
  assert (wf 32 (2 ^ 64) 4096 pool4 [Blk 4096 132 false; Blk 4228 232 true; Blk 4460
    82 false; Blk 4542 578 true] [4228; 4542]) as H1.
  { exact pool4_wf. }
  repeat (split; [first [exact Hh|exact H1]|]).
  exact (X5_print_free_list_shows_free_blocks 32 (2 ^ 64) Hh 4096 pool4 [Blk 4096 132
    false; Blk 4228 232 true; Blk 4460 82 false; Blk 4542 578 true] [4228; 4542] H1).
Defined.

(** An instance of X6: a request of 300 bytes passes the free block of 232
    bytes at the head of the list. *)
Lemma X6_witness :
  0 < 32 ∧
  wf 32 (2 ^ 64) 4096 pool4 [Blk 4096 132 false; Blk 4228 232 true; Blk 4460 82 false;
    Blk 4542 578 true] [4228; 4542] ∧
  0 < 300 ∧
  300 + 32 < 2 ^ 64 ∧
  ∃ (l : list (Z * Z)) (r : ptr) (s' : Allocator),
    print_free_list pool4 = Done (l, pool4) ∧
    allocate 32 (2 ^ 64) 300 pool4 = Done (r, s') ∧
    r = (λ x : Z * Z, x.1 + 32) <$> first_fit (300 + 32) l.
Proof.
  assert (0 < 32) as Hh by lia.
  assert (wf 32 (2 ^ 64) 4096 pool4 [Blk 4096 132 false; Blk 4228 232 true; Blk 4460
    82 false; Blk 4542 578 true] [4228; 4542]) as H1.
  { exact pool4_wf. }
  assert (0 < 300) as H2 by lia.
  assert (300 + 32 < 2 ^ 64) as H3 by lia.
  repeat (split; [first [exact Hh|exact H1|exact H2|exact H3]|]).
  exact (X6_allocate_is_first_fit 32 (2 ^ 64) Hh 4096 pool4 [Blk 4096 132 false; Blk
    4228 232 true; Blk 4460 82 false; Blk 4542 578 true] [4228; 4542] 300 H1 H2 H3).
Defined.

(** An instance of X7: neither free block holds 600 bytes and a header. *)
Lemma X7_witness :
  0 < 32 ∧
  wf 32 (2 ^ 64) 4096 pool4 [Blk 4096 132 false; Blk 4228 232 true; Blk 4460 82 false;
    Blk 4542 578 true] [4228; 4542] ∧
  0 < 600 ∧
  600 + 32 < 2 ^ 64 ∧
  ∃ (r : ptr) (s' : Allocator),
    allocate 32 (2 ^ 64) 600 pool4 = Done (r, s') ∧
    (r = None ↔ ∀ a sz : Z, Blk a sz true ∈ [Blk 4096 132 false; Blk 4228 232 true;
      Blk 4460 82 false; Blk 4542 578 true] → sz < 600 + 32) ∧
    (r = None → s' = pool4).
Proof.
  assert (0 < 32) as Hh by lia.
  assert (wf 32 (2 ^ 64) 4096 pool4 [Blk 4096 132 false; Blk 4228 232 true; Blk 4460
    82 false; Blk 4542 578 true] [4228; 4542]) as H1.
  { exact pool4_wf. }
  assert (0 < 600) as H2 by lia.
  assert (600 + 32 < 2 ^ 64) as H3 by lia.
  repeat (split; [first [exact Hh|exact H1|exact H2|exact H3]|]).
  exact (X7_allocate_fails_iff_no_block_fits 32 (2 ^ 64) Hh 4096 pool4 [Blk 4096 132
    false; Blk 4228 232 true; Blk 4460 82 false; Blk 4542 578 true] [4228; 4542] 600
    H1 H2 H3).
Defined.

(** An instance of X8: the first request of the test driver, given back at
    once. *)
Lemma X8_witness :
  0 < 32 ∧
  wf 32 (2 ^ 64) 4096 pool0 [Blk 4096 1024 true] [4096] ∧
  0 < 100 ∧
  100 + 32 < 2 ^ 64 ∧
  allocate 32 (2 ^ 64) 100 pool0 = Done (Some 4128, pool1) ∧
  ∃ (s'' : Allocator) (l l'' : list (Z * Z)),
    deallocate 32 (2 ^ 64) (Some 4128) pool1 = Done (tt, s'') ∧
    print_free_list pool0 = Done (l, pool0) ∧
    print_free_list s'' = Done (l'', s'') ∧
    l'' ≡ₚ l ∧
    free_bytes l'' = free_bytes l ∧
    pool_blocks 32 pool0 = Some [Blk 4096 1024 true] ∧
    pool_blocks 32 s'' = Some [Blk 4096 1024 true].
Proof.
  assert (0 < 32) as Hh by lia.
  assert (wf 32 (2 ^ 64) 4096 pool0 [Blk 4096 1024 true] [4096]) as H1.
  { exact pool0_wf. }
  assert (0 < 100) as H2 by lia.
  assert (100 + 32 < 2 ^ 64) as H3 by lia.
  assert (allocate 32 (2 ^ 64) 100 pool0 = Done (Some 4128, pool1)) as H4.
  { exact pool1_run. }
  repeat (split; [first [exact Hh|exact H1|exact H2|exact H3|exact H4]|]).
  exact (X8_allocate_then_deallocate_restores 32 (2 ^ 64) Hh 4096 pool0 [Blk 4096 1024
    true] [4096] 100 4128 pool1 H1 H2 H3 H4).
Defined.

(** An instance of X9: the test driver after its first request. *)
Lemma X9_witness :
  0 < 32 ∧
  reachable 32 (2 ^ 64) 4096 pool1 {[4128]} ∧
  ∃ (bl : list blk) (l : list (Z * Z)),
    pool_blocks 32 pool1 = Some bl ∧
    contig 32 4096 bl (4096 + m_pool_size pool1) ∧
    Forall (λ x : blk, 32 ≤ bsize x) bl ∧
    blocks_bytes bl = m_pool_size pool1 ∧
    no_adjacent_free bl = true ∧
    print_free_list pool1 = Done (l, pool1) ∧
    l ≡ₚ free_pairs bl ∧
    ∀ u : Z, u ∈ ({[4128]} : gset Z) ↔ ∃ sz : Z, Blk (u - 32) sz false ∈ bl.
Proof.
  assert (0 < 32) as Hh by lia.
  assert (reachable 32 (2 ^ 64) 4096 pool1 {[4128]}) as H1 by exact pool1_reachable.
  repeat (split; [first [exact Hh|exact H1]|]).
  exact (X9_reachable_states_are_tiled 32 (2 ^ 64) Hh 4096 pool1 {[4128]} H1).
Defined.

(** An instance of X10: the second request of the test driver. *)
Lemma X10_witness :
  0 < 32 ∧
  reachable 32 (2 ^ 64) 4096 pool1 {[4128]} ∧
  0 < 200 ∧
  200 + 32 < 2 ^ 64 ∧
  allocate 32 (2 ^ 64) 200 pool1 = Done (Some 4260, pool2) ∧
  (4260 ∉ ({[4128]} : gset Z)) ∧
  4096 + 32 ≤ 4260 ∧
  4260 + 200 ≤ 4096 + m_pool_size pool1 ∧
  ∀ q : Z,
    q ∈ ({[4128]} : gset Z) →
    ∃ qsz : Z,
      extent <$> cells pool1 !! (q - 32) = Some (qsz, false) ∧
      extent <$> cells pool2 !! (q - 32) = Some (qsz, false) ∧
      (q - 32 + qsz ≤ 4260 - 32 ∨ 4260 + 200 ≤ q - 32).
Proof.
  assert (0 < 32) as Hh by lia.
  assert (reachable 32 (2 ^ 64) 4096 pool1 {[4128]}) as H1 by exact pool1_reachable.
  assert (0 < 200) as H2 by lia.
  assert (200 + 32 < 2 ^ 64) as H3 by lia.
  assert (allocate 32 (2 ^ 64) 200 pool1 = Done (Some 4260, pool2)) as H4.
  { exact pool2_run. }
  repeat (split; [first [exact Hh|exact H1|exact H2|exact H3|exact H4]|]).
  exact (X10_allocated_memory_is_fresh 32 (2 ^ 64) Hh 4096 pool1 {[4128]} 200 4260
    pool2 H1 H2 H3 H4).
Defined.

(** An instance of X11: the test driver frees p2. *)
Lemma X11_witness :
  0 < 32 ∧
  wf 32 (2 ^ 64) 4096 pool3 [Blk 4096 132 false; Blk 4228 232 false; Blk 4460 82
    false; Blk 4542 578 true] [4542] ∧
  Blk 4228 232 false ∈ [Blk 4096 132 false; Blk 4228 232 false; Blk 4460 82 false; Blk
    4542 578 true] ∧
  ∃ (s' : Allocator) (bl' U1 U2 : list blk),
    deallocate 32 (2 ^ 64) (Some (4228 + 32)) pool3 = Done (tt, s') ∧
    pool_blocks 32 pool3 = Some [Blk 4096 132 false; Blk 4228 232 false; Blk 4460 82
      false; Blk 4542 578 true] ∧
    pool_blocks 32 s' = Some bl' ∧
    used_blocks [Blk 4096 132 false; Blk 4228 232 false; Blk 4460 82 false; Blk 4542
      578 true] = U1 ++ (Blk 4228 232 false) :: U2 ∧
    used_blocks bl' = U1 ++ U2 ∧
    free_total bl' = free_total [Blk 4096 132 false; Blk 4228 232 false; Blk 4460 82
      false; Blk 4542 578 true] + 232.
Proof.
  assert (0 < 32) as Hh by lia.
  assert (wf 32 (2 ^ 64) 4096 pool3 [Blk 4096 132 false; Blk 4228 232 false; Blk 4460
    82 false; Blk 4542 578 true] [4542]) as H1.
  { exact pool3_wf. }
  assert (Blk 4228 232 false ∈ [Blk 4096 132 false; Blk 4228 232 false; Blk 4460 82
    false; Blk 4542 578 true]) as H2.
  { repeat (first [by left|right]). }
  repeat (split; [first [exact Hh|exact H1|exact H2]|]).
  exact (X11_deallocate_frees_one_block 32 (2 ^ 64) Hh 4096 pool3 [Blk 4096 132 false;
    Blk 4228 232 false; Blk 4460 82 false; Blk 4542 578 true] [4542] 4228 232 H1 H2).
Defined.

(** An instance of X12: the second request of the test driver. *)
Lemma X12_witness :
  0 < 32 ∧
  wf 32 (2 ^ 64) 4096 pool1 [Blk 4096 132 false; Blk 4228 892 true] [4228] ∧
  0 < 200 ∧
  200 + 32 < 2 ^ 64 ∧
  allocate 32 (2 ^ 64) 200 pool1 = Done (Some 4260, pool2) ∧
  ∃ (bl' : list blk) (sz : Z) (U1 U2 : list blk),
    pool_blocks 32 pool1 = Some [Blk 4096 132 false; Blk 4228 892 true] ∧
    pool_blocks 32 pool2 = Some bl' ∧
    200 + 32 ≤ sz ∧
    sz ≤ 200 + 2 * 32 ∧
    used_blocks [Blk 4096 132 false; Blk 4228 892 true] = U1 ++ U2 ∧
    used_blocks bl' = U1 ++ (Blk (4260 - 32) sz false) :: U2 ∧
    free_total bl' = free_total [Blk 4096 132 false; Blk 4228 892 true] - sz.
Proof.
  assert (0 < 32) as Hh by lia.
  assert (wf 32 (2 ^ 64) 4096 pool1 [Blk 4096 132 false; Blk 4228 892 true] [4228]) as
    H1.
  { exact pool1_wf. }
  assert (0 < 200) as H2 by lia.
  assert (200 + 32 < 2 ^ 64) as H3 by lia.
  assert (allocate 32 (2 ^ 64) 200 pool1 = Done (Some 4260, pool2)) as H4.
  { exact pool2_run. }
  repeat (split; [first [exact Hh|exact H1|exact H2|exact H3|exact H4]|]).
  exact (X12_allocate_takes_one_block 32 (2 ^ 64) Hh 4096 pool1 [Blk 4096 132 false;
    Blk 4228 892 true] [4228] 200 4260 pool2 H1 H2 H3 H4).
Defined.

(** An instance of X13: the pool after one request was served and given
    back. *)
Lemma X13_witness :
  0 < 32 ∧
  reachable 32 (2 ^ 64) 4096 pool_back ∅ ∧
  pool_blocks 32 pool_back = Some [Blk 4096 (m_pool_size pool_back) true] ∧
  print_free_list pool_back = Done ([(4096, m_pool_size pool_back)], pool_back).
Proof.
  assert (0 < 32) as Hh by lia.
  assert (reachable 32 (2 ^ 64) 4096 pool_back ∅) as H1 by exact pool_back_reachable.
  repeat (split; [first [exact Hh|exact H1]|]).
  exact (X13_all_returned_is_one_free_block 32 (2 ^ 64) Hh 4096 pool_back H1).
Defined.

(** An instance of X14: p1 is given back and asked for again. *)
Lemma X14_witness :
  0 < 32 ∧
  wf 32 (2 ^ 64) 4096 pool1 ([] ++ [Blk 4096 132 false; Blk 4228 892 true]) [4228] ∧
  last_free [] = false ∧
  0 < 100 ∧
  100 + 32 ≤ 132 ∧
  ∃ (s' s'' : Allocator) (l : list (Z * Z)),
    deallocate 32 (2 ^ 64) (Some (4096 + 32)) pool1 = Done (tt, s') ∧
    print_free_list s' = Done (l, s') ∧
    head l.*1 = Some 4096 ∧
    allocate 32 (2 ^ 64) 100 s' = Done (Some (4096 + 32), s'').
Proof.
  assert (0 < 32) as Hh by lia.
  assert (wf 32 (2 ^ 64) 4096 pool1 ([] ++ [Blk 4096 132 false; Blk 4228 892 true])
    [4228]) as H1.
  { exact pool1_wf. }
  assert (last_free [] = false) as H2 by reflexivity.
  assert (0 < 100) as H3 by lia.
  assert (100 + 32 ≤ 132) as H4 by lia.
  repeat (split; [first [exact Hh|exact H1|exact H2|exact H3|exact H4]|]).
  exact (X14_freed_block_is_reused 32 (2 ^ 64) Hh 4096 pool1 [] 4096 132 [Blk 4228 892
    true] [4228] 100 H1 H2 H3 H4).
Defined.

(** An instance of X15: the LP64 target, the pool at address 4096. *)
Lemma X15_witness :
  0 < 32 ∧
  wf 32 (2 ^ 64) 4096 pool0 [Blk 4096 1024 true] [4096] ∧
  6 * 32 < 724 ∧
  let st := 60 + 32 in
  let a := λ i : Z, 4096 + i * st in
  let p := λ i : Z, a i + 32 in
  ∃ s5 s6 s7 s8 s9 s10 : Allocator,
    allocate_each 32 (2 ^ 64) [60; 60; 60; 60; 60] pool0 = Done ([Some (p 0); Some (p
      1); Some (p 2); Some (p 3); Some (p 4)], s5) ∧
    print_free_list s5 = Done ([(a 5, 1024 - 5 * st)], s5) ∧
    deallocate 32 (2 ^ 64) (Some (p 1)) s5 = Done (tt, s6) ∧
    deallocate 32 (2 ^ 64) (Some (p 3)) s6 = Done (tt, s7) ∧
    print_free_list s7 = Done ([(a 3, st); (a 1, st); (a 5, 1024 - 5 * st)], s7) ∧
    deallocate 32 (2 ^ 64) (Some (p 2)) s7 = Done (tt, s8) ∧
    print_free_list s8 = Done ([(a 1, 3 * st); (a 5, 1024 - 5 * st)], s8) ∧
    pool_blocks 32 s8 = Some [Blk (a 0) st false; Blk (a 1) (3 * st) true; Blk (a 4)
      st false; Blk (a 5) (1024 - 5 * st) true] ∧
    deallocate 32 (2 ^ 64) (Some (p 0)) s8 = Done (tt, s9) ∧
    deallocate 32 (2 ^ 64) (Some (p 4)) s9 = Done (tt, s10) ∧
    print_free_list s10 = Done ([(4096, 1024)], s10) ∧
    pool_blocks 32 s10 = Some [Blk 4096 1024 true].
Proof.
  assert (0 < 32) as Hh by lia.
  assert (wf 32 (2 ^ 64) 4096 pool0 [Blk 4096 1024 true] [4096]) as H1.
  { exact pool0_wf. }
  assert (6 * 32 < 724) as H2 by lia.
  repeat (split; [first [exact Hh|exact H1|exact H2]|]).
  exact (X15_stress_test_of_main 32 (2 ^ 64) Hh 4096 pool0 H1 H2).
Defined.

(** An instance of X16: p1 and p3 of the test driver, in both orders. *)
Lemma X16_witness :
  0 < 32 ∧
  wf 32 (2 ^ 64) 4096 pool3 [Blk 4096 132 false; Blk 4228 232 false; Blk 4460 82
    false; Blk 4542 578 true] [4542] ∧
  Blk 4096 132 false ∈ [Blk 4096 132 false; Blk 4228 232 false; Blk 4460 82 false; Blk
    4542 578 true] ∧
  Blk 4460 82 false ∈ [Blk 4096 132 false; Blk 4228 232 false; Blk 4460 82 false; Blk
    4542 578 true] ∧
  4096 ≠ 4460 ∧
  ∃ (s1 s12 s2 s21 : Allocator) (bl' : list blk) (l12 l21 : list (Z * Z)),
    deallocate 32 (2 ^ 64) (Some (4096 + 32)) pool3 = Done (tt, s1) ∧
    deallocate 32 (2 ^ 64) (Some (4460 + 32)) s1 = Done (tt, s12) ∧
    deallocate 32 (2 ^ 64) (Some (4460 + 32)) pool3 = Done (tt, s2) ∧
    deallocate 32 (2 ^ 64) (Some (4096 + 32)) s2 = Done (tt, s21) ∧
    pool_blocks 32 s12 = Some bl' ∧
    pool_blocks 32 s21 = Some bl' ∧
    print_free_list s12 = Done (l12, s12) ∧
    print_free_list s21 = Done (l21, s21) ∧
    l12 ≡ₚ l21.
Proof.
  assert (0 < 32) as Hh by lia.
  assert (wf 32 (2 ^ 64) 4096 pool3 [Blk 4096 132 false; Blk 4228 232 false; Blk 4460
    82 false; Blk 4542 578 true] [4542]) as H1.
  { exact pool3_wf. }
  assert (Blk 4096 132 false ∈ [Blk 4096 132 false; Blk 4228 232 false; Blk 4460 82
    false; Blk 4542 578 true]) as H2.
  { repeat (first [by left|right]). }
  assert (Blk 4460 82 false ∈ [Blk 4096 132 false; Blk 4228 232 false; Blk 4460 82
    false; Blk 4542 578 true]) as H3.
  { repeat (first [by left|right]). }
  assert (4096 ≠ 4460) as H4 by lia.
  repeat (split; [first [exact Hh|exact H1|exact H2|exact H3|exact H4]|]).
  exact (X16_deallocate_order_is_immaterial 32 (2 ^ 64) Hh 4096 pool3 [Blk 4096 132
    false; Blk 4228 232 false; Blk 4460 82 false; Blk 4542 578 true] [4542] 4096 132
    4460 82 H1 H2 H3 H4).
Defined.

(** An instance of X17: p1 of the test driver is given back twice. *)
Lemma X17_witness :
  0 < 32 ∧
  wf 32 (2 ^ 64) 4096 pool1 ([] ++ [Blk 4096 132 false; Blk 4228 892 true]) [4228] ∧
  last_free [] = false ∧
  ∃ s1 s2 : Allocator,
    deallocate 32 (2 ^ 64) (Some (4096 + 32)) pool1 = Done (tt, s1) ∧
    deallocate 32 (2 ^ 64) (Some (4096 + 32)) s1 = Done (tt, s2) ∧
    m_free_list_head s2 = Some 4096 ∧
    links (cells s2) 4096 = Some (Some 4096, Some 4096) ∧
    (∀ fuel : nat, walk_free_list fuel (Some 4096) s2 = Diverge) ∧
    print_free_list s2 = Diverge.
Proof.
  assert (0 < 32) as Hh by lia.
  assert (wf 32 (2 ^ 64) 4096 pool1 ([] ++ [Blk 4096 132 false; Blk 4228 892 true])
    [4228]) as H1.
  { exact pool1_wf. }
  assert (last_free [] = false) as H2 by reflexivity.
  repeat (split; [first [exact Hh|exact H1|exact H2]|]).
  exact (X17_double_free_makes_a_cycle 32 (2 ^ 64) Hh 4096 pool1 [] 4096 132 [Blk 4228
    892 true] [4228] H1 H2).
Defined.

(** An instance of X18: the five requests of 60 bytes of the stress test. *)
Lemma X18_witness :
  0 < 32 ∧
  wf 32 (2 ^ 64) 4096 pool0 ([] ++ [Blk 4096 1024 true]) [4096] ∧
  0 < 60 ∧
  60 + 32 < 2 ^ 64 ∧
  Z.of_nat 5 * (60 + 32) + 32 < 1024 ∧
  let stride := 60 + 32 in
  ∃ s' : Allocator,
    allocate_each 32 (2 ^ 64) (replicate 5 60) pool0 = Done ((λ i : nat, Some (4096 +
      Z.of_nat i * stride + 32)) <$> seq 0 5, s') ∧
    wf 32 (2 ^ 64) 4096 s' ([] ++ ((λ i : nat, (Blk (4096 + Z.of_nat i * stride)
      stride false)) <$> seq 0 5) ++ [Blk (4096 + Z.of_nat 5 * stride) (1024 -
      Z.of_nat 5 * stride) true]) [4096 + Z.of_nat 5 * stride].
Proof.
  assert (0 < 32) as Hh by lia.
  assert (wf 32 (2 ^ 64) 4096 pool0 ([] ++ [Blk 4096 1024 true]) [4096]) as H1.
  { exact pool0_wf. }
  assert (0 < 60) as H2 by lia.
  assert (60 + 32 < 2 ^ 64) as H3 by lia.
  assert (Z.of_nat 5 * (60 + 32) + 32 < 1024) as H4.
  { vm_compute; reflexivity. }
  repeat (split; [first [exact Hh|exact H1|exact H2|exact H3|exact H4]|]).
  exact (X18_equal_requests_lie_in_a_row 32 (2 ^ 64) Hh 60 5%nat 4096 pool0 [] 4096
    1024 [] [] H1 H2 H3 H4).
Defined.

(** An instance of X20: the pool of the test driver and a request of
    2^64 - 32 bytes. *)
Lemma X20_witness :
  0 < 32 ∧
  32 < 1024 ∧
  1024 + 32 < 2 ^ 64 ∧
  let broken := wrapped in
  allocate 32 (2 ^ 64) huge pool0 = Done (Some (4096 + 32), broken) ∧
  pool_blocks 32 broken = None ∧
  print_free_list broken = Done ([(4096, 0)], broken).
Proof.
  assert (0 < 32) as Hh by lia.
  assert (32 < 1024) as H1 by lia.
  assert (1024 + 32 < 2 ^ 64) as H2 by lia.
  repeat (split; [first [exact Hh|exact H1|exact H2]|]).
  exact (X20_request_that_wraps_to_zero 32 (2 ^ 64) Hh 4096 1024 H1 H2).
Defined.

(** An instance of X21: p3 is given back when both its neighbours are free. *)
Lemma X21_witness :
  0 < 32 ∧
  wf 32 (2 ^ 64) 4096 pool4 [Blk 4096 132 false; Blk 4228 232 true; Blk 4460 82 false;
    Blk 4542 578 true] [4228; 4542] ∧
  Blk 4460 82 false ∈ [Blk 4096 132 false; Blk 4228 232 true; Blk 4460 82 false; Blk
    4542 578 true] ∧
  ∃ (s' : Allocator) (bl' : list blk) (fl' : list Z) (l : list (Z * Z)),
    deallocate 32 (2 ^ 64) (Some (4460 + 32)) pool4 = Done (tt, s') ∧
    dealloc_post [Blk 4096 132 false; Blk 4228 232 true; Blk 4460 82 false; Blk 4542
      578 true] [4228; 4542] 4460 bl' fl' ∧
    pool_blocks 32 s' = Some bl' ∧
    print_free_list s' = Done (l, s') ∧
    l.*1 = fl'.
Proof.
  assert (0 < 32) as Hh by lia.
  assert (wf 32 (2 ^ 64) 4096 pool4 [Blk 4096 132 false; Blk 4228 232 true; Blk 4460
    82 false; Blk 4542 578 true] [4228; 4542]) as H1.
  { exact pool4_wf. }
  assert (Blk 4460 82 false ∈ [Blk 4096 132 false; Blk 4228 232 true; Blk 4460 82
    false; Blk 4542 578 true]) as H2.
  { repeat (first [by left|right]). }
  repeat (split; [first [exact Hh|exact H1|exact H2]|]).
  exact (X21_deallocate_merges_with_free_neighbours 32 (2 ^ 64) Hh 4096 pool4 [Blk
    4096 132 false; Blk 4228 232 true; Blk 4460 82 false; Blk 4542 578 true] [4228;
    4542] 4460 82 H1 H2).
Defined.
